(** * obs-ls-headless: the synchronisation and document-reconstruction core

    A shallow embedding of
      - [src/utils/livesync-crypto.ts]   ([LiveSyncCrypto]),
      - [src/core/chunk-assembler.ts]    ([ChunkAssembler]),
      - [src/repositories/memory-note-repository.ts] and
        [src/repositories/disk-note-repository.ts] (the [search] methods),
      - [src/services/sync-service.ts]   ([SyncService]),
    followed by the properties of the specification that concern them.

    JavaScript strings are modelled as [string]; optional fields as [option];
    a JS [Map] or object used as a map as an association list in iteration
    order; an [async] function as a resumption tree whose nodes are the reads
    and writes of the fields of [this] and the awaited collaborator calls. *)

From Stdlib Require Import List String Ascii ZArith Bool Lia.
From Stdlib Require Import Permutation Sorted.
Import ListNotations.

Local Open Scope string_scope.
Local Open Scope Z_scope.

(* ================================================================== *)
(** * JavaScript values *)

Module Js.

(** Truthiness of an optional string: [undefined] and [''] are falsy. *)
Definition truthy_string (s : option string) : bool :=
  match s with
  | Some EmptyString => false
  | Some _ => true
  | None => false
  end.

(** Truthiness of an optional boolean flag. *)
Definition truthy_bool (b : option bool) : bool :=
  match b with
  | Some true => true
  | _ => false
  end.

(** Truthiness of an optional number: [undefined] and [0] are falsy. *)
Definition truthy_number (n : option Z) : bool :=
  match n with
  | Some 0 => false
  | Some _ => true
  | None => false
  end.

(** [s.startsWith(p)]. *)
Definition startsWith (s p : string) : bool := String.prefix p s.

(** [s.includes(sub)]: [sub] occurs in [s] as a contiguous substring. *)
Fixpoint includes (s sub : string) : bool :=
  String.prefix sub s ||
  match s with
  | EmptyString => false
  | String _ s' => includes s' sub
  end.

(** [c] lower-cased, on the letters A to Z. *)
Definition lower_ascii (c : ascii) : ascii :=
  let n := nat_of_ascii c in
  if (Nat.leb 65 n && Nat.leb n 90)%bool then ascii_of_nat (n + 32) else c.

(** [s.toLowerCase()], on strings of 8-bit code units. *)
Fixpoint toLowerCase (s : string) : string :=
  match s with
  | EmptyString => EmptyString
  | String c s' => String (lower_ascii c) (toLowerCase s')
  end.

(** White space as [trim] sees it: space, tab, LF, VT, FF, CR. *)
Definition is_space (c : ascii) : bool :=
  let n := nat_of_ascii c in
  (Nat.eqb n 32 || (Nat.leb 9 n && Nat.leb n 13))%bool.

Fixpoint trimStart (s : string) : string :=
  match s with
  | String c s' => if is_space c then trimStart s' else s
  | EmptyString => EmptyString
  end.

Fixpoint rev_string (s : string) (acc : string) : string :=
  match s with
  | EmptyString => acc
  | String c s' => rev_string s' (String c acc)
  end.

(** [s.trim()]. *)
Definition trim (s : string) : string :=
  rev_string (trimStart (rev_string (trimStart s) EmptyString)) EmptyString.

(** [parts.join('')]. *)
Definition join (parts : list string) : string :=
  fold_right String.append EmptyString parts.

(** ** Insertion-ordered maps with string keys ([Map], plain objects) *)

Definition Map (V : Type) : Type := list (string * V).

Fixpoint get {V} (k : string) (m : Map V) : option V :=
  match m with
  | [] => None
  | (k', v) :: m' => if String.eqb k k' then Some v else get k m'
  end.

(** [m.set(k, v)]: an existing key keeps its position. *)
Fixpoint set {V} (k : string) (v : V) (m : Map V) : Map V :=
  match m with
  | [] => [(k, v)]
  | (k', v') :: m' =>
      if String.eqb k k' then (k, v) :: m' else (k', v') :: set k v m'
  end.

(** [m.delete(k)]. *)
Fixpoint delete {V} (k : string) (m : Map V) : Map V :=
  match m with
  | [] => []
  | (k', v') :: m' =>
      if String.eqb k k' then m' else (k', v') :: delete k m'
  end.

Definition keys {V} (m : Map V) : list string := map fst m.
Definition values {V} (m : Map V) : list V := map snd m.

(** ** [Array.prototype.sort]

    The sort is stable and orders by the sign of the comparator; for a
    consistent comparator that fixes the result, computed here by a stable
    insertion sort. *)
Fixpoint sort_insert {A} (cmp : A -> A -> Z) (x : A) (l : list A) : list A :=
  match l with
  | [] => [x]
  | y :: l' =>
      if cmp x y <=? 0 then x :: y :: l' else y :: sort_insert cmp x l'
  end.

Definition sort {A} (cmp : A -> A -> Z) (l : list A) : list A :=
  fold_right (sort_insert cmp) [] l.

End Js.

(* ================================================================== *)
(** * Types ([src/types/index.ts], [src/core/interfaces.ts]) *)

(** [EdenChunk] *)
Record EdenChunk : Type := mkEdenChunk {
  eden_data : string;
  epoch : Z
}.

(** [LiveSyncDocument]; [pbkdf2salt] is the extra field that the
    sync-parameters document carries. *)
Record LiveSyncDocument : Type := mkDoc {
  _id : string;
  _rev : option string;
  type : option string;
  path : option string;
  data : option string;
  children : option (list string);
  eden : option (Js.Map EdenChunk);
  mtime : option Z;
  ctime : option Z;
  size : option Z;
  deleted : option bool;
  _deleted : option bool;
  pbkdf2salt : option string
}.

(** [Note]; a [Date] is its epoch-millisecond value. *)
Record Note : Type := mkNote {
  id : string;
  note_path : string;
  content : string;
  note_mtime : Z;
  note_ctime : Z;
  note_size : Z
}.

(** [SyncStatus] *)
Record SyncStatus : Type := mkStatus {
  isRunning : bool;
  lastSyncTime : option Z;
  lastSyncSuccess : bool;
  documentsCount : Z;
  lastSeq : option string;
  error : option string
}.

(** [SyncState]; [lastSyncTime] is the instant whose ISO string is stored. *)
Record SyncState : Type := mkState {
  state_lastSeq : option string;
  state_lastSyncTime : option Z
}.

(** One row of the changes feed, with [include_docs]. *)
Record Change : Type := mkChange {
  change_id : string;
  change_deleted : option bool;
  change_doc : option LiveSyncDocument
}.

(** [Nano.DatabaseChangesResponse]; [last_seq] is [String(changes.last_seq)]. *)
Record ChangesResponse : Type := mkChanges {
  results : option (list Change);
  last_seq : string
}.

(** [Nano.DatabaseGetResponse]; [update_seq] is [String(dbInfo.update_seq)]. *)
Record DatabaseInfo : Type := mkDbInfo {
  update_seq : string
}.

(* ================================================================== *)
(** * Async functions as resumption trees *)

(** The settlement of a promise: fulfilled with a value, or rejected with
    an [Error] of the given message. *)
Inductive Res (A : Type) : Type :=
| Ok (a : A)
| Throw (msg : string).
Arguments Ok {A} a.
Arguments Throw {A} msg.

Section Async.
(** [S]: the mutable fields of [this]; [C A]: a call on a collaborator
    whose promise fulfils with an [A]. *)
Context {S : Type} {C : Type -> Type}.

Inductive Async (R : Type) : Type :=
| Ret (r : R)
| GetThis (k : S -> Async R)
| SetThis (s : S) (k : Async R)
| Now (k : Z -> Async R)
| Tick (k : Async R)
| Await (A : Type) (c : C A) (k : Res A -> Async R).

Arguments Ret {R} r.
Arguments GetThis {R} k.
Arguments SetThis {R} s k.
Arguments Now {R} k.
Arguments Tick {R} k.
Arguments Await {R A} c k.

Fixpoint bind {R R'} (m : Async R) (f : R -> Async R') : Async R' :=
  match m with
  | Ret r => f r
  | GetThis k => GetThis (fun s => bind (k s) f)
  | SetThis s k => SetThis s (bind k f)
  | Now k => Now (fun t => bind (k t) f)
  | Tick k => Tick (bind k f)
  | Await c k => Await c (fun r => bind (k r) f)
  end.

(** A computation that may throw. *)
Definition Task (R : Type) : Type := Async (Res R).

Definition ret {R} (r : R) : Task R := Ret (Ok r).
Definition throw {R} (msg : string) : Task R := Ret (Throw msg).

Definition tbind {R R'} (m : Task R) (f : R -> Task R') : Task R' :=
  bind m (fun r => match r with Ok a => f a | Throw e => Ret (Throw e) end).

(** [await c] on a collaborator's promise. *)
Definition call {A} (c : C A) : Task A := Await c (fun r => Ret r).

(** [await m] on the promise of one of this object's own async methods:
    the caller resumes one tick after [m] settles. *)
Definition await {R} (m : Task R) : Task R := bind m (fun r => Tick (Ret r)).

Definition read : Task S := GetThis (fun s => Ret (Ok s)).
Definition modify (f : S -> S) : Task unit :=
  GetThis (fun s => SetThis (f s) (Ret (Ok tt))).
Definition now : Task Z := Now (fun t => Ret (Ok t)).

(** [try { m } catch (error) { h error.message }] *)
Definition try_catch {R} (m : Task R) (h : string -> Task R) : Task R :=
  bind m (fun r => match r with Ok a => Ret (Ok a) | Throw e => h e end).

(** [try { m } finally { fin }], for a [fin] that does not throw. *)
Definition try_finally {R} (m : Task R) (fin : Task unit) : Task R :=
  bind m (fun r => bind fin (fun _ => Ret r)).

(** ** Running a tree against its collaborators *)

(** A suspension of the run: a pending collaborator call with its
    settlement, or a tick. *)
Inductive Suspension : Type :=
| Called (A : Type) (c : C A) (r : Res A)
| Ticked.

(** What was observable at a suspension: the fields of [this] while the
    function was suspended. *)
Record Event : Type := mkEvent {
  ev_state : S;
  ev_susp : Suspension
}.

(** The collaborators, with their own state [E], and the clock. *)
Record Env (E : Type) : Type := mkEnv {
  handle : forall A, C A -> E -> Res A * E;
  clock : E -> Z
}.
Arguments handle {E} _ {A} _ _.
Arguments clock {E} _ _.

Record Outcome (E R : Type) : Type := mkOutcome {
  result : R;
  final : S;
  world : E;
  trace : list Event
}.
Arguments mkOutcome {E R}.
Arguments result {E R}.
Arguments final {E R}.
Arguments world {E R}.
Arguments trace {E R}.

Definition after {E R} (ev : list Event) (o : Outcome E R) : Outcome E R :=
  mkOutcome (result o) (final o) (world o) (ev ++ trace o).

(** One run, from the fields [s] and the world [e]: the synchronous steps
    act on the fields, a suspension is recorded with the fields as they are
    then, and the run resumes from them. *)
Fixpoint run {E R} (env : Env E) (p : Async R) (s : S) (e : E) : Outcome E R :=
  match p with
  | Ret r => mkOutcome r s e []
  | GetThis k => run env (k s) s e
  | SetThis s' k => run env k s' e
  | Now k => run env (k (clock env e)) s e
  | Tick k => after [mkEvent s Ticked] (run env k s e)
  | Await c k =>
      let (r, e') := handle env c e in
      after [mkEvent s (Called _ c r)] (run env (k r) s e')
  end.

End Async.

Arguments Ret {S C R} r.
Arguments GetThis {S C R} k.
Arguments SetThis {S C R} s k.
Arguments Now {S C R} k.
Arguments Tick {S C R} k.
Arguments Await {S C R A} c k.
Arguments Called {C A} c r.
Arguments Ticked {C}.
Arguments mkEvent {S C} ev_state ev_susp.
Arguments ev_state {S C} e.
Arguments ev_susp {S C} e.
Arguments mkEnv {C E} handle clock.
Arguments handle {C E} _ {A} _ _.
Arguments clock {C E} _ _.
Arguments mkOutcome {S C E R} result final world trace.
Arguments result {S C E R} o.
Arguments final {S C E R} o.
Arguments world {S C E R} o.
Arguments trace {S C E R} o.
Arguments Async S C R : clear implicits.
Arguments Task S C R : clear implicits.
Arguments Event S C : clear implicits.
Arguments Suspension C : clear implicits.
Arguments Env C E : clear implicits.
Arguments Outcome S C E R : clear implicits.

Declare Scope async_scope.
Delimit Scope async_scope with async.
Notation "x <- m ;; k" := (tbind m (fun x => k))
  (at level 61, m at next level, right associativity) : async_scope.
Notation "m ;;; k" := (tbind m (fun _ => k))
  (at level 61, right associativity) : async_scope.

Local Open Scope async_scope.

(* ================================================================== *)
(** * What the Node runtime and [octagonal-wheels] provide *)

(** A salt is a [Uint8Array]. *)
Definition Salt : Type := list Byte.byte.

Class Runtime : Type := mkRuntime {
  (** [Buffer.from(s, 'base64').toString('utf-8')] *)
  base64_utf8 : string -> string;
  (** the bytes of [Buffer.from(s, 'base64')] *)
  base64_bytes : string -> Salt;
  (** the settlement of [decryptHKDF(data, passphrase, salt)] *)
  decryptHKDF : string -> string -> Salt -> Res string
}.

(** [IDocumentStorage] *)
Inductive StorageCall : Type -> Type :=
| GetDocument (id : string) : StorageCall (option LiveSyncDocument)
| GetDocuments (ids : list string) : StorageCall (Js.Map LiveSyncDocument)
| GetAllDocuments : StorageCall (list LiveSyncDocument).

(* ================================================================== *)
(** * [LiveSyncCrypto] ([src/utils/livesync-crypto.ts]) *)

Module LiveSyncCrypto.
Section WithRuntime.
Context `{Runtime}.

Definition SYNC_PARAMS_DOCID : string := "_local/obsidian_livesync_sync_parameters".
Definition HKDF_PREFIX : string := "%=".

(** The one mutable field, [pbkdf2Salt]; [storage] and [passphrase] are
    fixed at construction. *)
Definition This : Type := option Salt.

Definition M (R : Type) : Type := Task This StorageCall R.

Definition getPBKDF2Salt : M Salt :=
  cached <- read ;;
  match cached with
  | Some salt => ret salt
  | None =>
      try_catch
        (syncParams <- call (GetDocument SYNC_PARAMS_DOCID) ;;
         match syncParams with
         | None =>
             throw "Sync parameters document not found. Make sure the database is a valid LiveSync database with encryption enabled."
         | Some params =>
             match pbkdf2salt params with
             | Some (String c rest) =>
                 let buffer := base64_bytes (String c rest) in
                 modify (fun _ => Some buffer) ;;;
                 ret buffer
             | _ => throw "pbkdf2salt not found in sync parameters document"
             end
         end)
        (fun message => throw ("Failed to load encryption salt: " ++ message))
  end.

Definition isEncrypted (data : string) : bool :=
  Js.startsWith data HKDF_PREFIX.

Definition decrypt (passphrase : string) (encryptedData : string) : M string :=
  if negb (isEncrypted encryptedData) then ret encryptedData
  else
    try_catch
      (salt <- await getPBKDF2Salt ;;
       decrypted <- await (Ret (decryptHKDF encryptedData passphrase salt)) ;;
       ret decrypted)
      (fun message => throw ("Decryption failed: " ++ message)).

End WithRuntime.
End LiveSyncCrypto.

(* ================================================================== *)
(** * [ChunkAssembler] ([src/core/chunk-assembler.ts]) *)

(** Logging, and the [AssemblyStats] that are only logged, have no
    counterpart here. *)
Module ChunkAssembler.
Section WithRuntime.
Context `{Runtime}.

Definition M (R : Type) : Type := Task LiveSyncCrypto.This StorageCall R.

(** The constructor: [crypto] is created for a truthy passphrase only.
    The field holds the passphrase of the [LiveSyncCrypto] it owns. *)
Definition new (passphrase : option string) : option string :=
  if Js.truthy_string passphrase then passphrase else None.

(** The block repeated at every leaf: decrypt through [crypto] when there
    is one, decode base64 otherwise. *)
Definition decode (crypto : option string) (payload : string) : M string :=
  match crypto with
  | Some passphrase => await (LiveSyncCrypto.decrypt passphrase payload)
  | None => ret (base64_utf8 payload)
  end.

(** The loop of [assembleFromChildren] over [children], with the array
    [chunks] built so far. *)
Fixpoint childrenLoop (crypto : option string)
    (chunkDocs : Js.Map LiveSyncDocument) (children : list string)
    (chunks : list string) : M string :=
  match children with
  | [] => ret (Js.join chunks)
  | chunkId :: rest =>
      match Js.get chunkId chunkDocs with
      | None => throw ("Chunk not found: " ++ chunkId)
      | Some chunk =>
          match data chunk with
          | Some (String c d) =>
              decryptedChunk <- decode crypto (String c d) ;;
              childrenLoop crypto chunkDocs rest (chunks ++ [decryptedChunk])
          | _ => throw ("Chunk has no data: " ++ chunkId)
          end
      end
  end.

Definition assembleFromChildren (crypto : option string)
    (children : list string) : M string :=
  chunkDocs <- call (GetDocuments children) ;;
  childrenLoop crypto chunkDocs children [].

(** The comparator of the sort: [a.epoch - b.epoch]. *)
Definition byEpoch (a b : string * EdenChunk) : Z :=
  epoch (snd a) - epoch (snd b).

(** The loop of [assembleFromEden] over the sorted entries. *)
Fixpoint edenLoop (crypto : option string)
    (sortedEntries : list (string * EdenChunk))
    (decryptedChunks : list string) : M string :=
  match sortedEntries with
  | [] => ret (Js.join decryptedChunks)
  | (chunkId, chunk) :: rest =>
      decrypted <- try_catch (decode crypto (eden_data chunk))
                             (fun message => throw message) ;;
      edenLoop crypto rest (decryptedChunks ++ [decrypted])
  end.

Definition assembleFromEden (crypto : option string)
    (eden : Js.Map EdenChunk) : M string :=
  try_catch
    (let sortedEntries := Js.sort byEpoch eden in
     edenLoop crypto sortedEntries [])
    (fun message => throw message).

(** [null] is [None]. *)
Definition assembleDocument (crypto : option string)
    (doc : LiveSyncDocument) : M (option string) :=
  try_catch
    (match data doc with
     | Some (String c d) =>
         text <- decode crypto (String c d) ;;
         ret (Some text)
     | _ =>
         match eden doc with
         | Some (entry :: entries) =>
             text <- await (assembleFromEden crypto (entry :: entries)) ;;
             ret (Some text)
         | _ =>
             match children doc with
             | Some (chunkId :: ids) =>
                 text <- await (assembleFromChildren crypto (chunkId :: ids)) ;;
                 ret (Some text)
             | _ => ret None
             end
         end
     end)
    (fun message => throw message).

End WithRuntime.
End ChunkAssembler.

(* ================================================================== *)
(** * [MemoryNoteRepository] ([src/repositories/memory-note-repository.ts]) *)

Module MemoryNoteRepository.

(** The field [notes], a [Map<string, Note>]. *)
Definition This : Type := Js.Map Note.

Definition save (note : Note) (notes : This) : This :=
  Js.set (id note) note notes.

Definition saveMany (many : list Note) (notes : This) : This :=
  fold_left (fun acc note => Js.set (id note) note acc) many notes.

Definition delete (noteId : string) (notes : This) : This :=
  Js.delete noteId notes.

Definition deleteMany (ids : list string) (notes : This) : This :=
  fold_left (fun acc noteId => Js.delete noteId acc) ids notes.

Definition get (noteId : string) (notes : This) : option Note :=
  Js.get noteId notes.

Definition getAll (notes : This) : list Note := Js.values notes.

Definition search (query : string) (notes : This) : list Note :=
  let lower := Js.toLowerCase query in
  filter (fun note =>
            Js.includes (Js.toLowerCase (note_path note)) lower
            || Js.includes (Js.toLowerCase (content note)) lower)
         (Js.values notes).

Definition count (notes : This) : Z := Z.of_nat (List.length notes).

End MemoryNoteRepository.

(* ================================================================== *)
(** * [DiskNoteRepository.search] ([src/repositories/disk-note-repository.ts]) *)

Module DiskNoteRepository.

(** [search], given the notes that [getAll] reads back from the vault. *)
Definition search (query : string) (all : list Note) : list Note :=
  match Js.trim query with
  | EmptyString => []
  | _ =>
      let lower := Js.toLowerCase query in
      filter (fun note =>
                Js.includes (Js.toLowerCase (note_path note)) lower
                || Js.includes (Js.toLowerCase (content note)) lower)
             all
  end.

End DiskNoteRepository.

(* ================================================================== *)
(** * [SyncService] ([src/services/sync-service.ts]) *)

(** The calls of the service on its collaborators: the CouchDB client, the
    assembler, the state storage and the note repository. *)
Inductive SyncCall : Type -> Type :=
| ClientGetAllDocuments : SyncCall (list LiveSyncDocument)
| ClientGetDatabaseInfo : SyncCall DatabaseInfo
| ClientGetChanges (since : option string) : SyncCall ChangesResponse
| AssembleDocument (doc : LiveSyncDocument) : SyncCall (option string)
| StateGetState : SyncCall SyncState
| StateUpdateState (partial : SyncState) : SyncCall unit
| RepoSave (note : Note) : SyncCall unit
| RepoSaveMany (notes : list Note) : SyncCall unit
| RepoDelete (noteId : string) : SyncCall unit
| RepoDeleteMany (ids : list string) : SyncCall unit
| RepoGet (noteId : string) : SyncCall (option Note)
| RepoGetAll : SyncCall (list Note)
| RepoSearch (query : string) : SyncCall (list Note)
| RepoCount : SyncCall Z.

Module SyncService.

Definition M (R : Type) : Type := Task SyncStatus SyncCall R.

(** The constructor's [status]. *)
Definition new : SyncStatus :=
  mkStatus false None false 0 None None.

(** Assignments to the fields of [this.status]. *)
Definition set_isRunning (b : bool) (st : SyncStatus) : SyncStatus :=
  mkStatus b (lastSyncTime st) (lastSyncSuccess st) (documentsCount st)
           (lastSeq st) (error st).
Definition set_lastSyncTime (t : Z) (st : SyncStatus) : SyncStatus :=
  mkStatus (isRunning st) (Some t) (lastSyncSuccess st) (documentsCount st)
           (lastSeq st) (error st).
Definition set_lastSyncSuccess (b : bool) (st : SyncStatus) : SyncStatus :=
  mkStatus (isRunning st) (lastSyncTime st) b (documentsCount st)
           (lastSeq st) (error st).
Definition set_documentsCount (n : Z) (st : SyncStatus) : SyncStatus :=
  mkStatus (isRunning st) (lastSyncTime st) (lastSyncSuccess st) n
           (lastSeq st) (error st).
Definition set_lastSeq (seq : string) (st : SyncStatus) : SyncStatus :=
  mkStatus (isRunning st) (lastSyncTime st) (lastSyncSuccess st)
           (documentsCount st) (Some seq) (error st).
Definition set_error (message : string) (st : SyncStatus) : SyncStatus :=
  mkStatus (isRunning st) (lastSyncTime st) (lastSyncSuccess st)
           (documentsCount st) (lastSeq st) (Some message).
Definition delete_error (st : SyncStatus) : SyncStatus :=
  mkStatus (isRunning st) (lastSyncTime st) (lastSyncSuccess st)
           (documentsCount st) (lastSeq st) None.

Definition initialize : M unit :=
  state <- call StateGetState ;;
  match state_lastSeq state with
  | Some (String c rest) => modify (set_lastSeq (String c rest))
  | _ => ret tt
  end.

Record ProcessResult : Type := mkProcessResult {
  processedCount : Z;
  skippedCount : Z;
  errorCount : Z
}.

(** The filter at the head of the loop of [processDocuments]: the document
    is skipped. *)
Definition skipped (doc : LiveSyncDocument) : bool :=
  (Js.startsWith (_id doc) "h:" || Js.startsWith (_id doc) "h:+")
  || Js.includes (_id doc) ":"
  || (Js.truthy_bool (deleted doc) || Js.truthy_bool (_deleted doc))
  || negb (Js.truthy_string (path doc))
  || negb (Js.truthy_string (type doc))
  || match type doc with
     | Some t => negb (String.eqb t "newnote") && negb (String.eqb t "plain")
     | None => true
     end.

(** The [try] block of the loop for one document: the note to save, or
    [None] when the assembler returned [null]. *)
Definition assembleNote (doc : LiveSyncDocument) : M (option Note) :=
  assembled <- call (AssembleDocument doc) ;;
  match assembled with
  | None => ret None
  | Some text =>
      mtime' <- match mtime doc with
                | Some m => if m =? 0 then now else ret m
                | None => now
                end ;;
      ctime' <- match ctime doc with
                | Some m => if m =? 0 then now else ret m
                | None => now
                end ;;
      ret (Some (mkNote (_id doc)
                        (match path doc with Some p => p | None => "" end)
                        text mtime' ctime'
                        (match size doc with Some n => n | None => 0 end)))
  end.

(** The loop of [processDocuments], with its counters and [notesToSave]. *)
Fixpoint processLoop (documents : list LiveSyncDocument)
    (counts : ProcessResult) (notesToSave : list Note)
    : M (ProcessResult * list Note) :=
  match documents with
  | [] => ret (counts, notesToSave)
  | doc :: rest =>
      if skipped doc then
        processLoop rest
          (mkProcessResult (processedCount counts) (skippedCount counts + 1)
                           (errorCount counts))
          notesToSave
      else
        outcome <- try_catch (assembleNote doc) (fun _ => ret None) ;;
        match outcome with
        | Some note =>
            processLoop rest
              (mkProcessResult (processedCount counts + 1)
                               (skippedCount counts) (errorCount counts))
              (notesToSave ++ [note])
        | None =>
            processLoop rest
              (mkProcessResult (processedCount counts) (skippedCount counts)
                               (errorCount counts + 1))
              notesToSave
        end
  end.

Definition processDocuments (documents : list LiveSyncDocument)
    : M ProcessResult :=
  loop <- processLoop documents (mkProcessResult 0 0 0) [] ;;
  let (counts, notesToSave) := loop in
  match notesToSave with
  | [] => ret counts
  | _ :: _ => call (RepoSaveMany notesToSave) ;;; ret counts
  end.

(** The [catch] block shared by both passes. *)
Definition failed (message : string) : M unit :=
  modify (set_lastSyncSuccess false) ;;;
  modify (set_error message) ;;;
  throw message.

(** The status update and the cursor write that end a pass. *)
Definition succeeded (processed : Z) : M unit :=
  t <- now ;;
  modify (set_lastSyncTime t) ;;;
  modify (set_lastSyncSuccess true) ;;;
  modify (set_documentsCount processed) ;;;
  modify delete_error.

Definition persistCursor : M unit :=
  st <- read ;;
  t <- now ;;
  call (StateUpdateState (mkState (lastSeq st) (Some t))).

(** The [try] block of [fullSync]. *)
Definition fullSyncTry : M unit :=
  documents <- call ClientGetAllDocuments ;;
  result <- await (processDocuments documents) ;;
  dbInfo <- call ClientGetDatabaseInfo ;;
  modify (set_lastSeq (update_seq dbInfo)) ;;;
  notesCount <- call RepoCount ;;
  succeeded (processedCount result) ;;;
  persistCursor.

Definition fullSync : M unit :=
  st <- read ;;
  if isRunning st then ret tt
  else
    modify (set_isRunning true) ;;;
    try_finally (try_catch fullSyncTry failed) (modify (set_isRunning false)).

(** The loop of [incrementalSync] over [changes.results]. *)
Fixpoint classify (changes : list Change)
    (changedDocs : list LiveSyncDocument) (deletedIds : list string)
    : list LiveSyncDocument * list string :=
  match changes with
  | [] => (changedDocs, deletedIds)
  | change :: rest =>
      if Js.includes (change_id change) ":" then
        classify rest changedDocs deletedIds
      else if Js.truthy_bool (change_deleted change)
              || match change_doc change with
                 | Some doc =>
                     Js.truthy_bool (deleted doc) || Js.truthy_bool (_deleted doc)
                 | None => false
                 end
      then classify rest changedDocs (deletedIds ++ [change_id change])
      else
        match change_doc change with
        | Some doc => classify rest (changedDocs ++ [doc]) deletedIds
        | None => classify rest changedDocs deletedIds
        end
  end.

(** The [try] block of [incrementalSync]. *)
Definition incrementalSyncTry : M unit :=
  st <- read ;;
  changes <- call (ClientGetChanges (lastSeq st)) ;;
  match results changes with
  | None | Some [] => succeeded 0
  | Some (first :: more) =>
      let (changedDocs, deletedIds) := classify (first :: more) [] [] in
      processedChanged <-
        match changedDocs with
        | [] => ret 0
        | _ :: _ =>
            result <- await (processDocuments changedDocs) ;;
            ret (processedCount result)
        end ;;
      match deletedIds with
      | [] => ret tt
      | _ :: _ => call (RepoDeleteMany deletedIds)
      end ;;;
      modify (set_lastSeq (last_seq changes)) ;;;
      succeeded processedChanged ;;;
      persistCursor ;;;
      notesCount <- call RepoCount ;;
      ret tt
  end.

Definition incrementalSync : M unit :=
  st <- read ;;
  if isRunning st then ret tt
  else
    modify (set_isRunning true) ;;;
    try_finally (try_catch incrementalSyncTry failed)
                (modify (set_isRunning false)).

Definition sync : M unit :=
  st <- read ;;
  if isRunning st then ret tt
  else
    match lastSeq st with
    | Some (String c rest) => await incrementalSync
    | _ => await fullSync
    end.

(** [getStatus] returns a copy of [status]. *)
Definition getStatus : M SyncStatus := read.

End SyncService.

(* ================================================================== *)
(** * Notions used to state the properties *)

(** Two trees are indistinguishable: against every environment they give
    the same result, final fields, world and trace. *)
Definition equiv {S C R} (p q : Async S C R) : Prop :=
  forall E (env : Env C E) (s : S) (e : E), run env p s e = run env q s e.

Infix "=~=" := equiv (at level 70).

(** Every collaborator call of the tree satisfies [P]. *)
Fixpoint calls_only {S C R} (P : forall A, C A -> Prop) (p : Async S C R) : Prop :=
  match p with
  | Ret _ => True
  | GetThis k => forall s, calls_only P (k s)
  | SetThis _ k => calls_only P k
  | Now k => forall t, calls_only P (k t)
  | Tick k => calls_only P k
  | Await c k => P _ c /\ forall r, calls_only P (k r)
  end.

(** Started where [I] holds, the tree only ever assigns fields that keep
    [I]. *)
Fixpoint keeps {S C R} (I : S -> Prop) (p : Async S C R) : Prop :=
  match p with
  | Ret _ => True
  | GetThis k => forall s, I s -> keeps I (k s)
  | SetThis s k => I s /\ keeps I k
  | Now k => forall t, keeps I (k t)
  | Tick k => keeps I k
  | Await c k => forall r, keeps I (k r)
  end.

(** The calls of a trace, without the fields and the ticks. *)
Definition is_call {S C} (P : forall A, C A -> Res A -> Prop) (ev : Event S C) : Prop :=
  match ev_susp ev with
  | Called c r => P _ c r
  | Ticked => True
  end.

(** Decoding the payloads one after the other, in the order of the list. *)
Fixpoint decodeAll `{Runtime} (crypto : option string) (payloads : list string)
    : ChunkAssembler.M (list string) :=
  match payloads with
  | [] => ret []
  | payload :: rest =>
      text <- ChunkAssembler.decode crypto payload ;;
      texts <- decodeAll crypto rest ;;
      ret (text :: texts)
  end.

(** The payloads of the chunks that [ids] name in [chunkDocs], in the order
    of [ids]. *)
Definition payloadsOf (chunkDocs : Js.Map LiveSyncDocument) (ids : list string)
    : list string :=
  map (fun chunkId =>
         match Js.get chunkId chunkDocs with
         | Some chunk => match data chunk with Some d => d | None => "" end
         | None => ""
         end) ids.

(** The epoch and the payload of an eden entry. *)
Definition epochOf (entry : string * EdenChunk) : Z := epoch (snd entry).
Definition edenPayloads (entries : Js.Map EdenChunk) : list string :=
  map (fun entry => eden_data (snd entry)) entries.

(** The fetches of the sync-parameters document in a trace. *)
Definition isSaltQuery (ev : Event LiveSyncCrypto.This StorageCall) : bool :=
  match ev_susp ev with
  | Called c _ =>
      match c with
      | GetDocument docId => String.eqb docId LiveSyncCrypto.SYNC_PARAMS_DOCID
      | _ => false
      end
  | Ticked => false
  end.

Definition saltQueries (t : list (Event LiveSyncCrypto.This StorageCall)) : nat :=
  List.length (filter isSaltQuery t).

(** What a fetch of the sync-parameters document yields as a salt. *)
Definition saltOf `{Runtime} (fetched : Res (option LiveSyncDocument)) : option Salt :=
  match fetched with
  | Ok (Some params) =>
      match pbkdf2salt params with
      | Some (String c rest) => Some (base64_bytes (String c rest))
      | _ => None
      end
  | _ => None
  end.

(** ** Calls and events of the sync service *)

(** A write to the note repository. *)
Definition repoWriteCall {A} (c : SyncCall A) : bool :=
  match c with
  | RepoSave _ | RepoSaveMany _ | RepoDelete _ | RepoDeleteMany _ => true
  | _ => false
  end.

(** A delete on the note repository. *)
Definition repoDeleteCall {A} (c : SyncCall A) : bool :=
  match c with
  | RepoDelete _ | RepoDeleteMany _ => true
  | _ => false
  end.

(** A write of the cursor to the state storage. *)
Definition cursorWriteCall {A} (c : SyncCall A) : bool :=
  match c with
  | StateUpdateState _ => true
  | _ => false
  end.

(** A call on the document store. *)
Definition storeCall {A} (c : SyncCall A) : bool :=
  match c with
  | ClientGetAllDocuments | ClientGetDatabaseInfo | ClientGetChanges _ => true
  | _ => false
  end.

Definition SyncEvent : Type := Event SyncStatus SyncCall.

(** The guard of [sync] is set. *)
Definition running (st : SyncStatus) : Prop := isRunning st = true.

Definition onCall (f : forall A, SyncCall A -> bool) (ev : SyncEvent) : bool :=
  match ev_susp ev with
  | Called c _ => f _ c
  | Ticked => false
  end.

Definition isRepoWrite : SyncEvent -> bool := onCall (@repoWriteCall).
Definition isRepoDelete : SyncEvent -> bool := onCall (@repoDeleteCall).
Definition isCursorWrite : SyncEvent -> bool := onCall (@cursorWriteCall).
Definition isStoreCall : SyncEvent -> bool := onCall (@storeCall).

(** [getAllDocuments], the fetch of a full sync; [getChanges], the fetch of
    an incremental one. *)
Definition isFullFetch (ev : SyncEvent) : bool :=
  match ev_susp ev with
  | Called c _ => match c with ClientGetAllDocuments => true | _ => false end
  | Ticked => false
  end.

Definition isChangesFetch (ev : SyncEvent) : bool :=
  match ev_susp ev with
  | Called c _ => match c with ClientGetChanges _ => true | _ => false end
  | Ticked => false
  end.

(** A call on the note repository. *)
Definition isRepoCall (ev : SyncEvent) : bool :=
  match ev_susp ev with
  | Called c _ =>
      match c with
      | RepoSave _ | RepoSaveMany _ | RepoDelete _ | RepoDeleteMany _
      | RepoGet _ | RepoGetAll | RepoSearch _ | RepoCount => true
      | _ => false
      end
  | Ticked => false
  end.

(** The awaited promise was fulfilled. *)
Definition fulfilled (ev : SyncEvent) : bool :=
  match ev_susp ev with
  | Called _ (Ok _) => true
  | Called _ (Throw _) => false
  | Ticked => true
  end.

(** The ids of the notes that the calls of a trace upsert. *)
Definition upsertedBy (ev : SyncEvent) : list string :=
  match ev_susp ev with
  | Called c _ =>
      match c with
      | RepoSave note => [id note]
      | RepoSaveMany notes => map id notes
      | _ => []
      end
  | Ticked => []
  end.

Definition upserted (t : list SyncEvent) : list string := flat_map upsertedBy t.

(** The cursor is written after the writes of the notes: whenever a trace
    writes the cursor, every repository write before it was fulfilled and
    no repository write comes after it. *)
Definition cursorAfterWrites (t : list SyncEvent) : Prop :=
  forall before ev afterwards,
    t = (before ++ ev :: afterwards)%list ->
    isCursorWrite ev = true ->
    Forall (fun w => isRepoWrite w = true -> fulfilled w = true) before
    /\ Forall (fun w => isRepoWrite w = false) afterwards.

(** A trace in two phases: first the writes of the notes, without a write
    of the cursor; then, all of those fulfilled if the cursor is written at
    all, the rest, without a write of a note. *)
Definition twoPhases (t : list SyncEvent) : Prop :=
  exists t1 t2,
    t = (t1 ++ t2)%list
    /\ Forall (fun ev => isCursorWrite ev = false) t1
    /\ Forall (fun ev => isRepoWrite ev = false) t2
    /\ (Exists (fun ev => isCursorWrite ev = true) t2 ->
        Forall (fun w => isRepoWrite w = true -> fulfilled w = true) t1).

(** A run of the first phase: no write of the cursor, and every write of a
    note fulfilled if the run ends well. *)
Definition writesPhase {E A} (o : Outcome SyncStatus SyncCall E (Res A)) : Prop :=
  Forall (fun ev => isCursorWrite ev = false) (trace o)
  /\ ((exists a, result o = Ok a) ->
      Forall (fun w => isRepoWrite w = true -> fulfilled w = true) (trace o)).

(** What the repository calls of a trace do to a [MemoryNoteRepository]. *)
Definition replayEvent (notes : MemoryNoteRepository.This) (ev : SyncEvent)
    : MemoryNoteRepository.This :=
  match ev_susp ev with
  | Called c _ =>
      match c with
      | RepoSave note => MemoryNoteRepository.save note notes
      | RepoSaveMany many => MemoryNoteRepository.saveMany many notes
      | RepoDelete noteId => MemoryNoteRepository.delete noteId notes
      | RepoDeleteMany ids => MemoryNoteRepository.deleteMany ids notes
      | _ => notes
      end
  | Ticked => notes
  end.

Definition replay (t : list SyncEvent) (notes : MemoryNoteRepository.This)
    : MemoryNoteRepository.This :=
  fold_left replayEvent t notes.

(** The collaborators [base], with a [MemoryNoteRepository] as the note
    repository. *)
Definition withMemoryRepository {E} (base : Env SyncCall E)
    : Env SyncCall (E * MemoryNoteRepository.This) :=
  mkEnv
    (fun A (c : SyncCall A) (w : E * MemoryNoteRepository.This) =>
       let forward (c' : SyncCall A) :=
         let (r, e') := handle base c' (fst w) in (r, (e', snd w)) in
       match c in SyncCall T
             return (SyncCall T -> Res T * (E * MemoryNoteRepository.This))
                    -> Res T * (E * MemoryNoteRepository.This) with
       | RepoSave note => fun _ =>
           (Ok tt, (fst w, MemoryNoteRepository.save note (snd w)))
       | RepoSaveMany notes => fun _ =>
           (Ok tt, (fst w, MemoryNoteRepository.saveMany notes (snd w)))
       | RepoDelete noteId => fun _ =>
           (Ok tt, (fst w, MemoryNoteRepository.delete noteId (snd w)))
       | RepoDeleteMany ids => fun _ =>
           (Ok tt, (fst w, MemoryNoteRepository.deleteMany ids (snd w)))
       | RepoGet noteId => fun _ =>
           (Ok (MemoryNoteRepository.get noteId (snd w)), w)
       | RepoGetAll => fun _ => (Ok (MemoryNoteRepository.getAll (snd w)), w)
       | RepoSearch query => fun _ =>
           (Ok (MemoryNoteRepository.search query (snd w)), w)
       | RepoCount => fun _ => (Ok (MemoryNoteRepository.count (snd w)), w)
       | c' => fun fwd => fwd c'
       end forward)
    (fun w => clock base (fst w)).

(* ================================================================== *)
(** * A runtime to evaluate the model on *)

Module Example.

Local Open Scope nat_scope.

(** The value of a base64 digit, standard or URL-safe. *)
Definition sextet (c : ascii) : option nat :=
  let n := nat_of_ascii c in
  if (65 <=? n) && (n <=? 90) then Some (n - 65)
  else if (97 <=? n) && (n <=? 122) then Some (n - 71)
  else if (48 <=? n) && (n <=? 57) then Some (n + 4)
  else if (n =? 43) || (n =? 45) then Some 62
  else if (n =? 47) || (n =? 95) then Some 63
  else None.

(** The digits up to the padding; other characters are ignored. *)
Fixpoint sextets (s : string) : list nat :=
  match s with
  | EmptyString => []
  | String c s' =>
      if Ascii.eqb c "="%char then []
      else match sextet c with
           | Some v => v :: sextets s'
           | None => sextets s'
           end
  end.

Fixpoint octets (l : list nat) : list nat :=
  match l with
  | a :: b :: c :: d :: rest =>
      (a * 4 + b / 16) :: ((b mod 16) * 16 + c / 4) :: ((c mod 4) * 64 + d)
      :: octets rest
  | [a; b; c] => [a * 4 + b / 16; (b mod 16) * 16 + c / 4]
  | [a; b] => [a * 4 + b / 16]
  | _ => []
  end.

Definition decode_base64 (s : string) : list ascii :=
  map ascii_of_nat (octets (sextets s)).

(** Base64 decoding, read as text for ASCII content, and a stand-in for the
    HKDF decryption: under the passphrase ["correct horse"] a marked payload
    decrypts to what follows its marker, under any other it is rejected. *)
#[export] Instance runtime : Runtime :=
  mkRuntime
    (fun s => string_of_list_ascii (decode_base64 s))
    (fun s => map byte_of_ascii (decode_base64 s))
    (fun payload passphrase _ =>
       if String.eqb passphrase "correct horse"
       then Ok (String.substring 2 (String.length payload - 2) payload)
       else Throw "OperationError").

(** A document with the given id and no other field. *)
Definition doc (docId : string) : LiveSyncDocument :=
  mkDoc docId None None None None None None None None None None None None.

Definition with_data (payload : string) (d : LiveSyncDocument) : LiveSyncDocument :=
  mkDoc (_id d) (_rev d) (type d) (path d) (Some payload) (children d) (eden d)
        (mtime d) (ctime d) (size d) (deleted d) (_deleted d) (pbkdf2salt d).

Definition with_children (ids : list string) (d : LiveSyncDocument) : LiveSyncDocument :=
  mkDoc (_id d) (_rev d) (type d) (path d) (data d) (Some ids) (eden d)
        (mtime d) (ctime d) (size d) (deleted d) (_deleted d) (pbkdf2salt d).

Definition with_eden (entries : Js.Map EdenChunk) (d : LiveSyncDocument) : LiveSyncDocument :=
  mkDoc (_id d) (_rev d) (type d) (path d) (data d) (children d) (Some entries)
        (mtime d) (ctime d) (size d) (deleted d) (_deleted d) (pbkdf2salt d).

Definition with_salt (salt : string) (d : LiveSyncDocument) : LiveSyncDocument :=
  mkDoc (_id d) (_rev d) (type d) (path d) (data d) (children d) (eden d)
        (mtime d) (ctime d) (size d) (deleted d) (_deleted d) (Some salt).

Definition with_note (kind notePath : string) (d : LiveSyncDocument) : LiveSyncDocument :=
  mkDoc (_id d) (_rev d) (Some kind) (Some notePath) (data d) (children d) (eden d)
        (mtime d) (ctime d) (size d) (deleted d) (_deleted d) (pbkdf2salt d).

(** A document store holding [docs]: lookups by id, bulk fetches in the
    order of the store. *)
Definition store (docs : list LiveSyncDocument) : Env StorageCall unit :=
  mkEnv
    (fun A (c : StorageCall A) (e : unit) =>
       match c in StorageCall T return Res T * unit with
       | GetDocument docId =>
           (Ok (find (fun d => String.eqb (_id d) docId) docs), tt)
       | GetDocuments ids =>
           (Ok (map (fun d => (_id d, d))
                    (filter (fun d => existsb (String.eqb (_id d)) ids) docs)), tt)
       | GetAllDocuments => (Ok docs, tt)
       end)
    (fun _ => 0%Z).

(** A remote database holding [docs] at sequence [seq], with [feed] as its
    changes feed, an assembler that returns the [data] field as it is, and
    a state storage; the world is the stored [SyncState].  The note
    repository is left to [withMemoryRepository]. *)
Definition remote (docs : list LiveSyncDocument) (seq : string)
    (feed : ChangesResponse) : Env SyncCall SyncState :=
  mkEnv
    (fun A (c : SyncCall A) (stored : SyncState) =>
       match c in SyncCall T return Res T * SyncState with
       | ClientGetAllDocuments => (Ok docs, stored)
       | ClientGetDatabaseInfo => (Ok (mkDbInfo seq), stored)
       | ClientGetChanges _ => (Ok feed, stored)
       | AssembleDocument d => (Ok (data d), stored)
       | StateGetState => (Ok stored, stored)
       | StateUpdateState partial =>
           (Ok tt,
            mkState
              (match state_lastSeq partial with
               | Some s => Some s
               | None => state_lastSeq stored
               end)
              (match state_lastSyncTime partial with
               | Some t => Some t
               | None => state_lastSyncTime stored
               end))
       | RepoSave _ => (Ok tt, stored)
       | RepoSaveMany _ => (Ok tt, stored)
       | RepoDelete _ => (Ok tt, stored)
       | RepoDeleteMany _ => (Ok tt, stored)
       | RepoGet _ => (Ok None, stored)
       | RepoGetAll => (Ok [], stored)
       | RepoSearch _ => (Ok [], stored)
       | RepoCount => (Ok 0%Z, stored)
       end)
    (fun _ => 1700000000000%Z).

(** A database that cannot be reached. *)
Definition unreachable : Env SyncCall unit :=
  mkEnv
    (fun A (c : SyncCall A) (w : unit) => (Throw "Database connection failed", w))
    (fun _ => 0%Z).

End Example.

(* ================================================================== *)
(** * Further notions *)

(** A [Map<string, Note>] as [MemoryNoteRepository] keeps it: keys are
    unique, and every note is stored under its own id. *)
Definition wellKeyed (notes : MemoryNoteRepository.This) : Prop :=
  NoDup (Js.keys notes) /\ Forall (fun entry => fst entry = id (snd entry)) notes.

(** The calls on a [MemoryNoteRepository] that change it. *)
Inductive RepositoryOp : Type :=
| OpSave (note : Note)
| OpSaveMany (many : list Note)
| OpDelete (noteId : string)
| OpDeleteMany (ids : list string).

Definition applyOp (notes : MemoryNoteRepository.This) (op : RepositoryOp)
    : MemoryNoteRepository.This :=
  match op with
  | OpSave note => MemoryNoteRepository.save note notes
  | OpSaveMany many => MemoryNoteRepository.saveMany many notes
  | OpDelete noteId => MemoryNoteRepository.delete noteId notes
  | OpDeleteMany ids => MemoryNoteRepository.deleteMany ids notes
  end.




(** The document is one that [processDocuments] lets through to the
    assembler: not a chunk, not an internal document, not tombstoned, with
    a path, and of type [newnote] or [plain]. *)
Definition surfaced (doc : LiveSyncDocument) : Prop :=
  Js.startsWith (_id doc) "h:" = false
  /\ Js.includes (_id doc) ":" = false
  /\ Js.truthy_bool (deleted doc) = false
  /\ Js.truthy_bool (_deleted doc) = false
  /\ (exists p, path doc = Some p /\ p <> "")
  /\ (type doc = Some "newnote" \/ type doc = Some "plain").

(** The notes that the calls of a trace hand to [saveMany]. *)
Definition savedBy (ev : SyncEvent) : list Note :=
  match ev_susp ev with
  | Called c _ =>
      match c with
      | RepoSaveMany notes => notes
      | _ => []
      end
  | Ticked => []
  end.

Definition saved (t : list SyncEvent) : list Note := flat_map savedBy t.

(** The event is a call on the assembler. *)
Definition isAssemble (ev : SyncEvent) : bool :=
  match ev_susp ev with
  | Called c _ => match c with AssembleDocument _ => true | _ => false end
  | Ticked => false
  end.

(** A change that [incrementalSync] passes over, and one that it takes for
    a deletion. *)
Definition isInternalChange (change : Change) : bool :=
  Js.includes (change_id change) ":".

Definition isDeletion (change : Change) : bool :=
  Js.truthy_bool (change_deleted change)
  || match change_doc change with
     | Some doc => Js.truthy_bool (deleted doc) || Js.truthy_bool (_deleted doc)
     | None => false
     end.

(** The statements of the [try] block of [fullSync] that follow
    [processDocuments], and those of [incrementalSync] that follow
    [deleteMany]. *)
Definition fullSyncTail (result : SyncService.ProcessResult) : SyncService.M unit :=
  dbInfo <- call ClientGetDatabaseInfo ;;
  modify (SyncService.set_lastSeq (update_seq dbInfo)) ;;;
  notesCount <- call RepoCount ;;
  SyncService.succeeded (SyncService.processedCount result) ;;;
  SyncService.persistCursor.

Definition incrementalSyncTail (changes : ChangesResponse) (processedChanged : Z)
    : SyncService.M unit :=
  modify (SyncService.set_lastSeq (last_seq changes)) ;;;
  SyncService.succeeded processedChanged ;;;
  SyncService.persistCursor ;;;
  notesCount <- call RepoCount ;;
  ret tt.

(** The status after the assignments that end a pass well, made at [t]. *)
Definition markSucceeded (t : Z) (processed : Z) (st : SyncStatus) : SyncStatus :=
  SyncService.delete_error
    (SyncService.set_documentsCount processed
       (SyncService.set_lastSyncSuccess true (SyncService.set_lastSyncTime t st))).

(** The cursors that the calls of a trace write to the state storage, and
    the sequences that its fulfilled calls of [getDatabaseInfo] read. *)
Definition cursorWrittenBy (ev : SyncEvent) : list SyncState :=
  match ev_susp ev with
  | Called c _ =>
      match c with
      | StateUpdateState partial => [partial]
      | _ => []
      end
  | Ticked => []
  end.

Definition cursorsWritten (t : list SyncEvent) : list SyncState :=
  flat_map cursorWrittenBy t.

Definition sequenceReadBy (ev : SyncEvent) : list string :=
  match ev_susp ev with
  | Called c r =>
      match c in SyncCall T return Res T -> list string with
      | ClientGetDatabaseInfo =>
          fun r => match r with Ok dbInfo => [update_seq dbInfo] | Throw _ => [] end
      | _ => fun _ => []
      end r
  | Ticked => []
  end.

Definition sequencesRead (t : list SyncEvent) : list string :=
  flat_map sequenceReadBy t.

(** The cursor was written and the write fulfilled. *)
Definition cursorPersisted (ev : SyncEvent) : bool :=
  isCursorWrite ev && fulfilled ev.

(** The two blocks of the [try] block of [incrementalSync] that write to
    the repository: "process changed documents" and "remove deleted
    notes". *)
Definition incrementalProcess (changedDocs : list LiveSyncDocument)
    : SyncService.M Z :=
  match changedDocs with
  | [] => ret 0
  | _ :: _ =>
      result <- await (SyncService.processDocuments changedDocs) ;;
      ret (SyncService.processedCount result)
  end.

Definition incrementalDelete (deletedIds : list string) : SyncService.M unit :=
  match deletedIds with
  | [] => ret tt
  | _ :: _ => call (RepoDeleteMany deletedIds)
  end.

(** A repository write that was rejected. *)
Definition writeRejected (ev : SyncEvent) : bool :=
  isRepoWrite ev && negb (fulfilled ev).

(** ** The children strategy, chunk by chunk *)

(** What the loop of [assembleFromChildren] throws at a child, if it does. *)
Definition chunkFault (chunkDocs : Js.Map LiveSyncDocument) (chunkId : string)
    : option string :=
  match Js.get chunkId chunkDocs with
  | None => Some ("Chunk not found: " ++ chunkId)
  | Some chunk =>
      if Js.truthy_string (data chunk) then None
      else Some ("Chunk has no data: " ++ chunkId)
  end.

(** The children before the first one at fault, and the error of that one. *)
Fixpoint soundPrefix (chunkDocs : Js.Map LiveSyncDocument) (ids : list string)
    : list string * option string :=
  match ids with
  | [] => ([], None)
  | chunkId :: rest =>
      match chunkFault chunkDocs chunkId with
      | Some message => ([], Some message)
      | None =>
          let (sound, fault) := soundPrefix chunkDocs rest in
          (chunkId :: sound, fault)
      end
  end.

(** The suspensions of a trace that are collaborator calls. *)
Definition isCalled {S C} (ev : Event S C) : bool :=
  match ev_susp ev with
  | Called _ _ => true
  | Ticked => false
  end.

Definition callsIn {S C} (t : list (Event S C)) : nat :=
  List.length (filter isCalled t).

(* ================================================================== *)
(** * [CouchDBClient] ([src/core/couchdb-client.ts]) *)

(** An error as the [catch] blocks look at it: [error.code],
    [error.statusCode], [error.message]. *)
Record JsError : Type := mkJsError {
  err_code : option string;
  err_statusCode : option Z;
  err_message : string
}.

(** How a promise settles, for the calls whose error is inspected. *)
Inductive Settled (A : Type) : Type :=
| Fulfilled (a : A)
| Rejected (error : JsError).
Arguments Fulfilled {A} a.
Arguments Rejected {A} error.

(** A row of [db.list] or [db.fetch] with [include_docs]: its [id] and its
    [doc]; a key that [db.fetch] does not find gives a row without [doc]. *)
Record Row : Type := mkRow {
  row_id : string;
  row_doc : option LiveSyncDocument
}.

(** The calls on nano: [nano.db.list()], [db.list], [db.get], [db.changes],
    [db.fetch] and [db.info]. *)
Inductive NanoCall : Type -> Type :=
| ServerList : NanoCall (list string)
| DbList : NanoCall (list Row)
| DbGet (docId : string) : NanoCall (Settled LiveSyncDocument)
| DbChanges (since : string) : NanoCall ChangesResponse
| DbFetch (keys : list string) : NanoCall (list Row)
| DbInfo : NanoCall DatabaseInfo.

Module CouchDBClient.

(** The client has no field that changes after construction. *)
Definition M (R : Type) : Type := Task unit NanoCall R.

Definition testConnection : M bool :=
  try_catch (call ServerList ;;; ret true) (fun _ => ret false).

(** [row.doc && !row.id.startsWith('_design')] *)
Definition listed (row : Row) : bool :=
  match row_doc row with
  | Some _ => negb (Js.startsWith (row_id row) "_design")
  | None => false
  end.

Definition getAllDocuments : M (list LiveSyncDocument) :=
  try_catch
    (rows <- call DbList ;;
     ret (flat_map (fun row => match row_doc row with
                               | Some doc => [doc]
                               | None => []
                               end)
                   (filter listed rows)))
    (fun message => throw message).

Definition getDocument (docId : string) : M (option LiveSyncDocument) :=
  settled <- call (DbGet docId) ;;
  match settled with
  | Fulfilled doc => ret (Some doc)
  | Rejected error =>
      match err_statusCode error with
      | Some statusCode =>
          if statusCode =? 404 then ret None else throw (err_message error)
      | None => throw (err_message error)
      end
  end.

(** [since] defaults to ['now']. *)
Definition getChanges (since : option string) : M ChangesResponse :=
  try_catch
    (call (DbChanges (match since with Some seq => seq | None => "now" end)))
    (fun message => throw message).

(** The loop of [getDocuments] over [result.rows], with the map [docs]
    built so far. *)
Definition collect (rows : list Row) (docs : Js.Map LiveSyncDocument)
    : Js.Map LiveSyncDocument :=
  fold_left (fun docs row =>
               match row_doc row with
               | Some doc => Js.set (row_id row) doc docs
               | None => docs
               end) rows docs.

Definition getDocuments (ids : list string) : M (Js.Map LiveSyncDocument) :=
  match ids with
  | [] => ret []
  | _ :: _ =>
      try_catch
        (rows <- call (DbFetch ids) ;;
         ret (collect rows []))
        (fun message => throw message)
  end.

Definition getDatabaseInfo : M DatabaseInfo :=
  try_catch (call DbInfo) (fun message => throw message).

End CouchDBClient.

(** The [IDocumentStorage] that a [CouchDBClient] over [nano] is. *)
Definition viaCouchDB {E} (nano : Env NanoCall E) : Env StorageCall E :=
  mkEnv
    (fun A (c : StorageCall A) (e : E) =>
       let o := run nano
                    match c in StorageCall T return CouchDBClient.M T with
                    | GetDocument docId => CouchDBClient.getDocument docId
                    | GetDocuments ids => CouchDBClient.getDocuments ids
                    | GetAllDocuments => CouchDBClient.getAllDocuments
                    end tt e in
       (result o, world o))
    (clock nano).

(** The last row of [rows] that carries a document under [docId]. *)
Definition lastRow (docId : string) (rows : list Row) : option LiveSyncDocument :=
  match find (fun row => String.eqb (row_id row) docId
                         && match row_doc row with Some _ => true | None => false end)
             (rev rows) with
  | Some row => row_doc row
  | None => None
  end.

(* ================================================================== *)
(** * [JsonFileStorage] ([src/storage/json-file-storage.ts]) *)

(** [path.join], [JSON.parse] read as a [SyncState], and
    [JSON.stringify(state, null, 2)]. *)
Class Node : Type := mkNode {
  path_join : string -> string -> string;
  JSON_parse : string -> Res SyncState;
  JSON_stringify : SyncState -> string
}.

(** The calls on [fs.promises]: [mkdir] with [recursive], [readFile] and
    [writeFile] with ['utf-8'], [unlink]. *)
Inductive FsCall : Type -> Type :=
| Mkdir (dir : string) : FsCall unit
| ReadFile (file : string) : FsCall (Settled string)
| WriteFile (file content : string) : FsCall unit
| Unlink (file : string) : FsCall (Settled unit).

(** [Partial<SyncState>]: a key is absent, or present with its value, which
    may be [undefined]. *)
Record PartialState : Type := mkPartial {
  partial_lastSeq : option (option string);
  partial_lastSyncTime : option (option Z)
}.

(** [{ ...currentState, ...partial }] *)
Definition spread (currentState : SyncState) (partial : PartialState) : SyncState :=
  mkState
    (match partial_lastSeq partial with
     | Some value => value
     | None => state_lastSeq currentState
     end)
    (match partial_lastSyncTime partial with
     | Some value => value
     | None => state_lastSyncTime currentState
     end).

Module JsonFileStorage.
Section WithNode.
Context `{Node}.

(** [baseDir] is fixed at construction; there is no other field. *)
Definition M (R : Type) : Type := Task unit FsCall R.

Definition fileName : string := ".obs-ls-headless-state.json".

Definition getFilePath (baseDir : string) : string := path_join baseDir fileName.

Definition initialize (baseDir : string) : M unit :=
  try_catch (call (Mkdir baseDir)) (fun message => throw message).

Definition getState (baseDir : string) : M SyncState :=
  let filePath := getFilePath baseDir in
  settled <- call (ReadFile filePath) ;;
  match settled with
  | Fulfilled content =>
      match JSON_parse content with
      | Ok state => ret state
      | Throw message => throw message
      end
  | Rejected error =>
      match err_code error with
      | Some code =>
          if String.eqb code "ENOENT" then ret (mkState None None)
          else throw (err_message error)
      | None => throw (err_message error)
      end
  end.

Definition saveState (baseDir : string) (state : SyncState) : M unit :=
  let filePath := getFilePath baseDir in
  try_catch
    (call (Mkdir baseDir) ;;;
     let json := JSON_stringify state in
     call (WriteFile filePath json))
    (fun message => throw message).

Definition updateState (baseDir : string) (partial : PartialState) : M unit :=
  currentState <- await (getState baseDir) ;;
  let newState := spread currentState partial in
  await (saveState baseDir newState).

Definition resetState (baseDir : string) : M unit :=
  let filePath := getFilePath baseDir in
  settled <- call (Unlink filePath) ;;
  match settled with
  | Fulfilled _ => ret tt
  | Rejected error =>
      match err_code error with
      | Some code =>
          if String.eqb code "ENOENT" then ret tt
          else throw (err_message error)
      | None => throw (err_message error)
      end
  end.

End WithNode.
End JsonFileStorage.

(** The event is a call that changes the file system. *)
Definition isFileChange (ev : Event unit FsCall) : bool :=
  match ev_susp ev with
  | Called c _ =>
      match c with
      | Mkdir _ | WriteFile _ _ | Unlink _ => true
      | ReadFile _ => false
      end
  | Ticked => false
  end.

(** A file system in which a call fails only for a file that is missing;
    its world maps the paths of the files to their contents. *)
Definition missing (file : string) : JsError :=
  mkJsError (Some "ENOENT") None ("ENOENT: no such file or directory, " ++ file).

Definition disk : Env FsCall (Js.Map string) :=
  mkEnv
    (fun A (c : FsCall A) (files : Js.Map string) =>
       match c in FsCall T return Res T * Js.Map string with
       | Mkdir _ => (Ok tt, files)
       | ReadFile file =>
           match Js.get file files with
           | Some content => (Ok (Fulfilled content), files)
           | None => (Ok (Rejected (missing file)), files)
           end
       | WriteFile file content => (Ok tt, Js.set file content files)
       | Unlink file =>
           match Js.get file files with
           | Some _ => (Ok (Fulfilled tt), Js.delete file files)
           | None => (Ok (Rejected (missing file)), files)
           end
       end)
    (fun _ => 0).

(** ** More collaborators to evaluate the model on *)

Module Fixtures.
Import Example.

(** A note document, a chunk and a document without content. *)
Definition aNote : LiveSyncDocument :=
  with_note "plain" "a.md" (with_data "hello" (doc "a.md")).
Definition aChunk : LiveSyncDocument := with_data "aGVsbG8=" (doc "h:abc").
Definition bare : LiveSyncDocument := doc "b.md".

Definition stored (noteId text : string) : Note :=
  mkNote noteId noteId text 0 0 0.

(** The change that reports [docId] as deleted, and the one that carries
    [document]. *)
Definition removal (docId : string) : Change := mkChange docId (Some true) None.
Definition update (document : LiveSyncDocument) : Change :=
  mkChange (_id document) None (Some document).

(** [remote], with a note repository that rejects every write. *)
Definition readOnly (docs : list LiveSyncDocument) (seq : string)
    (feed : ChangesResponse) : Env SyncCall SyncState :=
  mkEnv
    (fun A (c : SyncCall A) (w : SyncState) =>
       match c in SyncCall T return Res T * SyncState -> Res T * SyncState with
       | RepoSave _ | RepoSaveMany _ | RepoDelete _ | RepoDeleteMany _ =>
           fun _ => (Throw "EROFS: read-only file system", w)
       | _ => fun answer => answer
       end (handle (remote docs seq feed) c w))
    (clock (remote docs seq feed)).

(** [remote], with a state storage that rejects every write. *)
Definition unwritable (docs : list LiveSyncDocument) (seq : string)
    (feed : ChangesResponse) : Env SyncCall SyncState :=
  mkEnv
    (fun A (c : SyncCall A) (w : SyncState) =>
       match c in SyncCall T return Res T * SyncState -> Res T * SyncState with
       | StateUpdateState _ => fun _ => (Throw "EACCES: permission denied", w)
       | _ => fun answer => answer
       end (handle (remote docs seq feed) c w))
    (clock (remote docs seq feed)).

(** A document store that cannot be reached. *)
Definition offline : Env StorageCall unit :=
  mkEnv
    (fun A (c : StorageCall A) (w : unit) => (Throw "connect ECONNREFUSED", w))
    (fun _ => 0).

(** A CouchDB database that holds [docs]: a key that is not found comes
    back as a row without document from [db.fetch], and as a 404 from
    [db.get]. *)
Definition couch (docs : list LiveSyncDocument) : Env NanoCall unit :=
  mkEnv
    (fun A (c : NanoCall A) (w : unit) =>
       let lookup key := find (fun d => String.eqb (_id d) key) docs in
       match c in NanoCall T return Res T * unit with
       | ServerList => (Ok ["vault"], tt)
       | DbList => (Ok (map (fun d => mkRow (_id d) (Some d)) docs), tt)
       | DbGet docId =>
           (Ok match lookup docId with
               | Some d => Fulfilled d
               | None => Rejected (mkJsError None (Some 404) "missing")
               end, tt)
       | DbChanges _ => (Ok (mkChanges (Some []) "0"), tt)
       | DbFetch keys => (Ok (map (fun key => mkRow key (lookup key)) keys), tt)
       | DbInfo => (Ok (mkDbInfo "0"), tt)
       end)
    (fun _ => 0).

(** [path.join] on two segments, and a JSON codec for the states that
    carry at most a [lastSeq] without escapes:
    [{}] and [{"lastSeq":"..."}]. *)
Definition quote : string := String "034"%char EmptyString.

Definition opening : string := "{" ++ quote ++ "lastSeq" ++ quote ++ ":" ++ quote.

Definition parse (content : string) : Res SyncState :=
  if String.eqb content "{}" then Ok (mkState None None)
  else if String.prefix opening content then
    let rest := String.substring (String.length opening)
                                 (String.length content - String.length opening)
                                 content in
    match String.index 0 quote rest with
    | Some n => Ok (mkState (Some (String.substring 0 n rest)) None)
    | None => Throw "Unterminated string in JSON"
    end
  else Throw "Unexpected token in JSON".

Definition stringify (state : SyncState) : string :=
  match state_lastSeq state with
  | Some seq => opening ++ seq ++ quote ++ "}"
  | None => "{}"
  end.

#[export] Instance node : Node :=
  mkNode (fun dir file => dir ++ "/" ++ file) parse stringify.

End Fixtures.

(* ================================================================== *)
(** * Properties of resumption trees *)

Section AsyncFacts.
Context {S : Type} {C : Type -> Type}.

Lemma after_after {E R} (t1 t2 : list (Event S C)) (o : Outcome S C E R) :
  after t1 (after t2 o) = after (t1 ++ t2) o.
Proof. unfold after; simpl. now rewrite app_assoc. Qed.

Lemma after_nil {E R} (o : Outcome S C E R) : after [] o = o.
Proof. now destruct o. Qed.

(** Running [bind m f] is running [m], then [f] on its result, from where
    [m] ended. *)
Lemma run_bind {E R R'} (env : Env C E) (m : Async S C R) (f : R -> Async S C R') :
  forall s e,
    run env (bind m f) s e =
    let o := run env m s e in
    after (trace o) (run env (f (result o)) (final o) (world o)).
Proof.
  induction m as [r | k IH | s' k IH | k IH | k IH | A c k IH]; intros s e; simpl.
  - now rewrite after_nil.
  - apply IH.
  - apply IH.
  - apply IH.
  - rewrite IH. simpl. now rewrite after_after.
  - destruct (handle env c e) as [r e']. rewrite IH. simpl.
    now rewrite after_after.
Qed.

Lemma equiv_refl {R} (p : Async S C R) : p =~= p.
Proof. now intros E env s e. Qed.

Lemma equiv_sym {R} (p q : Async S C R) : p =~= q -> q =~= p.
Proof. intros H E env s e. symmetry. apply H. Qed.

Lemma equiv_trans {R} (p q r : Async S C R) : p =~= q -> q =~= r -> p =~= r.
Proof. intros H1 H2 E env s e. now rewrite H1. Qed.

Lemma bind_equiv {R R'} (m m' : Async S C R) (f f' : R -> Async S C R') :
  m =~= m' -> (forall r, f r =~= f' r) -> bind m f =~= bind m' f'.
Proof.
  intros Hm Hf E env s e. rewrite !run_bind. simpl.
  rewrite Hm. now rewrite Hf.
Qed.

Lemma bind_ret_r {R} (m : Async S C R) (f : R -> Async S C R) :
  (forall r, f r =~= Ret r) -> bind m f =~= m.
Proof.
  intros Hf E env s e. rewrite run_bind. simpl. rewrite Hf. simpl.
  destruct (run env m s e) as [r s' e' t]. unfold after. simpl.
  now rewrite app_nil_r.
Qed.

Lemma bind_assoc {R R' R''} (m : Async S C R) (f : R -> Async S C R')
    (g : R' -> Async S C R'') :
  bind (bind m f) g =~= bind m (fun r => bind (f r) g).
Proof.
  intros E env s e. rewrite !run_bind. simpl. rewrite !run_bind. simpl.
  now rewrite after_after.
Qed.

Lemma tbind_equiv {R R'} (m m' : Task S C R) (f f' : R -> Task S C R') :
  m =~= m' -> (forall r, f r =~= f' r) -> tbind m f =~= tbind m' f'.
Proof.
  intros Hm Hf. apply bind_equiv; [exact Hm|].
  intros [a|msg]; [apply Hf | apply equiv_refl].
Qed.

Lemma tbind_assoc {R R' R''} (m : Task S C R) (f : R -> Task S C R')
    (g : R' -> Task S C R'') :
  tbind (tbind m f) g =~= tbind m (fun r => tbind (f r) g).
Proof.
  unfold tbind. eapply equiv_trans; [apply bind_assoc|].
  apply bind_equiv; [apply equiv_refl|].
  intros [a|msg]; apply equiv_refl.
Qed.

(** A [catch] block that rethrows what it caught changes nothing. *)
Lemma try_catch_rethrow {R} (m : Task S C R) :
  try_catch m (fun message => throw message) =~= m.
Proof.
  apply bind_ret_r. intros [a|msg]; apply equiv_refl.
Qed.

(** ** Calls of a tree, calls of its traces *)

Lemma calls_only_bind {R R'} (P : forall A, C A -> Prop)
    (m : Async S C R) (f : R -> Async S C R') :
  calls_only P m -> (forall r, calls_only P (f r)) -> calls_only P (bind m f).
Proof.
  intros Hm Hf.
  induction m as [r | k IH | s' k IH | k IH | k IH | A c k IH]; simpl in *.
  - apply Hf.
  - intros s. apply IH, Hm.
  - apply IH, Hm.
  - intros t. apply IH, Hm.
  - apply IH, Hm.
  - destruct Hm as [Hc Hk]. split; [exact Hc|]. intros r. apply IH, Hk.
Qed.

Lemma calls_only_weaken {R} (P Q : forall A, C A -> Prop) (p : Async S C R) :
  (forall A c, P A c -> Q A c) -> calls_only P p -> calls_only Q p.
Proof.
  intros HPQ.
  induction p as [r | k IH | s' k IH | k IH | k IH | A c k IH]; simpl.
  - trivial.
  - intros Hp s. apply IH, Hp.
  - apply IH.
  - intros Hp t. apply IH, Hp.
  - apply IH.
  - intros [Hc Hk]. split; [apply HPQ, Hc|]. intros r. apply IH, Hk.
Qed.

Lemma calls_only_run {E R} (P : forall A, C A -> Prop) (env : Env C E)
    (p : Async S C R) :
  calls_only P p ->
  forall s e, Forall (is_call (fun A c _ => P A c)) (trace (run env p s e)).
Proof.
  induction p as [r | k IH | s' k IH | k IH | k IH | A c k IH];
    simpl; intros Hp s e.
  - constructor.
  - apply IH, Hp.
  - apply IH, Hp.
  - apply IH, Hp.
  - constructor; [exact I | apply IH, Hp].
  - destruct Hp as [Hc Hk]. destruct (handle env c e) as [r e']. simpl.
    constructor; [exact Hc | apply IH, Hk].
Qed.

(** ** Fields kept by a tree, fields seen at its suspensions *)

Lemma keeps_bind {R R'} (I : S -> Prop) (m : Async S C R) (f : R -> Async S C R') :
  keeps I m -> (forall r, keeps I (f r)) -> keeps I (bind m f).
Proof.
  intros Hm Hf.
  induction m as [r | k IH | s' k IH | k IH | k IH | A c k IH]; simpl in *.
  - apply Hf.
  - intros s Hs. apply IH, Hm, Hs.
  - destruct Hm as [Hs Hk]. split; [exact Hs | apply IH, Hk].
  - intros t. apply IH, Hm.
  - apply IH, Hm.
  - intros r. apply IH, Hm.
Qed.

Lemma keeps_run {E R} (I : S -> Prop) (env : Env C E) (p : Async S C R) :
  keeps I p ->
  forall s e, I s ->
    I (final (run env p s e))
    /\ Forall (fun ev => I (ev_state ev)) (trace (run env p s e)).
Proof.
  induction p as [r | k IH | s' k IH | k IH | k IH | A c k IH];
    simpl; intros Hp s e Hs.
  - split; [exact Hs | constructor].
  - apply IH; [apply Hp, Hs | exact Hs].
  - destruct Hp as [Hs' Hk]. apply IH; assumption.
  - apply IH; [apply Hp | exact Hs].
  - destruct (IH Hp s e Hs) as [Hf Ht]. split; [exact Hf|].
    constructor; [exact Hs | exact Ht].
  - destruct (handle env c e) as [r e']. simpl.
    destruct (IH r (Hp r) s e' Hs) as [Hf Ht]. split; [exact Hf|].
    constructor; [exact Hs | exact Ht].
Qed.

End AsyncFacts.

(* ================================================================== *)
(** * Properties of [ChunkAssembler] *)

Section AssemblerFacts.
Context `{Runtime}.
Import ChunkAssembler.

Lemma truthy_string_nonempty (d : string) :
  d <> "" -> exists c rest, d = String c rest.
Proof. destruct d as [|c rest]; [congruence | eauto]. Qed.

Lemma falsy_string_cases (o : option string) :
  Js.truthy_string o = false -> o = None \/ o = Some "".
Proof. destruct o as [[|c d]|]; simpl; intros; auto; discriminate. Qed.

(** The four branches of [assembleDocument]. *)
Lemma assembleDocument_direct (crypto : option string) (doc : LiveSyncDocument)
    (d : string) :
  data doc = Some d -> d <> "" ->
  assembleDocument crypto doc =~= (text <- decode crypto d ;; ret (Some text)).
Proof.
  intros Hd Hne. destruct (truthy_string_nonempty d Hne) as (c & rest & ->).
  unfold assembleDocument. rewrite Hd. apply try_catch_rethrow.
Qed.

Lemma assembleDocument_eden (crypto : option string) (doc : LiveSyncDocument)
    (entries : Js.Map EdenChunk) :
  Js.truthy_string (data doc) = false ->
  eden doc = Some entries -> entries <> [] ->
  assembleDocument crypto doc
  =~= (text <- await (assembleFromEden crypto entries) ;; ret (Some text)).
Proof.
  intros Hdata He Hne. unfold assembleDocument.
  destruct (falsy_string_cases _ Hdata) as [-> | ->]; rewrite He;
    (destruct entries as [|entry entries]; [congruence|]);
    apply try_catch_rethrow.
Qed.

Lemma assembleDocument_children (crypto : option string) (doc : LiveSyncDocument)
    (ids : list string) :
  Js.truthy_string (data doc) = false ->
  eden doc = None \/ eden doc = Some [] ->
  children doc = Some ids -> ids <> [] ->
  assembleDocument crypto doc
  =~= (text <- await (assembleFromChildren crypto ids) ;; ret (Some text)).
Proof.
  intros Hdata Heden Hc Hne. unfold assembleDocument.
  destruct (falsy_string_cases _ Hdata) as [-> | ->];
    destruct Heden as [-> | ->]; rewrite Hc;
    (destruct ids as [|chunkId ids]; [congruence|]);
    apply try_catch_rethrow.
Qed.

Lemma assembleDocument_null (crypto : option string) (doc : LiveSyncDocument) :
  Js.truthy_string (data doc) = false ->
  eden doc = None \/ eden doc = Some [] ->
  children doc = None \/ children doc = Some [] ->
  assembleDocument crypto doc =~= ret None.
Proof.
  intros Hdata Heden Hchildren. unfold assembleDocument.
  destruct (falsy_string_cases _ Hdata) as [-> | ->];
    destruct Heden as [-> | ->]; destruct Hchildren as [-> | ->];
    apply try_catch_rethrow.
Qed.

(** C6. [assembleDocument] follows a strict priority chain: a non-empty
    [data] field alone decides the content; failing that a non-empty [eden]
    map alone; failing that a non-empty [children] list alone; failing all
    three the result is [null].  An empty-string [data] counts as absent. *)
Theorem strategy_priority_chain (crypto : option string) (doc : LiveSyncDocument) :
  (forall d, data doc = Some d -> d <> "" ->
     assembleDocument crypto doc
     =~= (text <- decode crypto d ;; ret (Some text)))
  /\ (Js.truthy_string (data doc) = false ->
      forall entries, eden doc = Some entries -> entries <> [] ->
        assembleDocument crypto doc
        =~= (text <- await (assembleFromEden crypto entries) ;; ret (Some text)))
  /\ (Js.truthy_string (data doc) = false ->
      eden doc = None \/ eden doc = Some [] ->
      forall ids, children doc = Some ids -> ids <> [] ->
        assembleDocument crypto doc
        =~= (text <- await (assembleFromChildren crypto ids) ;; ret (Some text)))
  /\ (Js.truthy_string (data doc) = false ->
      eden doc = None \/ eden doc = Some [] ->
      children doc = None \/ children doc = Some [] ->
        assembleDocument crypto doc =~= ret None).
Proof.
  split; [|split; [|split]].
  - intros d. apply assembleDocument_direct.
  - intros Hdata entries. now apply assembleDocument_eden.
  - intros Hdata Heden ids. now apply assembleDocument_children.
  - apply assembleDocument_null.
Qed.

(** With a passphrase that is not empty the assembler owns a crypto. *)
Lemma new_configured (passphrase : string) :
  passphrase <> "" -> new (Some passphrase) = Some passphrase.
Proof. destruct passphrase; [congruence | reflexivity]. Qed.

Lemma decrypt_unmarked (passphrase payload : string) :
  LiveSyncCrypto.isEncrypted payload = false ->
  LiveSyncCrypto.decrypt passphrase payload = ret payload.
Proof. intros Hm. unfold LiveSyncCrypto.decrypt. now rewrite Hm. Qed.

(** C10. A payload without the ['%='] marker is base64-decoded when no
    passphrase is configured and returned verbatim, through
    [LiveSyncCrypto.decrypt], when one is: at every leaf, and so for a
    record stored in its [data] field, whose two contents differ as soon as
    the payload differs from its own decoding. *)
Theorem unmarked_payload_depends_on_passphrase
    (payload passphrase : string) (doc : LiveSyncDocument) :
  LiveSyncCrypto.isEncrypted payload = false ->
  passphrase <> "" ->
  (forall E (env : Env StorageCall E) s e,
      result (run env (decode (new None) payload) s e)
      = Ok (base64_utf8 payload)
      /\ result (run env (decode (new (Some passphrase)) payload) s e)
         = Ok payload)
  /\ (data doc = Some payload -> payload <> "" ->
      forall E (env : Env StorageCall E) s e,
        result (run env (assembleDocument (new None) doc) s e)
        = Ok (Some (base64_utf8 payload))
        /\ result (run env (assembleDocument (new (Some passphrase)) doc) s e)
           = Ok (Some payload)
        /\ (base64_utf8 payload <> payload ->
            result (run env (assembleDocument (new None) doc) s e)
            <> result (run env (assembleDocument (new (Some passphrase)) doc) s e))).
Proof.
  intros Hm Hp. rewrite (new_configured _ Hp).
  assert (Hleaf : forall E (env : Env StorageCall E) s e,
      result (run env (decode (new None) payload) s e)
      = Ok (base64_utf8 payload)
      /\ result (run env (decode (Some passphrase) payload) s e) = Ok payload).
  { intros E env s e. split; [reflexivity|].
    unfold decode. now rewrite (decrypt_unmarked _ _ Hm). }
  split; [exact Hleaf|].
  intros Hd Hne E env s e.
  assert (H1 : result (run env (assembleDocument (new None) doc) s e)
               = Ok (Some (base64_utf8 payload))).
  { destruct (truthy_string_nonempty _ Hne) as (c & rest & ->).
    unfold assembleDocument. rewrite Hd. reflexivity. }
  assert (H2 : result (run env (assembleDocument (Some passphrase) doc) s e)
               = Ok (Some payload)).
  { destruct (truthy_string_nonempty _ Hne) as (c & rest & Heq).
    unfold assembleDocument. rewrite Hd. rewrite Heq at 1. rewrite <- Heq.
    unfold decode. rewrite (decrypt_unmarked _ _ Hm). reflexivity. }
  repeat split; [exact H1 | exact H2 |].
  intros Hdiff. rewrite H1, H2. congruence.
Qed.


End AssemblerFacts.

(** ** The sort of the eden entries *)

Section SortFacts.
Context {A : Type} (key : A -> Z).

Let cmp (a b : A) : Z := key a - key b.
Let le_key (a b : A) : Prop := key a <= key b.
Let lt_key (a b : A) : Prop := key a < key b.

Lemma sort_insert_perm (x : A) (l : list A) :
  Permutation (Js.sort_insert cmp x l) (x :: l).
Proof.
  induction l as [|y l IH]; simpl; [reflexivity|].
  destruct (cmp x y <=? 0); [reflexivity|].
  rewrite IH. apply perm_swap.
Qed.

Lemma sort_perm (l : list A) : Permutation (Js.sort cmp l) l.
Proof.
  induction l as [|x l IH]; simpl; [reflexivity|].
  unfold Js.sort in IH. rewrite sort_insert_perm. now constructor.
Qed.

Lemma sort_insert_sorted (x : A) (l : list A) :
  StronglySorted le_key l -> StronglySorted le_key (Js.sort_insert cmp x l).
Proof.
  induction l as [|y l IH]; simpl; intros Hs.
  - repeat constructor.
  - inversion Hs as [|y' l' Hsl Hy]; subst.
    destruct (cmp x y <=? 0) eqn:Hc.
    + apply Z.leb_le in Hc. constructor; [exact Hs|].
      constructor; [unfold le_key, cmp in *; lia|].
      eapply Forall_impl; [|exact Hy]. unfold le_key, cmp in *. simpl. lia.
    + apply Z.leb_gt in Hc. constructor; [apply IH, Hsl|].
      eapply Permutation_Forall; [symmetry; apply sort_insert_perm|].
      constructor; [unfold le_key, cmp in *; lia | exact Hy].
Qed.

Lemma sort_sorted (l : list A) : StronglySorted le_key (Js.sort cmp l).
Proof.
  induction l as [|x l IH]; simpl; [constructor|].
  apply sort_insert_sorted, IH.
Qed.

Lemma sorted_strict (l : list A) :
  StronglySorted le_key l -> NoDup (map key l) -> StronglySorted lt_key l.
Proof.
  induction 1 as [|x l Hs IH Hx]; simpl; intros Hnd; [constructor|].
  inversion Hnd as [|k ks Hnot Hnd']; subst.
  constructor; [apply IH, Hnd'|].
  rewrite Forall_forall in *. intros y Hy.
  specialize (Hx y Hy). unfold le_key, lt_key in *.
  assert (key y <> key x).
  { intros Heq. apply Hnot. rewrite <- Heq. now apply in_map. }
  lia.
Qed.

(** A list without repeated keys has one arrangement in ascending order. *)
Lemma strictly_sorted_unique (l1 : list A) :
  forall l2,
    StronglySorted lt_key l1 -> StronglySorted lt_key l2 ->
    Permutation l1 l2 -> l1 = l2.
Proof.
  induction l1 as [|a l1 IH]; intros l2 H1 H2 Hp.
  - apply Permutation_nil in Hp. now subst.
  - destruct l2 as [|b l2].
    { symmetry in Hp. apply Permutation_nil in Hp. discriminate. }
    inversion H1 as [|a' l1' Hs1 Ha]; subst.
    inversion H2 as [|b' l2' Hs2 Hb]; subst.
    rewrite Forall_forall in Ha, Hb.
    assert (Hab : a = b).
    { assert (Ha2 : In a (b :: l2)).
      { eapply Permutation_in; [exact Hp | now left]. }
      assert (Hb1 : In b (a :: l1)).
      { eapply Permutation_in; [symmetry; exact Hp | now left]. }
      destruct Ha2 as [Heq | Ha2]; [now subst|].
      destruct Hb1 as [Heq | Hb1]; [now subst|].
      specialize (Ha _ Hb1). specialize (Hb _ Ha2).
      unfold lt_key in *. lia. }
    subst b. f_equal. apply IH; try assumption.
    eapply Permutation_cons_inv; exact Hp.
Qed.

Lemma sort_strictly_sorted (l : list A) :
  NoDup (map key l) -> StronglySorted lt_key (Js.sort cmp l).
Proof.
  intros Hnd. apply sorted_strict; [apply sort_sorted|].
  eapply Permutation_NoDup; [|exact Hnd].
  apply Permutation_map. symmetry. apply sort_perm.
Qed.

(** The sort forgets the order in which the entries were given. *)
Lemma sort_order_independent (l1 l2 : list A) :
  NoDup (map key l1) -> Permutation l1 l2 -> Js.sort cmp l1 = Js.sort cmp l2.
Proof.
  intros Hnd Hp. apply strictly_sorted_unique.
  - now apply sort_strictly_sorted.
  - apply sort_strictly_sorted.
    eapply Permutation_NoDup; [|exact Hnd]. now apply Permutation_map.
  - rewrite sort_perm, Hp. symmetry. apply sort_perm.
Qed.

End SortFacts.

(** ** Assembly from the eden map and from the chunk list *)

Section AssemblyOrder.
Context `{Runtime}.
Import ChunkAssembler.

Lemma await_equiv {S C R} (m m' : Task S C R) : m =~= m' -> await m =~= await m'.
Proof. intros Hm. apply bind_equiv; [exact Hm | intros r; apply equiv_refl]. Qed.

Lemma decodeAll_plain (payloads : list string) :
  decodeAll None payloads = ret (map base64_utf8 payloads).
Proof.
  induction payloads as [|p ps IH]; simpl; [reflexivity|].
  rewrite IH. reflexivity.
Qed.

(** Pushing onto [acc] while decoding is decoding, then joining. *)
Lemma collect_decodeAll (crypto : option string) (payload : string)
    (rest : list string) (acc : list string) (loop : list string -> M string) :
  (forall acc', loop acc' =~=
     (texts <- decodeAll crypto rest ;; ret (Js.join (acc' ++ texts)))) ->
  (text <- decode crypto payload ;; loop (acc ++ [text])%list)
  =~= (texts <- decodeAll crypto (payload :: rest) ;; ret (Js.join (acc ++ texts))).
Proof.
  intros Hloop. simpl. apply equiv_sym.
  eapply equiv_trans; [apply tbind_assoc|].
  apply tbind_equiv; [apply equiv_refl|]. intros text.
  eapply equiv_trans; [apply tbind_assoc|]. simpl.
  apply equiv_sym. eapply equiv_trans; [apply Hloop|].
  apply tbind_equiv; [apply equiv_refl|]. intros texts.
  rewrite <- app_assoc. apply equiv_refl.
Qed.

Lemma edenLoop_decodeAll (crypto : option string) (entries : Js.Map EdenChunk) :
  forall acc,
    edenLoop crypto entries acc
    =~= (texts <- decodeAll crypto (edenPayloads entries) ;;
         ret (Js.join (acc ++ texts))).
Proof.
  induction entries as [|[chunkId chunk] rest IH]; intros acc.
  - unfold tbind, ret. simpl. rewrite app_nil_r. apply equiv_refl.
  - change (edenPayloads ((chunkId, chunk) :: rest))
      with (eden_data chunk :: edenPayloads rest).
    eapply equiv_trans; [|apply (collect_decodeAll _ _ _ _ _ IH)].
    simpl. apply tbind_equiv; [apply try_catch_rethrow|].
    intros r. apply equiv_refl.
Qed.

Lemma assembleFromEden_decodeAll (crypto : option string) (entries : Js.Map EdenChunk) :
  assembleFromEden crypto entries
  =~= (texts <- decodeAll crypto (edenPayloads (Js.sort byEpoch entries)) ;;
       ret (Js.join texts)).
Proof.
  unfold assembleFromEden.
  eapply equiv_trans; [apply try_catch_rethrow|].
  apply (edenLoop_decodeAll crypto _ []).
Qed.

Lemma childrenLoop_decodeAll (crypto : option string)
    (chunkDocs : Js.Map LiveSyncDocument) (ids : list string) :
  (forall chunkId, In chunkId ids ->
     exists chunk payload,
       Js.get chunkId chunkDocs = Some chunk
       /\ data chunk = Some payload /\ payload <> "") ->
  forall acc,
    childrenLoop crypto chunkDocs ids acc
    =~= (texts <- decodeAll crypto (payloadsOf chunkDocs ids) ;;
         ret (Js.join (acc ++ texts))).
Proof.
  induction ids as [|chunkId rest IH]; intros Hall acc.
  - unfold tbind, ret. simpl. rewrite app_nil_r. apply equiv_refl.
  - destruct (Hall chunkId (or_introl eq_refl)) as (chunk & payload & Hg & Hd & Hne).
    destruct (truthy_string_nonempty _ Hne) as (c & d & ->).
    assert (IH' := IH (fun i Hi => Hall i (or_intror Hi))).
    assert (Hp : payloadsOf chunkDocs (chunkId :: rest)
                 = String c d :: payloadsOf chunkDocs rest).
    { unfold payloadsOf. simpl. now rewrite Hg, Hd. }
    rewrite Hp.
    eapply equiv_trans;
      [|apply (collect_decodeAll crypto (String c d) (payloadsOf chunkDocs rest) acc _ IH')].
    simpl. rewrite Hg, Hd. apply equiv_refl.
Qed.

(** Looking up a key does not depend on the order of the entries. *)
Lemma get_order_independent {V} (k : string) (m m' : Js.Map V) :
  NoDup (Js.keys m) -> Permutation m m' -> Js.get k m = Js.get k m'.
Proof.
  intros Hnd Hp. induction Hp as [| [k1 v1] l l' Hp IH | [k1 v1] [k2 v2] l | l l' l'' Hp1 IH1 Hp2 IH2].
  - reflexivity.
  - simpl. inversion Hnd; subst. destruct (String.eqb k k1); auto.
  - simpl. destruct (String.eqb k k2) eqn:E2, (String.eqb k k1) eqn:E1; try reflexivity.
    apply String.eqb_eq in E1, E2. subst.
    inversion Hnd as [|? ? Hnot _]; subst. simpl in Hnot. tauto.
  - rewrite IH1 by exact Hnd. apply IH2.
    eapply Permutation_NoDup; [|exact Hnd]. now apply Permutation_map.
Qed.

(** C7. For every eden map whose entries carry pairwise-distinct epochs,
    the assembly from it is the concatenation of the decoded entries in
    ascending order of epoch, whatever the order in which the map lists
    them; and that is the content [assembleDocument] returns for a record
    that is assembled from its eden map. *)
Theorem eden_assembly_order (crypto : option string) (entries : Js.Map EdenChunk) :
  NoDup (map epochOf entries) ->
  exists sorted,
    Permutation sorted entries
    /\ StronglySorted (fun a b => epochOf a < epochOf b) sorted
    /\ assembleFromEden crypto entries
       =~= (texts <- decodeAll crypto (edenPayloads sorted) ;;
            ret (Js.join texts))
    /\ (forall entries',
          Permutation entries entries' ->
          assembleFromEden crypto entries' = assembleFromEden crypto entries)
    /\ (forall doc,
          Js.truthy_string (data doc) = false ->
          eden doc = Some entries ->
          entries <> [] ->
          assembleDocument crypto doc
          =~= (text <- await (texts <- decodeAll crypto (edenPayloads sorted) ;;
                              ret (Js.join texts)) ;;
               ret (Some text))
          /\ (crypto = None ->
              forall E (env : Env StorageCall E) s e,
                result (run env (assembleDocument crypto doc) s e)
                = Ok (Some (Js.join (map base64_utf8 (edenPayloads sorted)))))).
Proof.
  intros Hnd. exists (Js.sort byEpoch entries).
  split; [apply (sort_perm epochOf)|].
  split; [apply (sort_strictly_sorted epochOf), Hnd|].
  split; [apply assembleFromEden_decodeAll|].
  split.
  - intros entries' Hperm.
    assert (Hsort : Js.sort byEpoch entries = Js.sort byEpoch entries')
      by exact (sort_order_independent epochOf entries entries' Hnd Hperm).
    unfold assembleFromEden. now rewrite Hsort.
  - intros doc Hdata Heden Hne.
    assert (Hasm : assembleDocument crypto doc
         =~= (text <- await (texts <- decodeAll crypto
                               (edenPayloads (Js.sort byEpoch entries)) ;;
                             ret (Js.join texts)) ;;
              ret (Some text))).
    { eapply equiv_trans;
        [exact (assembleDocument_eden crypto doc entries Hdata Heden Hne)|].
      apply tbind_equiv; [|intros r; apply equiv_refl].
      apply await_equiv, assembleFromEden_decodeAll. }
    split; [exact Hasm|].
    intros -> E env s e. rewrite Hasm. rewrite decodeAll_plain. reflexivity.
Qed.

(** C2, as the code has it. For a record assembled from its [children]
    list, if the bulk fetch returns for every referenced id a chunk whose
    [data] is a non-empty string, the content is the concatenation of the
    decoded chunks in the order of the [children] list, whatever the order
    of the entries in the map that the bulk fetch returned. *)
Theorem children_assembly_order (crypto : option string) (doc : LiveSyncDocument)
    (ids : list string) (chunkDocs : Js.Map LiveSyncDocument) :
  Js.truthy_string (data doc) = false ->
  eden doc = None \/ eden doc = Some [] ->
  children doc = Some ids ->
  ids <> [] ->
  (forall chunkId, In chunkId ids ->
     exists chunk payload,
       Js.get chunkId chunkDocs = Some chunk
       /\ data chunk = Some payload /\ payload <> "") ->
  forall E (env : Env StorageCall E) s e e',
    handle env (GetDocuments ids) e = (Ok chunkDocs, e') ->
    run env (assembleDocument crypto doc) s e
    = after [mkEvent s (Called (GetDocuments ids) (Ok chunkDocs))]
        (run env
           (text <- await (texts <- decodeAll crypto (payloadsOf chunkDocs ids) ;;
                           ret (Js.join texts)) ;;
            ret (Some text)) s e')
    /\ (crypto = None ->
        result (run env (assembleDocument crypto doc) s e)
        = Ok (Some (Js.join (map base64_utf8 (payloadsOf chunkDocs ids)))))
    /\ (forall chunkDocs',
          NoDup (Js.keys chunkDocs) ->
          Permutation chunkDocs chunkDocs' ->
          payloadsOf chunkDocs' ids = payloadsOf chunkDocs ids
          /\ childrenLoop crypto chunkDocs' ids []
             =~= childrenLoop crypto chunkDocs ids []).
Proof.
  intros Hdata Heden Hchildren Hne Hall E env s e e' Hfetch.
  pose proof (assembleDocument_children crypto doc ids Hdata Heden Hchildren Hne)
    as Hchain.
  assert (Hrun : run env (assembleDocument crypto doc) s e
    = after [mkEvent s (Called (GetDocuments ids) (Ok chunkDocs))]
        (run env
           (text <- await (texts <- decodeAll crypto (payloadsOf chunkDocs ids) ;;
                           ret (Js.join texts)) ;;
            ret (Some text)) s e')).
  { rewrite Hchain. unfold assembleFromChildren, await, tbind, call. simpl.
    rewrite Hfetch. f_equal.
    apply bind_equiv; [|intros r; apply equiv_refl].
    apply bind_equiv; [|intros r; apply equiv_refl].
    apply (childrenLoop_decodeAll crypto chunkDocs ids Hall []). }
  split; [exact Hrun|]. split.
  - intros ->. rewrite Hrun. rewrite decodeAll_plain. reflexivity.
  - intros chunkDocs' Hnd Hperm.
    assert (Hget : forall k, Js.get k chunkDocs' = Js.get k chunkDocs).
    { intros k. symmetry. now apply get_order_independent. }
    split.
    + unfold payloadsOf. apply map_ext. intros k. now rewrite Hget.
    + generalize (@nil string).
      clear Hchildren Hne Hall Hfetch Hchain Hrun.
      induction ids as [|chunkId rest IH]; intros acc; [apply equiv_refl|].
      simpl. rewrite Hget.
      destruct (Js.get chunkId chunkDocs) as [chunk|]; [|apply equiv_refl].
      destruct (data chunk) as [[|c d]|]; try apply equiv_refl.
      apply tbind_equiv; [apply equiv_refl|]. intros text. apply IH.
Qed.

End AssemblyOrder.

(* ================================================================== *)
(** * The assembler on concrete records *)

Module AssemblerScenarios.
Import Example ChunkAssembler.

(** [{data: base64("Hello World")}], no passphrase. *)
Example direct_hello_world :
  result (run (store []) (assembleDocument (new None)
                            (with_data "SGVsbG8gV29ybGQ=" (doc "note.md")))
              None tt)
  = Ok (Some "Hello World").
Proof. reflexivity. Qed.

(** [{eden: {c1: {data: base64("First "), epoch: 2},
             c2: {data: base64("Second"), epoch: 1}}}]. *)
Example eden_second_first :
  result (run (store []) (assembleDocument (new None)
                            (with_eden [("c1", mkEdenChunk "Rmlyc3Qg" 2);
                                        ("c2", mkEdenChunk "U2Vjb25k" 1)]
                                       (doc "note.md")))
              None tt)
  = Ok (Some "SecondFirst ").
Proof. reflexivity. Qed.

(** [{children: ["a", "b"]}], the store lists [b] before [a]. *)
Example children_a_b :
  result (run (store [with_data "Qg==" (doc "b"); with_data "QQ==" (doc "a")])
              (assembleDocument (new None) (with_children ["a"; "b"] (doc "note.md")))
              None tt)
  = Ok (Some "AB").
Proof. reflexivity. Qed.

(** [{children: ["a", "missing"]}], the store holds [a] only. *)
Example children_missing :
  result (run (store [with_data "QQ==" (doc "a")])
              (assembleDocument (new None)
                 (with_children ["a"; "missing"] (doc "note.md")))
              None tt)
  = Throw "Chunk not found: missing".
Proof. reflexivity. Qed.

(** C2 fails as stated: the bulk fetch returns, for the one referenced id,
    a chunk that carries a [data] field, the empty string; the assembly
    throws instead of returning the concatenation of the decoded chunks. *)
Lemma children_empty_data_counterexample :
  let chunk := with_data "" (doc "h:a") in
  let note := with_children ["h:a"] (doc "note.md") in
  handle (store [chunk]) (GetDocuments ["h:a"]) tt = (Ok [("h:a", chunk)], tt)
  /\ Js.get "h:a" [("h:a", chunk)] = Some chunk
  /\ data chunk = Some ""
  /\ result (run (store [chunk]) (assembleDocument (new None) note) None tt)
     = Throw "Chunk has no data: h:a"
  /\ result (run (store [chunk]) (assembleDocument (new None) note) None tt)
     <> Ok (Some (Js.join (map base64_utf8 (payloadsOf [("h:a", chunk)] ["h:a"])))).
Proof.
  repeat split; try reflexivity. discriminate.
Qed.

Lemma children_assembly_order_witness :
  result (run (store [with_data "Qg==" (doc "b"); with_data "QQ==" (doc "a")])
              (assembleDocument None (with_children ["a"; "b"] (doc "note.md")))
              None tt)
  = Ok (Some (Js.join (map base64_utf8 ["QQ=="; "Qg=="]))).
Proof.
  refine (proj1 (proj2
    (children_assembly_order None (with_children ["a"; "b"] (doc "note.md"))
       ["a"; "b"]
       [("b", with_data "Qg==" (doc "b")); ("a", with_data "QQ==" (doc "a"))]
       eq_refl (or_introl eq_refl) eq_refl _ _
       unit (store [with_data "Qg==" (doc "b"); with_data "QQ==" (doc "a")])
       None tt tt eq_refl)) eq_refl).
  - discriminate.
  - intros chunkId [<- | [<- | []]].
    + exists (with_data "QQ==" (doc "a")), "QQ==".
      repeat split; try reflexivity; discriminate.
    + exists (with_data "Qg==" (doc "b")), "Qg==".
      repeat split; try reflexivity; discriminate.
Defined.

Lemma strategy_priority_chain_witness :
  (assembleDocument None
     (with_children ["a"] (with_eden [("c1", mkEdenChunk "QQ==" 1)]
        (with_data "SGk=" (doc "n"))))
   =~= (text <- decode None "SGk=" ;; ret (Some text)))
  /\ (assembleDocument None
        (with_children ["a"] (with_eden [("c1", mkEdenChunk "QQ==" 1)]
           (with_data "" (doc "n"))))
      =~= (text <- await (assembleFromEden None [("c1", mkEdenChunk "QQ==" 1)]) ;;
           ret (Some text)))
  /\ (assembleDocument None (with_children ["a"] (with_eden [] (doc "n")))
      =~= (text <- await (assembleFromChildren None ["a"]) ;; ret (Some text)))
  /\ (assembleDocument None (with_children [] (with_data "" (doc "n")))
      =~= ret None).
Proof.
  split; [|split; [|split]];
    match goal with
    | |- assembleDocument _ ?d =~= _ =>
        destruct (strategy_priority_chain None d) as (H1 & H2 & H3 & H4)
    end.
  - apply (H1 "SGk=" eq_refl). discriminate.
  - apply (H2 eq_refl _ eq_refl). discriminate.
  - apply (H3 eq_refl (or_intror eq_refl) _ eq_refl). discriminate.
  - apply (H4 eq_refl (or_introl eq_refl) (or_intror eq_refl)).
Defined.

Lemma eden_assembly_order_witness :
  exists sorted,
    Permutation sorted [("c1", mkEdenChunk "Rmlyc3Qg" 2); ("c2", mkEdenChunk "U2Vjb25k" 1)]
    /\ StronglySorted (fun a b => epochOf a < epochOf b) sorted
    /\ forall s e,
         result (run (store []) (assembleDocument None
                   (with_eden [("c1", mkEdenChunk "Rmlyc3Qg" 2);
                               ("c2", mkEdenChunk "U2Vjb25k" 1)] (doc "n"))) s e)
         = Ok (Some (Js.join (map base64_utf8 (edenPayloads sorted)))).
Proof.
  destruct (eden_assembly_order None
              [("c1", mkEdenChunk "Rmlyc3Qg" 2); ("c2", mkEdenChunk "U2Vjb25k" 1)])
    as (sorted & Hperm & Hsorted & _ & _ & Hdoc).
  - repeat constructor; simpl; intuition discriminate.
  - exists sorted. split; [exact Hperm|]. split; [exact Hsorted|].
    intros s e.
    refine (proj2 (Hdoc (with_eden [("c1", mkEdenChunk "Rmlyc3Qg" 2);
                                    ("c2", mkEdenChunk "U2Vjb25k" 1)] (doc "n"))
                        eq_refl eq_refl _) eq_refl unit (store []) s e).
    discriminate.
Defined.

Lemma unmarked_payload_witness :
  result (run (store []) (assembleDocument (new None)
                            (with_data "SGVsbG8=" (doc "n"))) None tt)
  = Ok (Some "Hello")
  /\ result (run (store []) (assembleDocument (new (Some "correct horse"))
                               (with_data "SGVsbG8=" (doc "n"))) None tt)
     = Ok (Some "SGVsbG8=").
Proof.
  destruct (proj2 (unmarked_payload_depends_on_passphrase
                     "SGVsbG8=" "correct horse" (with_data "SGVsbG8=" (doc "n"))
                     eq_refl ltac:(discriminate))
                  eq_refl ltac:(discriminate) unit (store []) None tt)
    as (Hplain & Hcrypto & _).
  split; [exact Hplain | exact Hcrypto].
Defined.

End AssemblerScenarios.

(* ================================================================== *)
(** * Properties of [LiveSyncCrypto] *)

Section CryptoFacts.
Context `{Runtime}.
Import LiveSyncCrypto.

(** C5, as the code has it. The salt is cached by the fetch that succeeds:
    with a cached salt, decrypting a marked payload never queries the store
    and leaves the cache as it is; without one, every attempt queries the
    sync-parameters document once, caches the salt when the document carries
    it, and otherwise fails and leaves the cache empty, so that the next
    attempt queries the store again. *)
Theorem salt_cached_by_successful_fetch
    (passphrase payload : string) E (env : Env StorageCall E) (e : E) :
  isEncrypted payload = true ->
  (forall salt,
      let o := run env (decrypt passphrase payload) (Some salt) e in
      saltQueries (trace o) = 0%nat /\ final o = Some salt /\ world o = e)
  /\ (let o := run env (decrypt passphrase payload) None e in
      let fetched := fst (handle env (GetDocument SYNC_PARAMS_DOCID) e) in
      saltQueries (trace o) = 1%nat
      /\ final o = saltOf fetched
      /\ (saltOf fetched = None ->
          exists message,
            result o
            = Throw ("Decryption failed: Failed to load encryption salt: "
                     ++ message))).
Proof.
  intros Hm. unfold decrypt. rewrite Hm. simpl. split.
  - intros salt. simpl.
    destruct (decryptHKDF payload passphrase salt); simpl; auto.
  - simpl. destruct (handle env (GetDocument SYNC_PARAMS_DOCID) e) as [fetched e'].
    simpl. destruct fetched as [[params|]|message]; simpl.
    + destruct (pbkdf2salt params) as [[|c rest]|]; simpl.
      * repeat split; eauto.
      * destruct (decryptHKDF payload passphrase _); simpl;
          repeat split; intros; discriminate.
      * repeat split; eauto.
    + repeat split; eauto.
    + repeat split; eauto.
Qed.

(** An unmarked payload is returned as it is, without a look at the salt. *)
Lemma decrypt_unmarked_run (passphrase payload : string) E
    (env : Env StorageCall E) s e :
  isEncrypted payload = false ->
  run env (decrypt passphrase payload) s e = mkOutcome (Ok payload) s e [].
Proof. intros Hm. unfold decrypt. now rewrite Hm. Qed.

End CryptoFacts.

(* ================================================================== *)
(** * Calls and fields through the combinators *)

Section CombinatorFacts.
Context {S : Type} {C : Type -> Type}.
Variable P : forall A, C A -> Prop.
Variable I : S -> Prop.

Lemma calls_only_tbind {R R'} (m : Task S C R) (f : R -> Task S C R') :
  calls_only P m -> (forall a, calls_only P (f a)) -> calls_only P (tbind m f).
Proof.
  intros Hm Hf. apply calls_only_bind; [exact Hm|].
  intros [a|msg]; [apply Hf | exact Logic.I].
Qed.

Lemma calls_only_try_catch {R} (m : Task S C R) (h : string -> Task S C R) :
  calls_only P m -> (forall msg, calls_only P (h msg)) ->
  calls_only P (try_catch m h).
Proof.
  intros Hm Hh. apply calls_only_bind; [exact Hm|].
  intros [a|msg]; [exact Logic.I | apply Hh].
Qed.

Lemma calls_only_try_finally {R} (m : Task S C R) (fin : Task S C unit) :
  calls_only P m -> calls_only P fin -> calls_only P (try_finally m fin).
Proof.
  intros Hm Hfin. apply calls_only_bind; [exact Hm|].
  intros r. apply calls_only_bind; [exact Hfin|]. intros _. exact Logic.I.
Qed.

Lemma calls_only_await {R} (m : Task S C R) :
  calls_only P m -> calls_only P (await m).
Proof.
  intros Hm. apply calls_only_bind; [exact Hm|]. intros r. exact Logic.I.
Qed.

Lemma calls_only_call {A} (c : C A) : P A c -> calls_only P (call (S:=S) c).
Proof. intros Hc. split; [exact Hc|]. intros r. exact Logic.I. Qed.

Lemma calls_only_modify (f : S -> S) : calls_only P (modify (C:=C) f).
Proof. intros s. exact Logic.I. Qed.

Lemma keeps_tbind {R R'} (m : Task S C R) (f : R -> Task S C R') :
  keeps I m -> (forall a, keeps I (f a)) -> keeps I (tbind m f).
Proof.
  intros Hm Hf. apply keeps_bind; [exact Hm|].
  intros [a|msg]; [apply Hf | exact Logic.I].
Qed.

Lemma keeps_try_catch {R} (m : Task S C R) (h : string -> Task S C R) :
  keeps I m -> (forall msg, keeps I (h msg)) -> keeps I (try_catch m h).
Proof.
  intros Hm Hh. apply keeps_bind; [exact Hm|].
  intros [a|msg]; [exact Logic.I | apply Hh].
Qed.

Lemma keeps_await {R} (m : Task S C R) : keeps I m -> keeps I (await m).
Proof.
  intros Hm. apply keeps_bind; [exact Hm|]. intros r. exact Logic.I.
Qed.

Lemma keeps_call {A} (c : C A) : keeps I (call c).
Proof. intros r. exact Logic.I. Qed.

Lemma keeps_modify (f : S -> S) :
  (forall s, I s -> I (f s)) -> keeps I (modify (C:=C) f).
Proof. intros Hf s Hs. split; [apply Hf, Hs | exact Logic.I]. Qed.

End CombinatorFacts.

(** Splits a goal on a tree along its combinators. *)
Ltac tree_step :=
  lazymatch goal with
  | |- calls_only _ (tbind _ _) => apply calls_only_tbind; [|intros ?]
  | |- calls_only _ (try_catch _ _) => apply calls_only_try_catch; [|intros ?]
  | |- calls_only _ (try_finally _ _) => apply calls_only_try_finally
  | |- calls_only _ (await _) => apply calls_only_await
  | |- calls_only _ (call _) => apply calls_only_call
  | |- calls_only _ (modify _) => apply calls_only_modify
  | |- keeps _ (tbind _ _) => apply keeps_tbind; [|intros ?]
  | |- keeps _ (try_catch _ _) => apply keeps_try_catch; [|intros ?]
  | |- keeps _ (await _) => apply keeps_await
  | |- keeps _ (call _) => apply keeps_call
  | |- keeps _ (modify _) => apply keeps_modify; intros ? ?
  | |- ?Q _ (match ?x with _ => _ end) => destruct x
  end.

Ltac tree :=
  repeat tree_step;
  try (simpl; intros; exact Logic.I);
  try (unfold running in *; simpl; assumption).

(* ================================================================== *)
(** * Properties of [SyncService] *)

Section SyncFacts.
Import SyncService.

(** ** The fields while a pass is under way *)

Lemma processLoop_keeps (I : SyncStatus -> Prop) (documents : list LiveSyncDocument) :
  forall counts notesToSave, keeps I (processLoop documents counts notesToSave).
Proof.
  induction documents as [|doc rest IH]; intros counts notesToSave; simpl.
  - exact Logic.I.
  - destruct (skipped doc); [apply IH|].
    apply keeps_tbind.
    + unfold assembleNote. tree.
    + intros [note|]; apply IH.
Qed.

Lemma processDocuments_keeps (I : SyncStatus -> Prop) (documents : list LiveSyncDocument) :
  keeps I (processDocuments documents).
Proof.
  unfold processDocuments. apply keeps_tbind; [apply processLoop_keeps|].
  intros [counts [|note notes]]; tree.
Qed.

Lemma succeeded_keeps (n : Z) : keeps running (succeeded n).
Proof. unfold succeeded. tree. Qed.

Lemma persistCursor_keeps (I : SyncStatus -> Prop) : keeps I persistCursor.
Proof. unfold persistCursor. intros st Hst t r. exact Logic.I. Qed.

Lemma failed_keeps (message : string) : keeps running (failed message).
Proof. unfold failed. tree. Qed.

(** The pattern shared by [fullSync] and [incrementalSync]: the guard is
    set before the first suspension, stays set while [body] runs, and is
    released however [body] ends. *)
Lemma guarded_pass (body : M unit) E (env : Env SyncCall E) (st : SyncStatus) (e : E) :
  isRunning st = false ->
  keeps running body ->
  let o :=
    run env
      (st <- read ;;
       if isRunning st then ret tt
       else
         modify (set_isRunning true) ;;;
         try_finally (try_catch body failed) (modify (set_isRunning false)))
      st e in
  isRunning (final o) = false
  /\ Forall (fun ev => running (ev_state ev)) (trace o)
  /\ trace o = trace (run env body (set_isRunning true st) e)
  /\ world o = world (run env body (set_isRunning true st) e).
Proof.
  intros Hidle Hbody. simpl. rewrite Hidle. simpl.
  unfold try_finally, try_catch. rewrite !run_bind. simpl.
  destruct (keeps_run running env body Hbody (set_isRunning true st) e eq_refl)
    as [_ Htrace].
  destruct (run env body (set_isRunning true st) e) as [r s' e' t]. simpl in *.
  destruct r as [[]|message]; simpl; rewrite ?app_nil_r; auto.
Qed.

Lemma fullSyncTry_keeps : keeps running fullSyncTry.
Proof.
  unfold fullSyncTry.
  tree; try apply processDocuments_keeps; try apply succeeded_keeps;
    try apply persistCursor_keeps.
Qed.

Lemma incrementalSyncTry_keeps : keeps running incrementalSyncTry.
Proof.
  unfold incrementalSyncTry.
  tree; try apply processDocuments_keeps; try apply succeeded_keeps;
    try apply persistCursor_keeps.
Qed.

(** ** [initialize] *)

(** [initialize] asks the state storage and nothing else, and adopts the
    cursor that it finds there. *)
Lemma initialize_asks_state_storage_only :
  calls_only (fun A c => match c with StateGetState => True | _ => False end)
             initialize.
Proof.
  unfold initialize. apply calls_only_tbind; [now apply calls_only_call|].
  intros state. destruct (state_lastSeq state) as [[|c rest]|]; tree.
Qed.

Lemma initialize_adopts_cursor E (env : Env SyncCall E) (st : SyncStatus) (e : E)
    (state : SyncState) (e' : E) :
  handle env StateGetState e = (Ok state, e') ->
  Js.truthy_string (state_lastSeq state) = true ->
  lastSeq (final (run env initialize st e)) = state_lastSeq state.
Proof.
  intros Hget Hcursor. unfold initialize. simpl. rewrite Hget. simpl.
  destruct (state_lastSeq state) as [[|c rest]|]; try discriminate.
  reflexivity.
Qed.

Lemma guard_observed (pass : M unit) E (env : Env SyncCall E) (st : SyncStatus) (e : E) :
  isRunning st = true ->
  run env (st <- read ;; if isRunning st then ret tt else pass) st e
  = mkOutcome (Ok tt) st e [].
Proof. intros Hbusy. simpl. now rewrite Hbusy. Qed.

Lemma sync_busy E (env : Env SyncCall E) (st : SyncStatus) (e : E) :
  isRunning st = true -> run env sync st e = mkOutcome (Ok tt) st e [].
Proof. intros Hbusy. unfold sync. now apply guard_observed. Qed.

(** A call of [sync] that passes the guard runs one of the two passes and
    resumes one tick after it. *)
Lemma sync_idle E (env : Env SyncCall E) (st : SyncStatus) (e : E) :
  isRunning st = false ->
  let pass := if Js.truthy_string (lastSeq st) then incrementalSync else fullSync in
  run env sync st e
  = let o := run env pass st e in
    mkOutcome (result o) (final o) (world o)
              (trace o ++ [mkEvent (final o) Ticked]).
Proof.
  intros Hidle. unfold sync. simpl. rewrite Hidle.
  destruct (lastSeq st) as [[|c rest]|]; simpl;
    unfold await; rewrite run_bind; reflexivity.
Qed.

Lemma pass_guarded E (env : Env SyncCall E) (st : SyncStatus) (e : E) :
  isRunning st = false ->
  let pass := if Js.truthy_string (lastSeq st) then incrementalSync else fullSync in
  let try := if Js.truthy_string (lastSeq st) then incrementalSyncTry else fullSyncTry in
  let o := run env pass st e in
  isRunning (final o) = false
  /\ Forall (fun ev => running (ev_state ev)) (trace o)
  /\ trace o = trace (run env try (set_isRunning true st) e)
  /\ world o = world (run env try (set_isRunning true st) e).
Proof.
  intros Hidle. simpl. destruct (Js.truthy_string (lastSeq st)).
  - exact (guarded_pass incrementalSyncTry E env st e Hidle incrementalSyncTry_keeps).
  - exact (guarded_pass fullSyncTry E env st e Hidle fullSyncTry_keeps).
Qed.

(** C1. A call of [sync] made while [status.isRunning] is set returns at
    once: it suspends nowhere, calls no collaborator and leaves the status
    as it is.  A call that passes the guard holds it at every suspension of
    its pass, so that any [sync] called meanwhile is such a call, and has
    released it when it ends, whether the pass completed or threw. *)
Theorem run_exclusivity E (env : Env SyncCall E) (st : SyncStatus) (e : E) :
  (isRunning st = true -> run env sync st e = mkOutcome (Ok tt) st e [])
  /\ (isRunning st = false ->
      let o := run env sync st e in
      isRunning (final o) = false
      /\ exists pass : list SyncEvent,
          trace o = (pass ++ [mkEvent (final o) Ticked])%list
          /\ Forall (fun ev => isRunning (ev_state ev) = true) pass
          /\ forall ev, In ev pass ->
               forall E' (env' : Env SyncCall E') (e' : E'),
                 run env' sync (ev_state ev) e'
                 = mkOutcome (Ok tt) (ev_state ev) e' []).
Proof.
  split; [apply sync_busy|].
  intros Hidle. rewrite (sync_idle E env st e Hidle). simpl.
  destruct (pass_guarded E env st e Hidle) as (Hfinal & Hheld & _).
  split; [exact Hfinal|].
  eexists. split; [reflexivity|]. split; [exact Hheld|].
  intros ev Hev E' env' e'. apply sync_busy.
  rewrite Forall_forall in Hheld. exact (Hheld ev Hev).
Qed.

(** ** The order of the writes *)

Lemma run_tbind {S C E R R'} (env : Env C E) (m : Task S C R)
    (f : R -> Task S C R') (s : S) (e : E) :
  run env (tbind m f) s e =
  let o := run env m s e in
  match result o with
  | Ok a => after (trace o) (run env (f a) (final o) (world o))
  | Throw message => mkOutcome (Throw message) (final o) (world o) (trace o)
  end.
Proof.
  unfold tbind. rewrite run_bind. simpl.
  destruct (run env m s e) as [[a|message] s' e' t]; simpl; [reflexivity|].
  unfold after. simpl. now rewrite app_nil_r.
Qed.

Lemma twoPhases_cursorAfterWrites (t : list SyncEvent) :
  twoPhases t -> cursorAfterWrites t.
Proof.
  intros (t1 & t2 & -> & H1 & H2 & H3) before ev afterwards Heq Hc.
  assert (Hin2 : forall l, t2 = (l ++ ev :: afterwards)%list ->
            Forall (fun w => isRepoWrite w = true -> fulfilled w = true) (t1 ++ l)
            /\ Forall (fun w => isRepoWrite w = false) afterwards).
  { intros l ->. apply Forall_app in H2 as [Hl Hrest].
    inversion Hrest as [|? ? _ Hafter]; subst. split; [|exact Hafter].
    apply Forall_app. split.
    - apply H3. apply Exists_app. right. now left.
    - eapply Forall_impl; [|exact Hl]. simpl. intros w Hw Hw'. congruence. }
  apply app_eq_app in Heq as [l [[-> Hl] | [-> Hl]]].
  - destruct l as [|x l]; simpl in Hl.
    + subst t2. rewrite app_nil_r in *.
      destruct (Hin2 [] eq_refl) as [Hb Ha]. rewrite app_nil_r in Hb. auto.
    + inversion Hl; subst. apply Forall_app in H1 as [_ H1].
      inversion H1; subst. congruence.
  - apply (Hin2 l Hl).
Qed.

Lemma writesPhase_tbind {E A B} (env : Env SyncCall E) (m : M A) (f : A -> M B) s e :
  writesPhase (run env m s e) ->
  (forall a s' e', writesPhase (run env (f a) s' e')) ->
  writesPhase (run env (tbind m f) s e).
Proof.
  intros [Hc Hw] Hf. rewrite run_tbind. simpl.
  destruct (run env m s e) as [[a|message] s' e' t]; simpl in *.
  - destruct (Hf a s' e') as [Hc' Hw']. split; simpl.
    + apply Forall_app. now split.
    + intros Hok. apply Forall_app. split; [apply Hw; eauto | apply Hw', Hok].
  - split; [exact Hc|]. intros [a Ha]. discriminate.
Qed.

Lemma writesPhase_call {E A} (env : Env SyncCall E) (c : SyncCall A) s e :
  cursorWriteCall c = false -> writesPhase (run env (call c) s e).
Proof.
  intros Hc. simpl. destruct (handle env c e) as [r e']. simpl. split.
  - repeat constructor. exact Hc.
  - intros [a Ha]. simpl in Ha. subst r. repeat constructor.
Qed.

Lemma writesPhase_await {E A} (env : Env SyncCall E) (m : M A) s e :
  writesPhase (run env m s e) -> writesPhase (run env (await m) s e).
Proof.
  intros [Hc Hw]. unfold await. rewrite run_bind. simpl.
  destruct (run env m s e) as [r s' e' t]. simpl in *. split.
  - apply Forall_app. split; [exact Hc | repeat constructor].
  - intros Hok. apply Forall_app. split; [apply Hw, Hok|].
    repeat constructor.
Qed.

(** A tree that writes neither a note nor the cursor. *)
Lemma writesPhase_reads {E A} (env : Env SyncCall E) (m : M A) s e :
  calls_only (fun T c => repoWriteCall c = false /\ cursorWriteCall c = false) m ->
  writesPhase (run env m s e).
Proof.
  intros Hm. pose proof (calls_only_run _ env m Hm s e) as Ht.
  split; [|intros _]; eapply Forall_impl; try exact Ht;
    intros [st [T c r|]]; unfold is_call, isCursorWrite, isRepoWrite, onCall; simpl;
    intuition congruence.
Qed.

Lemma twoPhases_tbind {E A B} (env : Env SyncCall E) (m : M A) (f : A -> M B) s e :
  writesPhase (run env m s e) ->
  (forall a s' e', twoPhases (trace (run env (f a) s' e'))) ->
  twoPhases (trace (run env (tbind m f) s e)).
Proof.
  intros [Hc Hw] Hf. rewrite run_tbind. simpl.
  destruct (run env m s e) as [[a|message] s' e' t]; simpl in *.
  - destruct (Hf a s' e') as (t1 & t2 & -> & H1 & H2 & H3).
    exists (t ++ t1)%list, t2. rewrite app_assoc. repeat split.
    + apply Forall_app. now split.
    + exact H2.
    + intros Hex. apply Forall_app. split; [apply Hw; eauto | apply H3, Hex].
  - exists t, []. rewrite app_nil_r. repeat split; auto.
    intros Hex. inversion Hex.
Qed.

Lemma twoPhases_rest {E A} (env : Env SyncCall E) (m : M A) s e :
  calls_only (fun T c => repoWriteCall c = false) m ->
  twoPhases (trace (run env m s e)).
Proof.
  intros Hm. pose proof (calls_only_run _ env m Hm s e) as Ht.
  exists [], (trace (run env m s e)). repeat split; auto.
  eapply Forall_impl; [|exact Ht].
  intros [st [T c r|]]; unfold is_call, isRepoWrite, onCall; simpl; auto.
Qed.

Lemma processLoop_calls (P : forall A, SyncCall A -> Prop)
    (documents : list LiveSyncDocument) :
  (forall doc, P _ (AssembleDocument doc)) ->
  forall counts notesToSave,
    calls_only P (processLoop documents counts notesToSave).
Proof.
  intros HP.
  induction documents as [|doc rest IH]; intros counts notesToSave; simpl.
  - exact Logic.I.
  - destruct (skipped doc); [apply IH|].
    apply calls_only_tbind.
    + unfold assembleNote. tree. apply HP.
    + intros [note|]; apply IH.
Qed.

Lemma processDocuments_calls (P : forall A, SyncCall A -> Prop)
    (documents : list LiveSyncDocument) :
  (forall doc, P _ (AssembleDocument doc)) ->
  (forall notes, P _ (RepoSaveMany notes)) ->
  calls_only P (processDocuments documents).
Proof.
  intros HP HS. unfold processDocuments.
  apply calls_only_tbind; [now apply processLoop_calls|].
  intros [counts [|note notes]]; tree. apply HS.
Qed.

Lemma processDocuments_writesPhase {E} (env : Env SyncCall E)
    (documents : list LiveSyncDocument) s e :
  writesPhase (run env (processDocuments documents) s e).
Proof.
  unfold processDocuments. apply writesPhase_tbind.
  - apply writesPhase_reads. apply processLoop_calls. intros doc. now split.
  - intros [counts [|note notes]] s' e'.
    + apply writesPhase_reads. exact Logic.I.
    + apply writesPhase_tbind; [now apply writesPhase_call|].
      intros [] s'' e''. apply writesPhase_reads. exact Logic.I.
Qed.

Lemma succeeded_calls (P : forall A, SyncCall A -> Prop) (n : Z) :
  calls_only P (succeeded n).
Proof. unfold succeeded. tree. Qed.

Lemma fullSyncTry_twoPhases {E} (env : Env SyncCall E) s e :
  twoPhases (trace (run env fullSyncTry s e)).
Proof.
  unfold fullSyncTry.
  apply twoPhases_tbind; [now apply writesPhase_call|]. intros documents s1 e1.
  apply twoPhases_tbind;
    [apply writesPhase_await, processDocuments_writesPhase|].
  intros result s2 e2. apply twoPhases_rest.
  unfold persistCursor. tree; try apply succeeded_calls; reflexivity.
Qed.

Lemma incrementalSyncTry_twoPhases {E} (env : Env SyncCall E) s e :
  twoPhases (trace (run env incrementalSyncTry s e)).
Proof.
  unfold incrementalSyncTry.
  apply twoPhases_tbind; [apply writesPhase_reads; intros st; exact Logic.I|].
  intros st s1 e1.
  apply twoPhases_tbind; [now apply writesPhase_call|]. intros changes s2 e2.
  destruct (results changes) as [[|first more]|];
    try (apply twoPhases_rest, succeeded_calls).
  destruct (classify (first :: more) [] []) as [changedDocs deletedIds].
  apply twoPhases_tbind.
  { destruct changedDocs as [|doc docs].
    - apply writesPhase_reads. exact Logic.I.
    - apply writesPhase_tbind;
        [apply writesPhase_await, processDocuments_writesPhase|].
      intros result s' e'. apply writesPhase_reads. exact Logic.I. }
  intros processedChanged s3 e3.
  apply twoPhases_tbind.
  { destruct deletedIds as [|deletedId ids].
    - apply writesPhase_reads. exact Logic.I.
    - now apply writesPhase_call. }
  intros [] s4 e4. apply twoPhases_rest.
  unfold persistCursor. tree; try apply succeeded_calls; reflexivity.
Qed.

Lemma twoPhases_tick (t : list SyncEvent) (st : SyncStatus) :
  twoPhases t -> twoPhases (t ++ [mkEvent st Ticked]).
Proof.
  intros (t1 & t2 & -> & H1 & H2 & H3).
  exists t1, (t2 ++ [mkEvent st Ticked])%list. rewrite app_assoc.
  repeat split; auto.
  - apply Forall_app. split; [exact H2 | repeat constructor].
  - intros Hex. apply H3. apply Exists_app in Hex as [Hex|Hex]; [exact Hex|].
    inversion Hex as [? ? Hc|? ? Hc]; [discriminate | inversion Hc].
Qed.

(** C3. In every run of [sync], full or incremental, the cursor is written
    to the state storage only after the writes of the pass to the note
    repository: each [saveMany] and [deleteMany] before the [updateState]
    was awaited and fulfilled, and none follows it. *)
Theorem cursor_written_after_notes E (env : Env SyncCall E) (st : SyncStatus) (e : E) :
  forall before ev afterwards,
    trace (run env sync st e) = (before ++ ev :: afterwards)%list ->
    isCursorWrite ev = true ->
    Forall (fun w => isRepoWrite w = true -> fulfilled w = true) before
    /\ Forall (fun w => isRepoWrite w = false) afterwards.
Proof.
  change (cursorAfterWrites (trace (run env sync st e))).
  apply twoPhases_cursorAfterWrites.
  destruct (isRunning st) eqn:Hguard.
  - rewrite (sync_busy E env st e Hguard). simpl.
    exists [], []. repeat split; auto.
  - rewrite (sync_idle E env st e Hguard). simpl.
    destruct (pass_guarded E env st e Hguard) as (_ & _ & -> & _).
    apply twoPhases_tick.
    destruct (Js.truthy_string (lastSeq st));
      [apply incrementalSyncTry_twoPhases | apply fullSyncTry_twoPhases].
Qed.

(** ** A full sync and the notes already stored *)

Lemma get_set_other {V} (k k' : string) (v : V) (m : Js.Map V) :
  k <> k' -> Js.get k (Js.set k' v m) = Js.get k m.
Proof.
  intros Hne. induction m as [|[k0 v0] m IH]; simpl.
  - destruct (String.eqb_spec k k'); [contradiction | reflexivity].
  - destruct (String.eqb_spec k' k0) as [->|Hk0]; simpl.
    + destruct (String.eqb_spec k k0); [contradiction | reflexivity].
    + destruct (String.eqb_spec k k0); [reflexivity | exact IH].
Qed.

Lemma get_saveMany_other (k : string) (many : list Note) :
  forall notes,
    ~ In k (map id many) ->
    MemoryNoteRepository.get k (MemoryNoteRepository.saveMany many notes)
    = MemoryNoteRepository.get k notes.
Proof.
  unfold MemoryNoteRepository.get, MemoryNoteRepository.saveMany.
  induction many as [|note many IH]; intros notes Hnot; simpl; [reflexivity|].
  simpl in Hnot. rewrite IH by tauto. apply get_set_other. intros ->. tauto.
Qed.

(** The repository after a run is the repository before it, with the
    repository calls of the trace replayed. *)
Lemma memory_repository_replay {E R} (base : Env SyncCall E) (p : Async SyncStatus SyncCall R) :
  forall s e notes,
    let o := run (withMemoryRepository base) p s (e, notes) in
    snd (world o) = replay (trace o) notes.
Proof.
  unfold replay.
  induction p as [r | k IH | s' k IH | k IH | k IH | A c k IH];
    intros s e notes; simpl.
  - reflexivity.
  - apply IH.
  - apply IH.
  - apply IH.
  - apply IH.
  - destruct c; simpl;
      try (destruct (handle base _ e) as [r e']; simpl);
      apply IH.
Qed.

Lemma replay_frame (noteId : string) (t : list SyncEvent) :
  forall notes,
    Forall (fun ev => isRepoDelete ev = false) t ->
    ~ In noteId (upserted t) ->
    MemoryNoteRepository.get noteId (replay t notes)
    = MemoryNoteRepository.get noteId notes.
Proof.
  unfold replay, upserted.
  induction t as [|ev t IH]; intros notes Hnodel Hnot; simpl; [reflexivity|].
  inversion Hnodel as [|? ? Hev Ht]; subst.
  simpl in Hnot. rewrite in_app_iff in Hnot.
  rewrite IH by tauto.
  destruct ev as [st [A c r|]]; [|reflexivity].
  unfold replayEvent, upsertedBy, isRepoDelete, onCall in *. simpl in *.
  destruct c; try reflexivity; try discriminate.
  - apply get_set_other. simpl in Hnot. intros ->. tauto.
  - apply get_saveMany_other. tauto.
Qed.

Lemma fullSyncTry_never_deletes :
  calls_only (fun A c => repoDeleteCall c = false) fullSyncTry.
Proof.
  unfold fullSyncTry, persistCursor.
  tree; try apply succeeded_calls; try reflexivity.
  apply processDocuments_calls; reflexivity.
Qed.

(** C9. A full sync pass issues no delete to the note repository; on a
    [MemoryNoteRepository], a note whose id is not among those the pass
    upserts is after the pass what it was before it. *)
Theorem full_sync_never_deletes E (env : Env SyncCall E) (st : SyncStatus) (e : E)
    (notes : MemoryNoteRepository.This) :
  Js.truthy_string (lastSeq st) = false ->
  Forall (fun ev => isRepoDelete ev = false) (trace (run env sync st e))
  /\ (let o := run (withMemoryRepository env) sync st (e, notes) in
      Forall (fun ev => isRepoDelete ev = false) (trace o)
      /\ forall noteId,
           ~ In noteId (upserted (trace o)) ->
           MemoryNoteRepository.get noteId (snd (world o))
           = MemoryNoteRepository.get noteId notes)
  /\ (forall doc,
        Js.truthy_bool (deleted doc) = true \/ Js.truthy_bool (_deleted doc) = true ->
        skipped doc = true).
Proof.
  intros Hfull.
  assert (Hnodel : forall E' (env' : Env SyncCall E') e',
             Forall (fun ev => isRepoDelete ev = false)
                    (trace (run env' sync st e'))).
  { intros E' env' e'. destruct (isRunning st) eqn:Hguard.
    - rewrite (sync_busy E' env' st e' Hguard). constructor.
    - rewrite (sync_idle E' env' st e' Hguard). simpl.
      destruct (pass_guarded E' env' st e' Hguard) as (_ & _ & -> & _).
      rewrite Hfull. apply Forall_app. split; [|repeat constructor].
      pose proof (calls_only_run _ env' fullSyncTry fullSyncTry_never_deletes
                    (set_isRunning true st) e') as Ht.
      eapply Forall_impl; [|exact Ht].
      intros [s [A c r|]]; unfold is_call, isRepoDelete, onCall; simpl; auto. }
  split; [apply Hnodel|]. simpl. split; [split; [apply Hnodel|]|].
  - intros noteId Hnot. rewrite memory_repository_replay.
    apply replay_frame; [apply Hnodel | exact Hnot].
  - intros doc Htomb. unfold skipped.
    destruct Htomb as [-> | ->];
      rewrite ?orb_true_r; reflexivity.
Qed.

End SyncFacts.

(* ================================================================== *)
(** * Properties of the note repositories *)

Section SearchFacts.

Lemma prefix_empty (s : string) : String.prefix "" s = true.
Proof. now destruct s. Qed.

Lemma includes_empty (s : string) : Js.includes s "" = true.
Proof. destruct s; simpl; now rewrite ?prefix_empty. Qed.

Lemma filter_all {A} (f : A -> bool) (l : list A) :
  (forall x, f x = true) -> filter f l = l.
Proof.
  intros Hf. induction l as [|x l IH]; simpl; [reflexivity|].
  now rewrite Hf, IH.
Qed.

(** [DiskNoteRepository.search] answers a blank query with the empty list
    and any other with the notes whose path or content contains it. *)
Lemma disk_search_blank (query : string) (all : list Note) :
  Js.trim query = "" -> DiskNoteRepository.search query all = [].
Proof. intros Hblank. unfold DiskNoteRepository.search. now rewrite Hblank. Qed.

Lemma disk_search_not_blank (query : string) (all : list Note) :
  Js.trim query <> "" ->
  DiskNoteRepository.search query all
  = filter (fun note =>
              Js.includes (Js.toLowerCase (note_path note)) (Js.toLowerCase query)
              || Js.includes (Js.toLowerCase (content note)) (Js.toLowerCase query))
           all.
Proof.
  intros Hquery. unfold DiskNoteRepository.search.
  destruct (Js.trim query); [congruence | reflexivity].
Qed.

(** C8 fails on [MemoryNoteRepository]: its [search] has no test for a
    blank query.  The empty query returns every stored note, and a query of
    spaces returns the notes that contain those spaces;
    [DiskNoteRepository.search] returns the empty list for both. *)
Theorem memory_search_blank_returns_notes :
  (forall notes : MemoryNoteRepository.This,
      MemoryNoteRepository.search "" notes = MemoryNoteRepository.getAll notes)
  /\ (let note := mkNote "note-id" "folder/note.md" "Hello   world" 0 0 42 in
      let notes := MemoryNoteRepository.save note [] in
      MemoryNoteRepository.search "" notes = [note]
      /\ MemoryNoteRepository.search "   " notes = [note]
      /\ DiskNoteRepository.search "" (MemoryNoteRepository.getAll notes) = []
      /\ DiskNoteRepository.search "   " (MemoryNoteRepository.getAll notes) = []).
Proof.
  split.
  - intros notes. unfold MemoryNoteRepository.search, MemoryNoteRepository.getAll.
    apply filter_all. intros note. simpl. now rewrite includes_empty.
  - repeat split.
Qed.

End SearchFacts.

(* ================================================================== *)
(** * The crypto and the service on concrete runs *)

Module ServiceScenarios.
Import Example SyncService.

(** C5 fails as stated: the store holds no sync-parameters document; the
    first attempt to decrypt a marked payload fails on the salt, and the
    second attempt queries the store for it again. *)
Lemma salt_requeried_after_failure_counterexample :
  let attempt := LiveSyncCrypto.decrypt "correct horse" "%=ciphertext" in
  let first := run (store []) attempt None tt in
  let second := run (store []) attempt (final first) (world first) in
  result first
  = Throw ("Decryption failed: Failed to load encryption salt: "
           ++ "Sync parameters document not found. Make sure the database is a valid LiveSync database with encryption enabled.")
  /\ saltQueries (trace first) = 1%nat
  /\ final first = None
  /\ result second = result first
  /\ saltQueries (trace second) = 1%nat
  /\ saltQueries (trace second) <> 0%nat.
Proof. repeat split. discriminate. Qed.

(** The same with a sync-parameters document that lacks [pbkdf2salt]. *)
Example salt_requeried_when_field_missing :
  let attempt := LiveSyncCrypto.decrypt "correct horse" "%=ciphertext" in
  let params := doc LiveSyncCrypto.SYNC_PARAMS_DOCID in
  let first := run (store [params]) attempt None tt in
  let second := run (store [params]) attempt (final first) (world first) in
  result first
  = Throw "Decryption failed: Failed to load encryption salt: pbkdf2salt not found in sync parameters document"
  /\ saltQueries (trace first) = 1%nat
  /\ saltQueries (trace second) = 1%nat.
Proof. repeat split. Qed.

Lemma salt_cached_by_successful_fetch_witness :
  let params := with_salt "c2FsdA==" (doc LiveSyncCrypto.SYNC_PARAMS_DOCID) in
  let first := run (store [params]) (LiveSyncCrypto.decrypt "correct horse" "%=Hello") None tt in
  let second := run (store [params]) (LiveSyncCrypto.decrypt "correct horse" "%=World")
                    (final first) (world first) in
  saltQueries (trace first) = 1%nat
  /\ final first = Some (base64_bytes "c2FsdA==")
  /\ saltQueries (trace second) = 0%nat.
Proof.
  cbv zeta.
  pose proof (salt_cached_by_successful_fetch "correct horse" "%=Hello" unit
                (store [with_salt "c2FsdA==" (doc LiveSyncCrypto.SYNC_PARAMS_DOCID)])
                tt eq_refl) as [_ (Hq & Hf & _)].
  split; [exact Hq|]. split; [exact Hf|].
  cbv zeta in Hf. rewrite Hf.
  exact (proj1 (proj1 (salt_cached_by_successful_fetch "correct horse" "%=World" unit
                (store [with_salt "c2FsdA==" (doc LiveSyncCrypto.SYNC_PARAMS_DOCID)])
                tt eq_refl) _)).
Defined.

(** The failing input of C4: the state storage holds a cursor, the note
    repository is empty. [initialize] adopts the cursor without a call on
    the repository, and the [sync] that follows fetches the changes since
    that cursor, not all documents. *)
Theorem initialize_keeps_cursor_over_empty_repository :
  let env := withMemoryRepository (remote [] "7" (mkChanges (Some []) "42-abc")) in
  let booted := run env initialize new (mkState (Some "42-abc") None, []) in
  let synced := run env sync (final booted) (world booted) in
  MemoryNoteRepository.count (snd (world booted)) = 0
  /\ existsb isRepoCall (trace booted) = false
  /\ lastSeq (final booted) = Some "42-abc"
  /\ existsb isFullFetch (trace synced) = false
  /\ map ev_susp (filter isChangesFetch (trace synced))
     = [Called (ClientGetChanges (Some "42-abc")) (Ok (mkChanges (Some []) "42-abc"))].
Proof. repeat split. Qed.

(** A first [sync] without cursor fetches all documents and not the
    changes; the second, with the cursor now set, fetches the changes and
    not all documents. *)
Example full_then_incremental :
  let env := withMemoryRepository (remote [] "7" (mkChanges (Some []) "7")) in
  let first := run env sync new (mkState None None, []) in
  let second := run env sync (final first) (world first) in
  map isFullFetch (filter isStoreCall (trace first)) = [true; false]
  /\ existsb isChangesFetch (trace first) = false
  /\ lastSeq (final first) = Some "7"
  /\ fst (world first) = mkState (Some "7") (Some 1700000000000)
  /\ map isChangesFetch (filter isStoreCall (trace second)) = [true]
  /\ existsb isFullFetch (trace second) = false.
Proof. repeat split. Qed.

Lemma run_exclusivity_witness :
  (let busy := set_isRunning true new in
   run unreachable sync busy tt = mkOutcome (Ok tt) busy tt [])
  /\ (let o := run unreachable sync new tt in
      result o = Throw "Database connection failed"
      /\ isRunning (final o) = false).
Proof.
  split.
  - exact (proj1 (run_exclusivity unit unreachable (set_isRunning true new) tt) eq_refl).
  - split; [reflexivity|].
    exact (proj1 (proj2 (run_exclusivity unit unreachable new tt) eq_refl)).
Defined.

Lemma cursor_written_after_notes_witness :
  let note := with_note "plain" "a.md" (with_data "hello" (doc "a.md")) in
  let env := withMemoryRepository (remote [note] "7" (mkChanges (Some []) "9")) in
  let t := trace (run env sync new (mkState None None, [])) in
  map isRepoWrite t = [false; false; true; false; false; false; false; false]
  /\ map isCursorWrite t = [false; false; false; false; false; false; true; false]
  /\ Forall (fun w => isRepoWrite w = true -> fulfilled w = true) (firstn 6 t)
  /\ Forall (fun w => isRepoWrite w = false) (skipn 7 t).
Proof.
  cbv zeta. split; [reflexivity|]. split; [reflexivity|].
  apply (cursor_written_after_notes _
           (withMemoryRepository
              (remote [with_note "plain" "a.md" (with_data "hello" (doc "a.md"))]
                      "7" (mkChanges (Some []) "9")))
           new (mkState None None, [])
           _ (nth 6 (trace (run
                (withMemoryRepository
                   (remote [with_note "plain" "a.md" (with_data "hello" (doc "a.md"))]
                           "7" (mkChanges (Some []) "9")))
                sync new (mkState None None, []))) (mkEvent new Ticked)) _);
    reflexivity.
Defined.

Lemma full_sync_never_deletes_witness :
  let fresh := with_note "plain" "a.md" (with_data "hello" (doc "a.md")) in
  let gone := mkDoc "old.md" None (Some "plain") (Some "old.md") (Some "x")
                    None None None None None (Some true) None None in
  let old := mkNote "old.md" "old.md" "kept" 0 0 4 in
  let o := run (withMemoryRepository (remote [fresh; gone] "7" (mkChanges None "7")))
               sync new (mkState None None, [("old.md", old)]) in
  upserted (trace o) = ["a.md"]
  /\ Forall (fun ev => isRepoDelete ev = false) (trace o)
  /\ MemoryNoteRepository.get "old.md" (snd (world o)) = Some old
  /\ skipped gone = true.
Proof.
  cbv zeta. split; [reflexivity|].
  pose proof (full_sync_never_deletes _
                (remote [with_note "plain" "a.md" (with_data "hello" (doc "a.md"));
                         mkDoc "old.md" None (Some "plain") (Some "old.md") (Some "x")
                               None None None None None (Some true) None None]
                        "7" (mkChanges None "7"))
                new (mkState None None)
                [("old.md", mkNote "old.md" "old.md" "kept" 0 0 4)] eq_refl)
    as (_ & (Hnodel & Hframe) & Hskip).
  split; [exact Hnodel|]. split.
  - etransitivity; [apply (Hframe "old.md") | reflexivity].
    intros [Heq | []]. discriminate.
  - apply Hskip. now left.
Defined.

End ServiceScenarios.

(* ================================================================== *)
(** * More on [MemoryNoteRepository] *)

Section MapFacts.
Context {V : Type}.

Lemma get_set_same (k : string) (v : V) (m : Js.Map V) :
  Js.get k (Js.set k v m) = Some v.
Proof.
  induction m as [|[k0 v0] m IH]; simpl.
  - now rewrite String.eqb_refl.
  - destruct (String.eqb_spec k k0) as [->|Hne]; simpl.
    + now rewrite String.eqb_refl.
    + destruct (String.eqb_spec k k0); [contradiction | exact IH].
Qed.

Lemma get_none_keys (k : string) (m : Js.Map V) :
  Js.get k m = None <-> ~ In k (Js.keys m).
Proof.
  induction m as [|[k0 v0] m IH]; simpl; [tauto|].
  destruct (String.eqb_spec k k0) as [->|Hne].
  - split; [discriminate | intros Hn; exfalso; apply Hn; now left].
  - rewrite IH. split; [intros Hn [Heq|Hin]; [congruence | tauto] | tauto].
Qed.

Lemma keys_set (k : string) (v : V) (m : Js.Map V) :
  Js.keys (Js.set k v m)
  = match Js.get k m with
    | Some _ => Js.keys m
    | None => (Js.keys m ++ [k])%list
    end.
Proof.
  induction m as [|[k0 v0] m IH]; simpl; [reflexivity|].
  destruct (String.eqb_spec k k0) as [->|Hne]; simpl; [reflexivity|].
  unfold Js.keys in *. rewrite IH. now destruct (Js.get k m).
Qed.

Lemma set_keeps_keys_unique (k : string) (v : V) (m : Js.Map V) :
  NoDup (Js.keys m) -> NoDup (Js.keys (Js.set k v m)).
Proof.
  intros Hnd. rewrite keys_set. destruct (Js.get k m) eqn:Hget; [exact Hnd|].
  apply get_none_keys in Hget.
  apply NoDup_app; [exact Hnd | repeat constructor; auto |].
  intros x Hx [<-|[]]. contradiction.
Qed.

Lemma length_set (k : string) (v : V) (m : Js.Map V) :
  List.length (Js.set k v m)
  = match Js.get k m with
    | Some _ => List.length m
    | None => Datatypes.S (List.length m)
    end.
Proof.
  induction m as [|[k0 v0] m IH]; simpl; [reflexivity|].
  destruct (String.eqb_spec k k0) as [->|Hne]; simpl; [reflexivity|].
  rewrite IH. now destruct (Js.get k m).
Qed.

Lemma delete_absent (k : string) (m : Js.Map V) :
  Js.get k m = None -> Js.delete k m = m.
Proof.
  induction m as [|[k0 v0] m IH]; simpl; [reflexivity|].
  destruct (String.eqb_spec k k0) as [->|Hne]; [discriminate|].
  intros Hget. now rewrite IH.
Qed.

Lemma keys_delete_subset (k x : string) (m : Js.Map V) :
  In x (Js.keys (Js.delete k m)) -> In x (Js.keys m).
Proof.
  induction m as [|[k0 v0] m IH]; simpl; [tauto|].
  destruct (String.eqb_spec k k0) as [->|Hne]; simpl; tauto.
Qed.

Lemma delete_keeps_keys_unique (k : string) (m : Js.Map V) :
  NoDup (Js.keys m) -> NoDup (Js.keys (Js.delete k m)).
Proof.
  induction m as [|[k0 v0] m IH]; simpl; intros Hnd; [constructor|].
  inversion Hnd as [|? ? Hnot Hnd']; subst.
  destruct (String.eqb_spec k k0) as [->|Hne]; simpl; [exact Hnd'|].
  constructor; [|apply IH, Hnd'].
  intros Hin. apply Hnot. eapply keys_delete_subset, Hin.
Qed.

Lemma get_delete_same (k : string) (m : Js.Map V) :
  NoDup (Js.keys m) -> Js.get k (Js.delete k m) = None.
Proof.
  induction m as [|[k0 v0] m IH]; simpl; intros Hnd; [reflexivity|].
  inversion Hnd as [|? ? Hnot Hnd']; subst.
  destruct (String.eqb_spec k k0) as [->|Hne]; simpl.
  - now apply get_none_keys.
  - destruct (String.eqb_spec k k0); [contradiction | apply IH, Hnd'].
Qed.

Lemma get_delete_other (k k' : string) (m : Js.Map V) :
  k <> k' -> Js.get k (Js.delete k' m) = Js.get k m.
Proof.
  intros Hne. induction m as [|[k0 v0] m IH]; simpl; [reflexivity|].
  destruct (String.eqb_spec k' k0) as [->|Hk0]; simpl.
  - destruct (String.eqb_spec k k0); [contradiction | reflexivity].
  - destruct (String.eqb_spec k k0); [reflexivity | exact IH].
Qed.

Lemma length_delete (k : string) (m : Js.Map V) :
  List.length (Js.delete k m)
  = match Js.get k m with
    | Some _ => Nat.pred (List.length m)
    | None => List.length m
    end.
Proof.
  induction m as [|[k0 v0] m IH]; simpl; [reflexivity|].
  destruct (String.eqb_spec k k0) as [->|Hne]; simpl; [reflexivity|].
  rewrite IH. destruct (Js.get k m) eqn:Hget; [|reflexivity].
  destruct m; [discriminate | reflexivity].
Qed.

End MapFacts.

Section MemoryRepositoryFacts.
Import MemoryNoteRepository.

(** X1. [save] then [get] of the same id returns the note saved; the notes
    of the other ids are untouched; the count grows by one for a new id and
    stays for an id already stored, whose note is replaced. *)
Theorem save_then_get (note : Note) (notes : This) :
  get (id note) (save note notes) = Some note
  /\ (forall other, other <> id note -> get other (save note notes) = get other notes)
  /\ count (save note notes)
     = match get (id note) notes with
       | Some _ => count notes
       | None => count notes + 1
       end.
Proof.
  unfold get, save, count. split; [apply get_set_same|]. split.
  - intros other Hother. now apply get_set_other.
  - rewrite length_set. destruct (Js.get (id note) notes); lia.
Qed.

(** X2. On a repository with unique keys, [delete] then [get] of the same
    id returns nothing; the notes of the other ids are untouched; deleting
    an id that is not stored changes nothing. *)
Theorem delete_then_get (noteId : string) (notes : This) :
  NoDup (Js.keys notes) ->
  get noteId (delete noteId notes) = None
  /\ (forall other, other <> noteId -> get other (delete noteId notes) = get other notes)
  /\ (get noteId notes = None -> delete noteId notes = notes)
  /\ count (delete noteId notes)
     = match get noteId notes with
       | Some _ => count notes - 1
       | None => count notes
       end.
Proof.
  intros Hnd. unfold get, delete, count.
  split; [now apply get_delete_same|]. split.
  - intros other Hother. now apply get_delete_other.
  - split; [apply delete_absent|].
    rewrite length_delete. destruct (Js.get noteId notes) eqn:Hget; [|reflexivity].
    destruct notes as [|entry rest]; [discriminate|].
    change (List.length (entry :: rest)) with (Datatypes.S (List.length rest)).
    rewrite Nat.pred_succ. lia.
Qed.

Lemma save_wellKeyed (note : Note) (notes : This) :
  wellKeyed notes -> wellKeyed (save note notes).
Proof.
  intros [Hnd Hid]. split; [now apply set_keeps_keys_unique|].
  unfold save. induction notes as [|[k0 n0] notes IH]; simpl.
  - repeat constructor.
  - inversion Hid as [|? ? Hk0 Hrest]; subst.
    inversion Hnd as [|? ? _ Hnd']; subst.
    destruct (String.eqb (id note) k0); constructor; auto.
Qed.

Lemma saveMany_wellKeyed (many : list Note) :
  forall notes, wellKeyed notes -> wellKeyed (saveMany many notes).
Proof.
  unfold saveMany. induction many as [|note many IH]; intros notes Hwk; simpl.
  - exact Hwk.
  - apply IH. now apply save_wellKeyed.
Qed.

Lemma delete_wellKeyed (noteId : string) (notes : This) :
  wellKeyed notes -> wellKeyed (delete noteId notes).
Proof.
  intros [Hnd Hid]. split; [now apply delete_keeps_keys_unique|].
  unfold delete. clear Hnd. induction notes as [|[k0 n0] notes IH]; simpl.
  - constructor.
  - inversion Hid as [|? ? Hk0 Hrest]; subst.
    destruct (String.eqb noteId k0); [exact Hrest|]. constructor; auto.
Qed.

Lemma deleteMany_wellKeyed (ids : list string) :
  forall notes, wellKeyed notes -> wellKeyed (deleteMany ids notes).
Proof.
  unfold deleteMany. induction ids as [|noteId ids IH]; intros notes Hwk; simpl.
  - exact Hwk.
  - apply IH. now apply delete_wellKeyed.
Qed.

Lemma applyOp_wellKeyed (op : RepositoryOp) (notes : This) :
  wellKeyed notes -> wellKeyed (applyOp notes op).
Proof.
  destruct op; simpl.
  - apply save_wellKeyed.
  - apply saveMany_wellKeyed.
  - apply delete_wellKeyed.
  - apply deleteMany_wellKeyed.
Qed.

Lemma history_wellKeyed (history : list RepositoryOp) :
  forall notes, wellKeyed notes -> wellKeyed (fold_left applyOp history notes).
Proof.
  induction history as [|op history IH]; intros notes Hwk; simpl.
  - exact Hwk.
  - apply IH. now apply applyOp_wellKeyed.
Qed.

Lemma wellKeyed_get (notes : This) (k : string) (note : Note) :
  wellKeyed notes -> get k notes = Some note ->
  id note = k /\ In note (getAll notes).
Proof.
  intros [_ Hid]. unfold get, getAll, Js.values.
  induction notes as [|[k0 n0] notes IH]; simpl; [discriminate|].
  inversion Hid as [|? ? Hk0 Hrest]; subst. simpl in Hk0.
  destruct (String.eqb_spec k k0) as [->|Hne].
  - intros [= ->]. split; [now symmetry | now left].
  - intros Hget. destruct (IH Hrest Hget). split; [assumption | now right].
Qed.

Lemma wellKeyed_ids (notes : This) :
  wellKeyed notes -> map id (getAll notes) = Js.keys notes.
Proof.
  intros [_ Hid]. unfold getAll, Js.values, Js.keys.
  induction notes as [|[k0 n0] notes IH]; simpl; [reflexivity|].
  inversion Hid as [|? ? Hk0 Hrest]; subst. simpl in Hk0.
  now rewrite IH, Hk0.
Qed.

Lemma wellKeyed_in (notes : This) (note : Note) :
  wellKeyed notes -> In note (getAll notes) -> get (id note) notes = Some note.
Proof.
  intros [Hnd Hid]. unfold get, getAll, Js.values, Js.keys in *.
  induction notes as [|[k0 n0] notes IH]; simpl; intros Hin; [contradiction|].
  inversion Hid as [|? ? Hk0 Hrest]; subst. simpl in Hk0. subst k0.
  inversion Hnd as [|? ? Hnot Hnd']; subst.
  destruct Hin as [->|Hin]; [now rewrite String.eqb_refl|].
  destruct (String.eqb_spec (id note) (id n0)) as [Heq|Hne]; [|now apply IH].
  exfalso. apply Hnot. rewrite <- Heq.
  apply in_map_iff in Hin as ([k1 n1] & Hn1 & Hin1). simpl in Hn1. subst n1.
  rewrite Forall_forall in Hrest. specialize (Hrest _ Hin1). simpl in Hrest.
  subst k1. apply in_map_iff. now exists (id note, note).
Qed.

(** X3. Whatever calls of [save], [saveMany], [delete] and [deleteMany] a
    repository has seen since it was created, no two of its notes share an
    id, a note found under an id has that id and is among the notes that
    [getAll] lists, and [count] is the number of the ids. *)
Theorem repository_keeps_one_note_per_id (history : list RepositoryOp) :
  let notes := fold_left applyOp history [] in
  NoDup (map id (getAll notes))
  /\ (forall noteId note,
        get noteId notes = Some note ->
        id note = noteId /\ In note (getAll notes))
  /\ (forall note, In note (getAll notes) -> get (id note) notes = Some note)
  /\ count notes = Z.of_nat (List.length (map id (getAll notes))).
Proof.
  intros notes.
  assert (Hwk : wellKeyed notes).
  { apply history_wellKeyed. split; constructor. }
  split; [rewrite (wellKeyed_ids _ Hwk); apply Hwk|]. split.
  - intros noteId note. now apply wellKeyed_get.
  - split.
    + intros note. now apply wellKeyed_in.
    + unfold count, getAll, Js.values. now rewrite !length_map.
Qed.

Lemma find_app_first {A} (f : A -> bool) (l1 l2 : list A) :
  find f (l1 ++ l2)
  = match find f l1 with Some x => Some x | None => find f l2 end.
Proof.
  induction l1 as [|x l1 IH]; simpl; [reflexivity|]. now destruct (f x).
Qed.

Lemma get_saveMany (many : list Note) :
  forall notes noteId,
    get noteId (saveMany many notes)
    = match find (fun note => String.eqb (id note) noteId) (rev many) with
      | Some note => Some note
      | None => get noteId notes
      end.
Proof.
  unfold get, saveMany.
  induction many as [|note many IH]; intros notes noteId; simpl; [reflexivity|].
  rewrite IH, find_app_first.
  destruct (find _ (rev many)); [reflexivity|]. simpl.
  destruct (String.eqb_spec (id note) noteId) as [<-|Hne].
  - apply get_set_same.
  - apply get_set_other. congruence.
Qed.

Lemma get_deleteMany (ids : list string) :
  forall notes noteId,
    NoDup (Js.keys notes) ->
    get noteId (deleteMany ids notes)
    = if existsb (String.eqb noteId) ids then None else get noteId notes.
Proof.
  unfold get, deleteMany.
  induction ids as [|k ids IH]; intros notes noteId Hnd; simpl; [reflexivity|].
  rewrite IH by now apply delete_keeps_keys_unique.
  destruct (existsb (String.eqb noteId) ids) eqn:Hrest;
    [now rewrite orb_true_r|]. rewrite orb_false_r.
  destruct (String.eqb_spec noteId k) as [->|Hne].
  - now apply get_delete_same.
  - now apply get_delete_other.
Qed.

(** X4. After [saveMany], an id reads the last note of the batch that
    carries it, and what it read before if the batch has none; after
    [deleteMany] on a repository with unique keys, the listed ids read
    nothing and every other id reads what it read before, whether or not
    the listed ids were stored. *)
Theorem bulk_writes (notes : This) (noteId : string) :
  NoDup (Js.keys notes) ->
  (forall many,
      get noteId (saveMany many notes)
      = match find (fun note => String.eqb (id note) noteId) (rev many) with
        | Some note => Some note
        | None => get noteId notes
        end)
  /\ (forall ids,
        get noteId (deleteMany ids notes)
        = if existsb (String.eqb noteId) ids then None else get noteId notes).
Proof.
  intros Hnd. split.
  - intros many. apply get_saveMany.
  - intros ids. now apply get_deleteMany.
Qed.

Lemma prefix_occurs (p s : string) :
  String.prefix p s = true <-> exists rest, s = p ++ rest.
Proof.
  revert s. induction p as [|c p IH]; intros s.
  - rewrite prefix_empty. split; [intros _; now exists s | reflexivity].
  - destruct s as [|c' s]; simpl;
      [split; [discriminate | intros [rest Hrest]; discriminate]|].
    destruct (ascii_dec c c') as [->|Hne].
    + rewrite IH. split; intros [rest Hrest]; exists rest; [now subst | now inversion Hrest].
    + split; [discriminate | intros [rest Hrest]; inversion Hrest; congruence].
Qed.



End MemoryRepositoryFacts.

(* ================================================================== *)
(** * More on [DiskNoteRepository.search] *)

Section BlankFacts.








End BlankFacts.

(* ================================================================== *)
(** * More on [SyncService] *)

Section ProcessFacts.
Import SyncService.

(** What one turn of the loop of [processDocuments] does for a document
    that passes the filter: one call on the assembler, and a note exactly
    when the assembler fulfilled with a content. *)
Lemma assembleNote_run {E} (env : Env SyncCall E) (doc : LiveSyncDocument) s e :
  let o := run env (try_catch (assembleNote doc) (fun _ => ret None)) s e in
  final o = s
  /\ world o = snd (handle env (AssembleDocument doc) e)
  /\ trace o = [mkEvent s (Called (AssembleDocument doc)
                                   (fst (handle env (AssembleDocument doc) e)))]
  /\ match fst (handle env (AssembleDocument doc) e) with
     | Ok (Some text) =>
         exists note,
           result o = Ok (Some note)
           /\ id note = _id doc
           /\ content note = text
           /\ note_path note = match path doc with Some p => p | None => "" end
     | _ => result o = Ok None
     end.
Proof.
  unfold assembleNote. simpl.
  destruct (handle env (AssembleDocument doc) e) as [[[text|]|message] e'];
    simpl; auto.
  destruct (mtime doc) as [m|]; [destruct (m =? 0)|];
    (destruct (ctime doc) as [c|]; [destruct (c =? 0)|]); simpl;
    (repeat split; try reflexivity);
    eexists; repeat split.
Qed.

Lemma skipped_surfaced (doc : LiveSyncDocument) :
  skipped doc = false <-> surfaced doc.
Proof.
  unfold skipped, surfaced. rewrite !orb_false_iff, !negb_false_iff. split.
  - intros [[[[[[Hh _] Hcolon] [Hd Hd']] Hpath] Htype] Hkind].
    repeat split; try assumption.
    + destruct (path doc) as [[|c p]|]; try discriminate.
      eexists. split; [reflexivity | discriminate].
    + destruct (type doc) as [t|]; [|discriminate].
      apply andb_false_iff in Hkind as [Hk|Hk]; apply negb_false_iff in Hk;
        apply String.eqb_eq in Hk; subst; auto.
  - intros (Hh & Hcolon & Hd & Hd' & (p & Hpath & Hp) & Htype).
    assert (Hplus : Js.startsWith (_id doc) "h:+" = false).
    { unfold Js.startsWith in *.
      destruct (String.prefix "h:+" (_id doc)) eqn:Hpre; [|reflexivity].
      apply prefix_occurs in Hpre as [rest Hrest].
      assert (String.prefix "h:" (_id doc) = true)
        by (apply prefix_occurs; exists ("+" ++ rest); now rewrite Hrest).
      congruence. }
    rewrite Hpath. destruct p as [|c p]; [congruence|].
    destruct Htype as [-> | ->]; repeat split; auto.
Qed.

Lemma no_repo_call_saves_nothing (t : list SyncEvent) :
  Forall (fun ev => isRepoCall ev = false) t -> saved t = [] /\ upserted t = [].
Proof.
  unfold saved, upserted. induction 1 as [|ev t Hev _ [IH1 IH2]]; simpl; [auto|].
  rewrite IH1, IH2, !app_nil_r.
  destruct ev as [st [A c r|]]; [|auto].
  unfold isRepoCall, savedBy, upsertedBy in *. simpl in *.
  destruct c; try discriminate; auto.
Qed.

(** The loop of [processDocuments]: it never throws and leaves the status
    alone; it calls the assembler only; each document adds one to exactly
    one counter, the skipped ones to [skippedCount], and the notes it adds
    are one per processed document, each from a surfaced document. *)
Lemma processLoop_run {E} (env : Env SyncCall E) (documents : list LiveSyncDocument) :
  forall counts notesToSave s e,
    let o := run env (processLoop documents counts notesToSave) s e in
    exists counts' added,
      result o = Ok (counts', (notesToSave ++ added)%list)
      /\ final o = s
      /\ processedCount counts' = processedCount counts + Z.of_nat (List.length added)
      /\ skippedCount counts'
         = skippedCount counts + Z.of_nat (List.length (filter skipped documents))
      /\ processedCount counts' + skippedCount counts' + errorCount counts'
         = processedCount counts + skippedCount counts + errorCount counts
           + Z.of_nat (List.length documents)
      /\ Forall (fun note =>
                   exists doc, In doc documents /\ surfaced doc
                               /\ id note = _id doc
                               /\ path doc = Some (note_path note)) added
      /\ Forall (fun ev => isAssemble ev = true) (trace o)
      /\ List.length (trace o)
         = List.length (filter (fun doc => negb (skipped doc)) documents)
      /\ errorCount counts <= errorCount counts'.
Proof.
  induction documents as [|doc rest IH]; intros counts notesToSave s e.
  - exists counts, []. simpl. rewrite app_nil_r. repeat split; try lia; constructor.
  - cbn [processLoop]. destruct (skipped doc) eqn:Hskip.
    + destruct (IH (mkProcessResult (processedCount counts) (skippedCount counts + 1)
                                    (errorCount counts)) notesToSave s e)
        as (counts' & added & Hres & Hfin & Hp & Hs & Hsum & Hfrom & Hcalls & Hlen & Herr).
      exists counts', added. cbn [filter]. rewrite Hskip. simpl negb. cbn iota.
      simpl in Hp, Hs, Hsum, Herr.
      repeat split; try assumption;
        try (cbn [List.length]; lia).
      eapply Forall_impl; [|exact Hfrom].
      intros note (d & Hin & Hd). exists d. split; [now right | exact Hd].
    + rewrite run_tbind.
      destruct (assembleNote_run env doc s e) as (Hfin1 & Hw1 & Ht1 & Hr1).
      cbv zeta in *.
      destruct (run env (try_catch (assembleNote doc) (fun _ => ret None)) s e)
        as [r1 s1 e1 t1]. simpl in Hfin1, Hw1, Ht1, Hr1. subst s1 t1.
      assert (Hdoc : surfaced doc) by now apply skipped_surfaced.
      destruct (fst (handle env (AssembleDocument doc) e)) as [[text|]|message].
      * destruct Hr1 as (note & -> & Hid & _ & Hpath). simpl.
        destruct (IH (mkProcessResult (processedCount counts + 1) (skippedCount counts)
                                      (errorCount counts))
                     (notesToSave ++ [note])%list s e1)
          as (counts' & added & Hres & Hfin & Hp & Hs & Hsum & Hfrom & Hcalls & Hlen & Herr).
        exists counts', (note :: added). cbn [filter]. rewrite Hskip.
        simpl in Hp, Hs, Hsum, Herr. unfold after. simpl.
        rewrite Hres, <- app_assoc. simpl.
        repeat split; try assumption; try (cbn [List.length]; lia).
        -- constructor.
           ++ exists doc. split; [now left|]. split; [exact Hdoc|].
              split; [exact Hid|].
              destruct Hdoc as (_ & _ & _ & _ & (p & Hp' & _) & _).
              rewrite Hp' in Hpath. now rewrite Hpath.
           ++ eapply Forall_impl; [|exact Hfrom].
              intros n (d & Hin & Hd). exists d. split; [now right | exact Hd].
        -- constructor; [reflexivity | exact Hcalls].
      * simpl in Hr1. subst r1. simpl.
        destruct (IH (mkProcessResult (processedCount counts) (skippedCount counts)
                                      (errorCount counts + 1)) notesToSave s e1)
          as (counts' & added & Hres & Hfin & Hp & Hs & Hsum & Hfrom & Hcalls & Hlen & Herr).
        exists counts', added. cbn [filter]. rewrite Hskip.
        simpl in Hp, Hs, Hsum, Herr. unfold after. simpl. rewrite Hres.
        repeat split; try assumption; try (cbn [List.length]; lia).
        -- eapply Forall_impl; [|exact Hfrom].
           intros n (d & Hin & Hd). exists d. split; [now right | exact Hd].
        -- constructor; [reflexivity | exact Hcalls].
      * simpl in Hr1. subst r1. simpl.
        destruct (IH (mkProcessResult (processedCount counts) (skippedCount counts)
                                      (errorCount counts + 1)) notesToSave s e1)
          as (counts' & added & Hres & Hfin & Hp & Hs & Hsum & Hfrom & Hcalls & Hlen & Herr).
        exists counts', added. cbn [filter]. rewrite Hskip.
        simpl in Hp, Hs, Hsum, Herr. unfold after. simpl. rewrite Hres.
        repeat split; try assumption; try (cbn [List.length]; lia).
        -- eapply Forall_impl; [|exact Hfrom].
           intros n (d & Hin & Hd). exists d. split; [now right | exact Hd].
        -- constructor; [reflexivity | exact Hcalls].
Qed.

Lemma assemble_is_no_repo_call (t : list SyncEvent) :
  Forall (fun ev => isAssemble ev = true) t ->
  Forall (fun ev => isRepoCall ev = false) t.
Proof.
  apply Forall_impl. intros [st [A c r|]]; unfold isAssemble, isRepoCall; simpl;
    [destruct c; congruence | discriminate].
Qed.

(** [processDocuments] as a whole: the loop, then one [saveMany] of the
    notes collected, if there are any. *)
Lemma processDocuments_run {E} (env : Env SyncCall E) (documents : list LiveSyncDocument) s e :
  let o := run env (processDocuments documents) s e in
  exists counts notes loop,
    final o = s
    /\ processedCount counts = Z.of_nat (List.length notes)
    /\ skippedCount counts = Z.of_nat (List.length (filter skipped documents))
    /\ processedCount counts + skippedCount counts + errorCount counts
       = Z.of_nat (List.length documents)
    /\ 0 <= errorCount counts
    /\ Forall (fun note =>
                 exists doc, In doc documents /\ surfaced doc
                             /\ id note = _id doc
                             /\ path doc = Some (note_path note)) notes
    /\ Forall (fun ev => isAssemble ev = true) loop
    /\ ((notes = [] /\ trace o = loop /\ result o = Ok counts)
        \/ (notes <> [] /\
            exists r,
              trace o = (loop ++ [mkEvent s (Called (RepoSaveMany notes) r)])%list
              /\ result o = match r with
                            | Ok _ => Ok counts
                            | Throw message => Throw message
                            end)).
Proof.
  unfold processDocuments. rewrite run_tbind.
  destruct (processLoop_run env documents (mkProcessResult 0 0 0) [] s e)
    as (counts & notes & Hres & Hfin & Hp & Hs & Hsum & Hfrom & Hcalls & _ & Herr).
  cbv zeta in *.
  destruct (run env (processLoop documents (mkProcessResult 0 0 0) []) s e)
    as [r1 s1 e1 t1]. simpl in *. subst r1 s1.
  exists counts, notes, t1.
  split; [destruct notes; simpl; [reflexivity|];
          destruct (handle env (RepoSaveMany _) e1) as [[[]|m] e2]; reflexivity|].
  split; [lia|]. split; [lia|]. split; [lia|]. split; [exact Herr|].
  split; [exact Hfrom|].
  split; [exact Hcalls|].
  destruct notes as [|note notes]; simpl.
  - left. rewrite app_nil_r. auto.
  - right. split; [discriminate|].
    destruct (handle env (RepoSaveMany (note :: notes)) e1) as [r e2].
    exists r. destruct r as [[]|m]; simpl; rewrite ?app_nil_r; auto.
Qed.

Lemma saved_after_loop (loop : list SyncEvent) (st : SyncStatus) (notes : list Note)
    (r : Res unit) :
  Forall (fun ev => isAssemble ev = true) loop ->
  saved (loop ++ [mkEvent st (Called (RepoSaveMany notes) r)]) = notes.
Proof.
  intros Hloop. unfold saved. rewrite flat_map_app.
  destruct (no_repo_call_saves_nothing loop (assemble_is_no_repo_call _ Hloop))
    as [Hsaved _].
  unfold saved in Hsaved. rewrite Hsaved. simpl. now rewrite app_nil_r.
Qed.

(** X7. When [processDocuments] fulfils, every document has been counted
    once, as processed, skipped or in error; [skippedCount] is the number
    of the documents that the filter drops, and [processedCount] the number
    of the notes handed to [saveMany]. *)
Theorem processDocuments_counts {E} (env : Env SyncCall E)
    (documents : list LiveSyncDocument) s e (counts : ProcessResult) :
  result (run env (processDocuments documents) s e) = Ok counts ->
  processedCount counts + skippedCount counts + errorCount counts
  = Z.of_nat (List.length documents)
  /\ skippedCount counts = Z.of_nat (List.length (filter skipped documents))
  /\ processedCount counts
     = Z.of_nat (List.length (saved (trace (run env (processDocuments documents) s e))))
  /\ 0 <= errorCount counts.
Proof.
  intros Hok.
  destruct (processDocuments_run env documents s e)
    as (counts' & notes & loop & _ & Hp & Hs & Hsum & Herr & _ & Hloop & Hend).
  cbv zeta in Hend.
  destruct Hend as [(-> & Ht & Hr) | (Hne & r & Ht & Hr)].
  - rewrite Hr in Hok. injection Hok as <-. rewrite Ht.
    destruct (no_repo_call_saves_nothing loop (assemble_is_no_repo_call _ Hloop))
      as [-> _].
    simpl in *. repeat split; lia.
  - rewrite Hr in Hok. destruct r as [[]|m]; [|discriminate].
    injection Hok as <-. rewrite Ht, (saved_after_loop _ _ _ _ Hloop).
    repeat split; lia.
Qed.

(** X8. No failure of the assembler makes [processDocuments] throw: it
    throws only when its one [saveMany], made after the last document, is
    rejected, and then with that error; otherwise it fulfils.  It never
    touches the status. *)
Theorem processDocuments_tolerates_assembly_failures {E} (env : Env SyncCall E)
    (documents : list LiveSyncDocument) s e :
  let o := run env (processDocuments documents) s e in
  final o = s
  /\ (Forall (fun ev => isRepoCall ev = true -> fulfilled ev = true) (trace o) ->
      exists counts, result o = Ok counts)
  /\ (forall message,
        result o = Throw message ->
        exists loop notes,
          trace o = (loop ++ [mkEvent s (Called (RepoSaveMany notes) (Throw message))])%list
          /\ Forall (fun ev => isAssemble ev = true) loop)
  /\ (List.length (filter isRepoCall (trace o)) <= 1)%nat.
Proof.
  destruct (processDocuments_run env documents s e)
    as (counts & notes & loop & Hfin & _ & _ & _ & _ & _ & Hloop & Hend).
  cbv zeta in *. split; [exact Hfin|].
  pose proof (assemble_is_no_repo_call _ Hloop) as Hquiet.
  assert (Hnone : filter isRepoCall loop = []).
  { clear - Hquiet. induction Hquiet as [|ev t Hev _ IH]; simpl; [reflexivity|].
    now rewrite Hev. }
  destruct Hend as [(-> & Ht & Hr) | (Hne & r & Ht & Hr)]; rewrite Ht, Hr.
  - split; [eauto|]. split; [discriminate|]. rewrite Hnone. simpl. lia.
  - split; [|split].
    + intros Hall. apply Forall_app in Hall as [_ Hlast].
      inversion Hlast as [|? ? Hev _]; subst.
      destruct r as [[]|m]; [eauto|]. discriminate (Hev eq_refl).
    + intros message Hthrow. destruct r as [[]|m]; [discriminate|].
      injection Hthrow as ->. now exists loop, notes.
    + rewrite filter_app, Hnone. simpl. lia.
Qed.

(** X9. Every note that [processDocuments] hands to [saveMany] carries the
    id and the path of one of the documents, and that document is surfaced:
    no chunk, no internal document, no tombstoned document, no document
    without path, none of another type than [newnote] and [plain]. *)
Theorem processDocuments_saves_surfaced_only {E} (env : Env SyncCall E)
    (documents : list LiveSyncDocument) s e :
  Forall (fun note =>
            exists doc,
              In doc documents /\ surfaced doc
              /\ id note = _id doc /\ path doc = Some (note_path note))
         (saved (trace (run env (processDocuments documents) s e))).
Proof.
  destruct (processDocuments_run env documents s e)
    as (counts & notes & loop & _ & _ & _ & _ & _ & Hfrom & Hloop & Hend).
  cbv zeta in *.
  destruct Hend as [(-> & Ht & _) | (_ & r & Ht & _)]; rewrite Ht.
  - destruct (no_repo_call_saves_nothing loop (assemble_is_no_repo_call _ Hloop))
      as [-> _]. constructor.
  - now rewrite (saved_after_loop _ _ _ _ Hloop).
Qed.

End ProcessFacts.

Section PassFacts.
Import SyncService.

(** X10. The loop of [incrementalSync] over the changes: a change whose id
    contains [':'] is passed over, even when it is flagged as deleted; of
    the others, those flagged as deleted, on the change or on its document,
    give their ids to [deletedIds], and the rest give their documents, when
    they carry one, to [changedDocs]; both in the order of the feed. *)
Theorem classify_by_filter (changes : list Change) :
  classify changes [] []
  = (flat_map (fun change =>
                 if isInternalChange change || isDeletion change then []
                 else match change_doc change with
                      | Some doc => [doc]
                      | None => []
                      end) changes,
     map change_id
         (filter (fun change => negb (isInternalChange change) && isDeletion change)
                 changes)).
Proof.
  enough (Hgen : forall changedDocs deletedIds,
             classify changes changedDocs deletedIds
             = ((changedDocs ++
                 flat_map (fun change =>
                             if isInternalChange change || isDeletion change then []
                             else match change_doc change with
                                  | Some doc => [doc]
                                  | None => []
                                  end) changes)%list,
                (deletedIds ++
                 map change_id
                     (filter (fun change =>
                                negb (isInternalChange change) && isDeletion change)
                             changes))%list))
    by apply (Hgen [] []).
  induction changes as [|change rest IH]; intros changedDocs deletedIds; simpl.
  - now rewrite !app_nil_r.
  - unfold isInternalChange at 1 3, isDeletion at 1 3.
    destruct (Js.includes (change_id change) ":"); simpl; [apply IH|].
    destruct (Js.truthy_bool (change_deleted change)
              || match change_doc change with
                 | Some doc => Js.truthy_bool (deleted doc) || Js.truthy_bool (_deleted doc)
                 | None => false
                 end); simpl.
    + rewrite IH, <- app_assoc. reflexivity.
    + destruct (change_doc change); rewrite IH, <- ?app_assoc; reflexivity.
Qed.

Lemma run_call {S C E A} (env : Env C E) (c : C A) (s : S) (e : E) :
  run env (call c) s e
  = mkOutcome (fst (handle env c e)) s (snd (handle env c e))
              [mkEvent s (Called c (fst (handle env c e)))].
Proof. simpl. now destruct (handle env c e). Qed.

Lemma run_await {S C E A} (env : Env C E) (m : Task S C A) (s : S) (e : E) :
  run env (await m) s e
  = let o := run env m s e in
    mkOutcome (result o) (final o) (world o)
              (trace o ++ [mkEvent (final o) Ticked]).
Proof. unfold await. now rewrite run_bind. Qed.

(** The pattern shared by both passes, with what it leaves behind. *)
Lemma guarded_outcome (body : M unit) E (env : Env SyncCall E) (st : SyncStatus) (e : E) :
  isRunning st = false ->
  run env
    (st <- read ;;
     if isRunning st then ret tt
     else
       modify (set_isRunning true) ;;;
       try_finally (try_catch body failed) (modify (set_isRunning false)))
    st e
  = let o := run env body (set_isRunning true st) e in
    match result o with
    | Ok a =>
        mkOutcome (Ok a) (set_isRunning false (final o)) (world o) (trace o)
    | Throw message =>
        mkOutcome (Throw message)
                  (set_isRunning false
                     (set_error message (set_lastSyncSuccess false (final o))))
                  (world o) (trace o)
    end.
Proof.
  intros Hidle. simpl. rewrite Hidle. simpl.
  unfold try_finally, try_catch. rewrite !run_bind. simpl.
  destruct (run env body (set_isRunning true st) e) as [[[]|message] s' e' t];
    simpl; unfold after; simpl; now rewrite ?app_nil_r.
Qed.

(** [sync] from an idle service, in terms of the [try] block it runs. *)
Lemma sync_outcome E (env : Env SyncCall E) (st : SyncStatus) (e : E) :
  isRunning st = false ->
  run env sync st e
  = let o := run env (if Js.truthy_string (lastSeq st)
                      then incrementalSyncTry else fullSyncTry)
                 (set_isRunning true st) e in
    let ended :=
      match result o with
      | Ok _ => set_isRunning false (final o)
      | Throw message =>
          set_isRunning false
            (set_error message (set_lastSyncSuccess false (final o)))
      end in
    mkOutcome (result o) ended (world o) (trace o ++ [mkEvent ended Ticked]).
Proof.
  intros Hidle. rewrite (sync_idle E env st e Hidle). cbv zeta.
  destruct (Js.truthy_string (lastSeq st)).
  - unfold incrementalSync. rewrite (guarded_outcome _ E env st e Hidle). cbv zeta.
    destruct (result (run env incrementalSyncTry (set_isRunning true st) e)) as [[]|m];
      reflexivity.
  - unfold fullSync. rewrite (guarded_outcome _ E env st e Hidle). cbv zeta.
    destruct (result (run env fullSyncTry (set_isRunning true st) e)) as [[]|m];
      reflexivity.
Qed.

Lemma fullSyncTry_tail :
  fullSyncTry
  = (documents <- call ClientGetAllDocuments ;;
     result <- await (processDocuments documents) ;;
     fullSyncTail result).
Proof. reflexivity. Qed.

Lemma fullSyncTail_run E (env : Env SyncCall E) (counts : ProcessResult) s e :
  run env (fullSyncTail counts) s e
  = let info := handle env ClientGetDatabaseInfo e in
    let asked := mkEvent s (Called ClientGetDatabaseInfo (fst info)) in
    match fst info with
    | Throw message => mkOutcome (Throw message) s (snd info) [asked]
    | Ok dbInfo =>
        let s2 := set_lastSeq (update_seq dbInfo) s in
        let counted := handle env RepoCount (snd info) in
        let count := mkEvent s2 (Called RepoCount (fst counted)) in
        match fst counted with
        | Throw message => mkOutcome (Throw message) s2 (snd counted) [asked; count]
        | Ok _ =>
            let t := clock env (snd counted) in
            let s3 := markSucceeded t (processedCount counts) s2 in
            let cursor := StateUpdateState (mkState (Some (update_seq dbInfo)) (Some t)) in
            let written := handle env cursor (snd counted) in
            mkOutcome (fst written) s3 (snd written)
                      [asked; count; mkEvent s3 (Called cursor (fst written))]
        end
    end.
Proof.
  unfold fullSyncTail, succeeded, persistCursor. simpl.
  destruct (handle env ClientGetDatabaseInfo e) as [[dbInfo|message] e1]; simpl;
    [|reflexivity].
  destruct (handle env RepoCount e1) as [[n|message] e2]; simpl; [|reflexivity].
  destruct (handle env (StateUpdateState _) e2) as [[[]|message] e3]; reflexivity.
Qed.

Lemma incrementalSyncTail_run E (env : Env SyncCall E) (changes : ChangesResponse)
    (processed : Z) s e :
  run env (incrementalSyncTail changes processed) s e
  = let t := clock env e in
    let s2 := markSucceeded t processed (set_lastSeq (last_seq changes) s) in
    let cursor := StateUpdateState (mkState (Some (last_seq changes)) (Some t)) in
    let written := handle env cursor e in
    let write := mkEvent s2 (Called cursor (fst written)) in
    match fst written with
    | Throw message => mkOutcome (Throw message) s2 (snd written) [write]
    | Ok _ =>
        let counted := handle env RepoCount (snd written) in
        mkOutcome (match fst counted with
                   | Ok _ => Ok tt
                   | Throw message => Throw message
                   end)
                  s2 (snd counted)
                  [write; mkEvent s2 (Called RepoCount (fst counted))]
    end.
Proof.
  unfold incrementalSyncTail, succeeded, persistCursor. simpl.
  destruct (handle env (StateUpdateState _) e) as [[[]|message] e1]; simpl;
    [|reflexivity].
  destruct (handle env RepoCount e1) as [[n|message] e2]; reflexivity.
Qed.

Lemma fullSyncTry_run E (env : Env SyncCall E) s e :
  run env fullSyncTry s e
  = let fetched := handle env ClientGetAllDocuments e in
    let fetch := mkEvent s (Called ClientGetAllDocuments (fst fetched)) in
    match fst fetched with
    | Throw message => mkOutcome (Throw message) s (snd fetched) [fetch]
    | Ok documents =>
        let o1 := run env (processDocuments documents) s (snd fetched) in
        let head := (fetch :: trace o1 ++ [mkEvent s Ticked])%list in
        match result o1 with
        | Throw message => mkOutcome (Throw message) s (world o1) head
        | Ok counts => after head (run env (fullSyncTail counts) s (world o1))
        end
    end.
Proof.
  rewrite fullSyncTry_tail, run_tbind, run_call. cbv zeta. simpl.
  destruct (handle env ClientGetAllDocuments e) as [[documents|message] e1]; simpl;
    [|reflexivity].
  rewrite run_tbind, run_await. cbv zeta. simpl.
  destruct (processDocuments_run env documents s e1) as (_ & _ & _ & Hfin & _).
  cbv zeta in Hfin.
  destruct (run env (processDocuments documents) s e1) as [[counts|message] s1 e2 t1];
    simpl in *; subst s1; unfold after; simpl; [|reflexivity].
  now rewrite <- app_assoc.
Qed.

(** What the trace of [processDocuments] holds besides its [saveMany]. *)
Lemma processDocuments_trace E (env : Env SyncCall E)
    (documents : list LiveSyncDocument) s e :
  let o := run env (processDocuments documents) s e in
  cursorsWritten (trace o) = []
  /\ sequencesRead (trace o) = []
  /\ existsb cursorPersisted (trace o) = false
  /\ existsb isFullFetch (trace o) = false
  /\ existsb isChangesFetch (trace o) = false
  /\ Forall (fun ev => isRepoDelete ev = false) (trace o)
  /\ (forall counts, result o = Ok counts ->
        processedCount counts = Z.of_nat (List.length (saved (trace o)))).
Proof.
  destruct (processDocuments_run env documents s e)
    as (counts & notes & loop & _ & Hp & _ & _ & _ & _ & Hloop & Hend).
  cbv zeta in *.
  assert (Hquiet : cursorsWritten loop = [] /\ sequencesRead loop = []
                   /\ existsb cursorPersisted loop = false
                   /\ existsb isFullFetch loop = false
                   /\ existsb isChangesFetch loop = false
                   /\ Forall (fun ev => isRepoDelete ev = false) loop
                   /\ saved loop = []).
  { clear - Hloop. unfold cursorsWritten, sequencesRead, saved.
    induction Hloop as [|ev t Hev _ (IH1 & IH2 & IH3 & IH4 & IH7 & IH5 & IH6)]; simpl;
      [repeat split; constructor|].
    rewrite IH1, IH2, IH3, IH4, IH6, IH7.
    destruct ev as [st [A c r|]]; [|discriminate].
    unfold isAssemble in Hev. simpl in Hev.
    destruct c; try discriminate. repeat split. constructor; [reflexivity | exact IH5]. }
  destruct Hquiet as (Q1 & Q2 & Q3 & Q4 & Q7 & Q5 & Q6).
  destruct Hend as [(-> & Ht & Hr) | (Hne & r & Ht & Hr)]; rewrite Ht, Hr.
  - repeat split; try assumption. intros c [= <-]. now rewrite Q6, Hp.
  - unfold cursorsWritten, sequencesRead, saved in *.
    rewrite !flat_map_app, !existsb_app, Q1, Q2, Q3, Q4, Q6, Q7. simpl.
    repeat split.
    + apply Forall_app. split; [exact Q5 | repeat constructor].
    + intros c Hc. destruct r as [[]|m]; [|discriminate].
      injection Hc as <-. now rewrite app_nil_r, Hp.
Qed.

(** [processDocuments] rejects exactly when its [saveMany] does. *)
Lemma processDocuments_rejected E (env : Env SyncCall E)
    (documents : list LiveSyncDocument) s e :
  let o := run env (processDocuments documents) s e in
  existsb writeRejected (trace o)
  = match result o with Ok _ => false | Throw _ => true end.
Proof.
  destruct (processDocuments_run env documents s e)
    as (counts & notes & loop & _ & _ & _ & _ & _ & _ & Hloop & Hend).
  cbv zeta in *.
  assert (Hl : existsb writeRejected loop = false).
  { clear - Hloop. induction Hloop as [|ev t Hev _ IH]; simpl; [reflexivity|].
    rewrite IH. destruct ev as [s0 [A c r|]]; [|discriminate].
    unfold isAssemble in Hev. simpl in Hev. destruct c; try discriminate.
    reflexivity. }
  destruct Hend as [(_ & -> & ->) | (_ & r & -> & ->)]; [exact Hl|].
  rewrite existsb_app, Hl. now destruct r as [[]|m].
Qed.

Ltac trace_facts :=
  unfold after, cursorsWritten, sequencesRead, saved, SyncEvent in *; simpl in *;
  rewrite ?flat_map_app, ?existsb_app in *; simpl in *.

(** A full sync from an idle service, seen from outside. *)
Lemma full_sync_facts E (env : Env SyncCall E) (st : SyncStatus) (e : E) :
  isRunning st = false ->
  Js.truthy_string (lastSeq st) = false ->
  let o := run env sync st e in
  (result o = Ok tt <-> existsb cursorPersisted (trace o) = true)
  /\ (forall cursor, In cursor (cursorsWritten (trace o)) ->
        state_lastSeq cursor = lastSeq (final o))
  /\ match sequencesRead (trace o) with
     | [] => lastSeq (final o) = lastSeq st /\ cursorsWritten (trace o) = []
     | [seq] => lastSeq (final o) = Some seq
     | _ => False
     end
  /\ (result o = Ok tt ->
      documentsCount (final o) = Z.of_nat (List.length (saved (trace o)))
      /\ lastSyncSuccess (final o) = true /\ error (final o) = None)
  /\ existsb isChangesFetch (trace o) = false
  /\ (existsb writeRejected (trace o) = true ->
      lastSeq (final o) = lastSeq st /\ cursorsWritten (trace o) = []
      /\ result o <> Ok tt)
  /\ hd_error (trace o)
     = Some (mkEvent (set_isRunning true st)
               (Called ClientGetAllDocuments
                  (fst (handle env ClientGetAllDocuments e)))).
Proof.
  intros Hidle Hfull. rewrite (sync_outcome E env st e Hidle). rewrite Hfull.
  rewrite fullSyncTry_run. cbv zeta.
  destruct (handle env ClientGetAllDocuments e) as [[documents|message] e1];
    cbn [fst snd].
  2:{ simpl. repeat split; try discriminate; try tauto. }
  destruct (processDocuments_trace E env documents (set_isRunning true st) e1)
    as (Hc & Hq & Hp & _ & Hchanges & _ & Hn).
  pose proof (processDocuments_rejected E env documents (set_isRunning true st) e1)
    as Hrej.
  cbv zeta in *.
  destruct (run env (processDocuments documents) (set_isRunning true st) e1)
    as [[counts|message] s1 e2 t1]; cbn [result final world trace] in *.
  2:{ trace_facts. rewrite Hc, Hq, Hp, Hchanges. simpl.
      repeat split; try discriminate; try tauto. }
  specialize (Hn counts eq_refl).
  rewrite fullSyncTail_run. cbv zeta.
  destruct (handle env ClientGetDatabaseInfo e2) as [[dbInfo|message] e3];
    cbn [fst snd].
  2:{ trace_facts. rewrite Hc, Hq, Hp, Hchanges, Hrej. simpl.
      repeat split; try discriminate; try tauto. }
  destruct (handle env RepoCount e3) as [[n|message] e4]; cbn [fst snd].
  2:{ trace_facts. rewrite Hc, Hq, Hp, Hchanges, Hrej. simpl.
      repeat split; try discriminate; try tauto. }
  destruct (handle env (StateUpdateState _) e4) as [[[]|message] e5]; cbn [fst snd];
    trace_facts; rewrite Hc, Hq, Hp, Hchanges, Hrej; simpl;
    repeat split; try discriminate; try tauto;
    try (intros cursor [<-|[]]; reflexivity).
  now rewrite !app_nil_r.
Qed.

Lemma incrementalSyncTry_tail :
  incrementalSyncTry
  = (st <- read ;;
     changes <- call (ClientGetChanges (lastSeq st)) ;;
     match results changes with
     | None | Some [] => succeeded 0
     | Some (first :: more) =>
         let (changedDocs, deletedIds) := classify (first :: more) [] [] in
         processedChanged <- incrementalProcess changedDocs ;;
         incrementalDelete deletedIds ;;;
         incrementalSyncTail changes processedChanged
     end).
Proof. reflexivity. Qed.

Lemma incrementalProcess_run E (env : Env SyncCall E)
    (changedDocs : list LiveSyncDocument) s e :
  let o := run env (incrementalProcess changedDocs) s e in
  final o = s
  /\ cursorsWritten (trace o) = []
  /\ sequencesRead (trace o) = []
  /\ existsb cursorPersisted (trace o) = false
  /\ existsb isFullFetch (trace o) = false
  /\ existsb isChangesFetch (trace o) = false
  /\ Forall (fun ev => isRepoDelete ev = false) (trace o)
  /\ existsb writeRejected (trace o)
     = match result o with Ok _ => false | Throw _ => true end
  /\ (forall n, result o = Ok n -> n = Z.of_nat (List.length (saved (trace o)))).
Proof.
  unfold incrementalProcess. destruct changedDocs as [|doc docs].
  - simpl. repeat split; try constructor.
    intros n [= <-]. reflexivity.
  - rewrite run_tbind, run_await. cbv zeta.
    destruct (processDocuments_trace E env (doc :: docs) s e)
      as (Hc & Hq & Hp & Hf & Hg & Hd & Hn).
    pose proof (processDocuments_rejected E env (doc :: docs) s e) as Hrej.
    destruct (processDocuments_run env (doc :: docs) s e) as (_ & _ & _ & Hfin & _).
    cbv zeta in *.
    destruct (run env (processDocuments (doc :: docs)) s e) as [[c|m] s1 e1 t1];
      cbn [result final world trace] in *; subst s1; trace_facts;
      rewrite ?Hc, ?Hq, ?Hp, ?Hf, ?Hg, ?Hrej; simpl;
      repeat split; try discriminate;
      try (rewrite ?app_nil_r; apply Forall_app; split;
           [exact Hd | repeat constructor]).
    intros n [= <-]. rewrite !app_nil_r. now apply Hn.
Qed.

Lemma incrementalDelete_run E (env : Env SyncCall E) (deletedIds : list string) s e :
  run env (incrementalDelete deletedIds) s e
  = match deletedIds with
    | [] => mkOutcome (Ok tt) s e []
    | _ :: _ =>
        let removed := handle env (RepoDeleteMany deletedIds) e in
        mkOutcome (fst removed) s (snd removed)
                  [mkEvent s (Called (RepoDeleteMany deletedIds) (fst removed))]
    end.
Proof. destruct deletedIds; [reflexivity | apply run_call]. Qed.

Lemma incrementalSyncTry_run E (env : Env SyncCall E) s e :
  run env incrementalSyncTry s e
  = let fetched := handle env (ClientGetChanges (lastSeq s)) e in
    let fetch := mkEvent s (Called (ClientGetChanges (lastSeq s)) (fst fetched)) in
    match fst fetched with
    | Throw message => mkOutcome (Throw message) s (snd fetched) [fetch]
    | Ok changes =>
        match results changes with
        | None | Some [] =>
            mkOutcome (Ok tt) (markSucceeded (clock env (snd fetched)) 0 s)
                      (snd fetched) [fetch]
        | Some (first :: more) =>
            let sorted := classify (first :: more) [] [] in
            let o1 := run env (incrementalProcess (fst sorted)) s (snd fetched) in
            match result o1 with
            | Throw message =>
                mkOutcome (Throw message) s (world o1) (fetch :: trace o1)
            | Ok processed =>
                let o2 := run env (incrementalDelete (snd sorted)) s (world o1) in
                match result o2 with
                | Throw message =>
                    mkOutcome (Throw message) s (world o2)
                              (fetch :: trace o1 ++ trace o2)
                | Ok _ =>
                    after (fetch :: trace o1 ++ trace o2)
                          (run env (incrementalSyncTail changes processed) s (world o2))
                end
            end
        end
    end.
Proof.
  rewrite incrementalSyncTry_tail, run_tbind.
  change (run env read s e) with (@mkOutcome SyncStatus SyncCall E _ (Ok s) s e []).
  cbv zeta. cbn [result final world trace]. rewrite after_nil.
  rewrite run_tbind, run_call. cbv zeta. cbn [result final world trace].
  destruct (handle env (ClientGetChanges (lastSeq s)) e) as [[changes|message] e1];
    cbn [fst snd]; [|reflexivity].
  destruct (results changes) as [[|first more]|].
  1,3: unfold succeeded, after; simpl; reflexivity.
  destruct (classify (first :: more) [] []) as [changedDocs deletedIds].
  cbv zeta. cbn [fst snd].
  rewrite run_tbind. cbv zeta.
  destruct (incrementalProcess_run E env changedDocs s e1) as (Hfin & _).
  cbv zeta in Hfin.
  destruct (run env (incrementalProcess changedDocs) s e1)
    as [[processed|message] s1 e2 t1]; cbn [result final world trace] in *;
    subst s1; [|reflexivity].
  rewrite run_tbind, incrementalDelete_run.
  destruct deletedIds as [|deleted more'].
  - cbv zeta. cbn [result final world trace]. unfold after.
    cbn [result final world trace]. now rewrite !app_nil_r.
  - cbv zeta. cbn [result final world trace].
    destruct (handle env (RepoDeleteMany (deleted :: more')) e2) as [[[]|message] e3];
      cbn [fst snd]; unfold after; cbn [result final world trace];
      [|reflexivity].
    simpl. now rewrite <- app_assoc.
Qed.

(** An incremental sync from an idle service, seen from outside. *)
Lemma incremental_sync_facts E (env : Env SyncCall E) (st : SyncStatus) (e : E) :
  isRunning st = false ->
  Js.truthy_string (lastSeq st) = true ->
  let o := run env sync st e in
  (result o = Ok tt ->
   (cursorsWritten (trace o) = [] /\ lastSeq (final o) = lastSeq st)
   \/ existsb cursorPersisted (trace o) = true)
  /\ (forall cursor, In cursor (cursorsWritten (trace o)) ->
        state_lastSeq cursor = lastSeq (final o))
  /\ sequencesRead (trace o) = []
  /\ (result o = Ok tt ->
      documentsCount (final o) = Z.of_nat (List.length (saved (trace o)))
      /\ lastSyncSuccess (final o) = true /\ error (final o) = None)
  /\ existsb isFullFetch (trace o) = false
  /\ (existsb writeRejected (trace o) = true ->
      lastSeq (final o) = lastSeq st /\ cursorsWritten (trace o) = []
      /\ result o <> Ok tt)
  /\ hd_error (trace o)
     = Some (mkEvent (set_isRunning true st)
               (Called (ClientGetChanges (lastSeq st))
                  (fst (handle env (ClientGetChanges (lastSeq st)) e))))
  /\ match fst (handle env (ClientGetChanges (lastSeq st)) e) with
     | Ok changes =>
         forall cursor, In cursor (cursorsWritten (trace o)) ->
                        state_lastSeq cursor = Some (last_seq changes)
     | Throw _ => cursorsWritten (trace o) = []
     end.
Proof.
  intros Hidle Hinc. rewrite (sync_outcome E env st e Hidle). rewrite Hinc.
  rewrite incrementalSyncTry_run. cbv zeta.
  change (lastSeq (set_isRunning true st)) with (lastSeq st).
  destruct (handle env (ClientGetChanges (lastSeq st)) e) as [[changes|message] e1];
    cbn [fst snd].
  2:{ simpl. repeat split; try discriminate; try tauto. }
  destruct (results changes) as [[|first more]|].
  1,3: simpl; repeat split; try discriminate; try tauto.
  destruct (classify (first :: more) [] []) as [changedDocs deletedIds].
  cbn [fst snd].
  destruct (incrementalProcess_run E env changedDocs (set_isRunning true st) e1)
    as (_ & Hc & Hq & Hp & Hf & _ & _ & Hrej & Hn).
  cbv zeta in *.
  destruct (run env (incrementalProcess changedDocs) (set_isRunning true st) e1)
    as [[processed|message] s1 e2 t1]; cbn [result final world trace] in *.
  2:{ trace_facts. rewrite Hc, Hq, Hf. simpl.
      repeat split; try discriminate; try tauto. }
  specialize (Hn processed eq_refl).
  rewrite incrementalDelete_run.
  assert (Htail : forall e3 (front : list SyncEvent),
            cursorsWritten front = [] -> sequencesRead front = [] ->
            existsb isFullFetch front = false ->
            existsb writeRejected front = false ->
            saved front = saved t1 ->
            hd_error front
            = Some (mkEvent (set_isRunning true st)
                      (Called (ClientGetChanges (lastSeq st)) (Ok changes))) ->
            let o := after front
                       (run env (incrementalSyncTail changes processed)
                            (set_isRunning true st) e3) in
            let ended :=
              match result o with
              | Ok _ => set_isRunning false (final o)
              | Throw message =>
                  set_isRunning false
                    (set_error message (set_lastSyncSuccess false (final o)))
              end in
            (result o = Ok tt ->
             existsb cursorPersisted (trace o ++ [mkEvent ended Ticked]) = true)
            /\ (forall cursor,
                  In cursor (cursorsWritten (trace o ++ [mkEvent ended Ticked])) ->
                  state_lastSeq cursor = lastSeq ended)
            /\ sequencesRead (trace o ++ [mkEvent ended Ticked]) = []
            /\ (result o = Ok tt ->
                documentsCount ended
                = Z.of_nat (List.length (saved (trace o ++ [mkEvent ended Ticked])))
                /\ lastSyncSuccess ended = true /\ error ended = None)
            /\ existsb isFullFetch (trace o ++ [mkEvent ended Ticked]) = false
            /\ existsb writeRejected (trace o ++ [mkEvent ended Ticked]) = false
            /\ hd_error (trace o ++ [mkEvent ended Ticked])
               = Some (mkEvent (set_isRunning true st)
                         (Called (ClientGetChanges (lastSeq st)) (Ok changes)))
            /\ (forall cursor,
                  In cursor (cursorsWritten (trace o ++ [mkEvent ended Ticked])) ->
                  state_lastSeq cursor = Some (last_seq changes))).
  { intros e3 front Fc Fq Ff Fr Fs Fh. rewrite incrementalSyncTail_run. cbv zeta.
    destruct front as [|ev front]; [discriminate|]. injection Fh as ->.
    destruct (handle env (StateUpdateState _) e3) as [[[]|message] e4]; cbn [fst snd].
    2:{ trace_facts. rewrite Fc, Fq, Ff, Fr. simpl.
        repeat split; try discriminate; try tauto;
          intros cursor [<-|[]]; reflexivity. }
    destruct (handle env RepoCount e4) as [[n|message] e5]; cbn [fst snd];
      trace_facts; rewrite Fc, Fq, Ff, Fr, ?Fs; simpl;
      repeat split; try discriminate; try tauto;
      try (intros cursor [<-|[]]; reflexivity);
      try (now rewrite ?orb_true_r).
    now rewrite !app_nil_r. }
  assert (Hhead : forall back : list SyncEvent,
            hd_error
              ((mkEvent (set_isRunning true st)
                  (Called (ClientGetChanges (lastSeq st)) (Ok changes))
                :: t1) ++ back)
            = Some (mkEvent (set_isRunning true st)
                      (Called (ClientGetChanges (lastSeq st)) (Ok changes))))
    by reflexivity.
  destruct deletedIds as [|deleted others]; cbv zeta; cbn [result final world trace].
  - rewrite app_nil_r.
    destruct (Htail e2 (mkEvent (set_isRunning true st)
                          (Called (ClientGetChanges (lastSeq st)) (Ok changes)) :: t1))
      as (T1 & T2 & T3 & T4 & T5 & T6 & T7 & T8);
      try reflexivity; try assumption.
    cbv zeta in *. repeat split; try assumption; try tauto; congruence.
  - destruct (handle env (RepoDeleteMany (deleted :: others)) e2) as [[[]|message] e3];
      cbn [fst snd].
    2:{ trace_facts. rewrite Hc, Hq, Hf. simpl.
        repeat split; try discriminate; try tauto. }
    destruct (Htail e3 (mkEvent (set_isRunning true st)
                          (Called (ClientGetChanges (lastSeq st)) (Ok changes))
                        :: t1 ++ [mkEvent (set_isRunning true st)
                                    (Called (RepoDeleteMany (deleted :: others)) (Ok tt))]))
      as (T1 & T2 & T3 & T4 & T5 & T6 & T7 & T8);
      try reflexivity;
      try (trace_facts; rewrite ?Hc, ?Hq, ?Hf, ?Hrej, ?app_nil_r; reflexivity).
    cbv zeta in *. repeat split; try assumption; try tauto; congruence.
Qed.

Lemma sync_ends_idle E (env : Env SyncCall E) (st : SyncStatus) (e : E) :
  isRunning st = false -> isRunning (final (run env sync st e)) = false.
Proof.
  intros Hidle. rewrite (sync_outcome E env st e Hidle). cbv zeta.
  cbn [final]. now destruct (result _).
Qed.

Lemma persisted_is_written (t : list SyncEvent) :
  cursorsWritten t = [] -> existsb cursorPersisted t = false.
Proof.
  unfold cursorsWritten. induction t as [|ev t IH]; simpl; [reflexivity|].
  intros Hnil. apply app_eq_nil in Hnil as [Hev Ht]. rewrite (IH Ht), orb_false_r.
  destruct ev as [s [A c r|]]; [|reflexivity].
  destruct c; try reflexivity. discriminate.
Qed.

(** X11. A full sync from an idle service fulfils exactly when its write of
    the cursor to the state storage fulfils; and a cursor it writes is the
    [update_seq] that [getDatabaseInfo] answered in this pass, which is also
    [status.lastSeq] afterwards. *)
Theorem full_sync_persists_the_sequence_it_read E (env : Env SyncCall E)
    (st : SyncStatus) (e : E) :
  isRunning st = false ->
  Js.truthy_string (lastSeq st) = false ->
  let o := run env sync st e in
  (result o = Ok tt <-> existsb cursorPersisted (trace o) = true)
  /\ (forall cursor, In cursor (cursorsWritten (trace o)) ->
        exists seq, sequencesRead (trace o) = [seq]
                    /\ state_lastSeq cursor = Some seq
                    /\ lastSeq (final o) = Some seq).
Proof.
  intros Hidle Hfull.
  destruct (full_sync_facts E env st e Hidle Hfull) as (Hiff & Hcur & Hseq & _).
  cbv zeta in *. split; [exact Hiff|].
  intros cursor Hin. specialize (Hcur cursor Hin).
  destruct (sequencesRead (trace (run env sync st e))) as [|seq [|seq' more]].
  - destruct Hseq as [_ Hnone]. rewrite Hnone in Hin. contradiction.
  - exists seq. repeat split; congruence.
  - contradiction.
Qed.

(** X12. In a full sync [status.lastSeq] is assigned as soon as
    [getDatabaseInfo] has answered, before [count] and the cursor write:
    whatever the result of the pass, [status.lastSeq] is then the sequence
    read; and when that sequence is not empty the next [sync] is an
    incremental one, which fetches the changes since it and never calls
    [getAllDocuments]. *)
Theorem full_sync_moves_the_cursor_before_persisting_it E (env : Env SyncCall E)
    (st : SyncStatus) (e : E) :
  isRunning st = false ->
  Js.truthy_string (lastSeq st) = false ->
  let o := run env sync st e in
  forall seq, In seq (sequencesRead (trace o)) ->
    lastSeq (final o) = Some seq
    /\ (seq <> EmptyString ->
        forall E' (env' : Env SyncCall E') (e' : E'),
          let next := run env' sync (final o) e' in
          existsb isFullFetch (trace next) = false
          /\ hd_error (trace next)
             = Some (mkEvent (set_isRunning true (final o))
                       (Called (ClientGetChanges (Some seq))
                          (fst (handle env' (ClientGetChanges (Some seq)) e'))))).
Proof.
  intros Hidle Hfull o seq Hin.
  pose proof (sync_ends_idle E env st e Hidle) as Hidle'.
  destruct (full_sync_facts E env st e Hidle Hfull) as (_ & _ & Hseq & _).
  cbv zeta in Hseq. subst o.
  destruct (sequencesRead (trace (run env sync st e))) as [|seq0 [|seq' more]];
    [contradiction| |contradiction].
  destruct Hin as [<-|[]]. split; [exact Hseq|].
  intros Hne E' env' e' next.
  assert (Hinc : Js.truthy_string (lastSeq (final (run env sync st e))) = true).
  { rewrite Hseq. destruct seq0; [contradiction|reflexivity]. }
  destruct (incremental_sync_facts E' env' _ e' Hidle' Hinc)
    as (_ & _ & _ & _ & Hnofull & _ & Hhd & _).
  cbv zeta in *. subst next. rewrite Hseq in Hhd. now split.
Qed.

(** X13. When a write to the note repository rejects ([saveMany] of
    [processDocuments], or [deleteMany] of an incremental sync), [sync]
    rejects, [status.lastSeq] is what it was before the pass and no cursor
    is written to the state storage: the next [sync] covers the same range
    again. *)
Theorem rejected_write_keeps_the_cursor E (env : Env SyncCall E)
    (st : SyncStatus) (e : E) :
  isRunning st = false ->
  let o := run env sync st e in
  existsb writeRejected (trace o) = true ->
  result o <> Ok tt
  /\ lastSeq (final o) = lastSeq st
  /\ cursorsWritten (trace o) = [].
Proof.
  intros Hidle o Hrej. subst o.
  destruct (Js.truthy_string (lastSeq st)) eqn:Hpass.
  - destruct (incremental_sync_facts E env st e Hidle Hpass)
      as (_ & _ & _ & _ & _ & Hkeep & _).
    cbv zeta in Hkeep. destruct (Hkeep Hrej) as (H1 & H2 & H3). now repeat split.
  - destruct (full_sync_facts E env st e Hidle Hpass)
      as (_ & _ & _ & _ & _ & Hkeep & _).
    cbv zeta in Hkeep. destruct (Hkeep Hrej) as (H1 & H2 & H3). now repeat split.
Qed.

(** X14. [status] after [sync] mirrors how the pass ended: the service is
    idle again; after a fulfilled pass [lastSyncSuccess] is true and
    [error] is absent; after a rejected pass [lastSyncSuccess] is false and
    [error] is the message the pass rejected with. *)
Theorem status_mirrors_the_outcome E (env : Env SyncCall E)
    (st : SyncStatus) (e : E) :
  isRunning st = false ->
  let o := run env sync st e in
  isRunning (final o) = false
  /\ (result o = Ok tt -> lastSyncSuccess (final o) = true /\ error (final o) = None)
  /\ (forall message, result o = Throw message ->
        lastSyncSuccess (final o) = false /\ error (final o) = Some message).
Proof.
  intros Hidle o. subst o. split; [now apply sync_ends_idle|]. split.
  - intros Hok. destruct (Js.truthy_string (lastSeq st)) eqn:Hpass.
    + destruct (incremental_sync_facts E env st e Hidle Hpass)
        as (_ & _ & _ & Hgood & _).
      now apply Hgood.
    + destruct (full_sync_facts E env st e Hidle Hpass) as (_ & _ & _ & Hgood & _).
      now apply Hgood.
  - intros message. rewrite (sync_outcome E env st e Hidle). cbv zeta.
    cbn [result final]. intros ->. now split.
Qed.

(** X15. After a fulfilled [sync], [status.documentsCount] is the number of
    notes that this pass handed to [saveMany]; it is not the number of
    notes in the repository. *)
Theorem documentsCount_counts_the_pass E (env : Env SyncCall E)
    (st : SyncStatus) (e : E) :
  isRunning st = false ->
  let o := run env sync st e in
  result o = Ok tt ->
  documentsCount (final o) = Z.of_nat (List.length (saved (trace o))).
Proof.
  intros Hidle o Hok. subst o.
  destruct (Js.truthy_string (lastSeq st)) eqn:Hpass.
  - destruct (incremental_sync_facts E env st e Hidle Hpass)
      as (_ & _ & _ & Hgood & _).
    now apply Hgood.
  - destruct (full_sync_facts E env st e Hidle Hpass) as (_ & _ & _ & Hgood & _).
    now apply Hgood.
Qed.

(** X16. The only cursor an incremental sync writes is the [last_seq] of
    the changes response it fetched, and a fulfilled pass leaves either that
    cursor persisted or, with a response without results, no cursor written
    and [status.lastSeq] unchanged. It never asks [getDatabaseInfo]. *)
Theorem incremental_sync_persists_the_feed_cursor E (env : Env SyncCall E)
    (st : SyncStatus) (e : E) (changes : ChangesResponse) :
  isRunning st = false ->
  Js.truthy_string (lastSeq st) = true ->
  fst (handle env (ClientGetChanges (lastSeq st)) e) = Ok changes ->
  let o := run env sync st e in
  (forall cursor, In cursor (cursorsWritten (trace o)) ->
     state_lastSeq cursor = Some (last_seq changes)
     /\ lastSeq (final o) = Some (last_seq changes))
  /\ (result o = Ok tt ->
      (cursorsWritten (trace o) = [] /\ lastSeq (final o) = lastSeq st)
      \/ existsb cursorPersisted (trace o) = true)
  /\ sequencesRead (trace o) = [].
Proof.
  intros Hidle Hinc Hfetch o. subst o.
  destruct (incremental_sync_facts E env st e Hidle Hinc)
    as (Hok & Hcur & Hseq & _ & _ & _ & _ & Hfeed).
  cbv zeta in *. rewrite Hfetch in Hfeed. repeat split; try assumption.
  - now apply Hfeed.
  - rewrite <- (Hcur cursor H). now apply Hfeed.
Qed.

(** X17. An incremental sync whose changes response has no results makes no
    other call: nothing is asked of the repository and no cursor is
    written; the pass fulfils, [status.lastSeq] stays, [documentsCount]
    becomes 0 and [error] is cleared. *)
Theorem incremental_sync_without_changes E (env : Env SyncCall E)
    (st : SyncStatus) (e : E) (changes : ChangesResponse) :
  isRunning st = false ->
  Js.truthy_string (lastSeq st) = true ->
  fst (handle env (ClientGetChanges (lastSeq st)) e) = Ok changes ->
  results changes = None \/ results changes = Some [] ->
  let o := run env sync st e in
  result o = Ok tt
  /\ map ev_susp (trace o)
     = [Called (ClientGetChanges (lastSeq st)) (Ok changes); Ticked]
  /\ world o = snd (handle env (ClientGetChanges (lastSeq st)) e)
  /\ final o = markSucceeded (clock env (world o)) 0 st.
Proof.
  intros Hidle Hinc Hfetch Hnone o. subst o.
  rewrite (sync_outcome E env st e Hidle). rewrite Hinc.
  rewrite incrementalSyncTry_run. cbv zeta.
  change (lastSeq (set_isRunning true st)) with (lastSeq st).
  rewrite Hfetch.
  assert (Hst : set_isRunning false
                  (markSucceeded
                     (clock env (snd (handle env (ClientGetChanges (lastSeq st)) e)))
                     0 (set_isRunning true st))
                = markSucceeded
                    (clock env (snd (handle env (ClientGetChanges (lastSeq st)) e)))
                    0 st).
  { destruct st; simpl in *; now subst. }
  destruct Hnone as [-> | ->]; cbn [result final world trace];
    rewrite Hst; now repeat split.
Qed.

(** X18. When the fetch that opens a pass rejects ([getAllDocuments] of a
    full sync, [getChanges] of an incremental one), [sync] rejects with the
    same message after that one call: the repository is not called, no
    cursor is written, and of [status] only [lastSyncSuccess] and [error]
    change. *)
Theorem rejected_fetch_ends_the_pass E (env : Env SyncCall E)
    (st : SyncStatus) (e : E) (message : string) :
  isRunning st = false ->
  (if Js.truthy_string (lastSeq st)
   then fst (handle env (ClientGetChanges (lastSeq st)) e) = Throw message
   else fst (handle env ClientGetAllDocuments e) = Throw message) ->
  let o := run env sync st e in
  result o = Throw message
  /\ List.length (trace o) = 2%nat
  /\ existsb isRepoCall (trace o) = false
  /\ cursorsWritten (trace o) = []
  /\ final o = set_error message (set_lastSyncSuccess false st).
Proof.
  intros Hidle Hfetch o. subst o.
  assert (Hst : set_isRunning false
                  (set_error message
                     (set_lastSyncSuccess false (set_isRunning true st)))
                = set_error message (set_lastSyncSuccess false st)).
  { destruct st; simpl in *; now subst. }
  rewrite (sync_outcome E env st e Hidle).
  destruct (Js.truthy_string (lastSeq st)).
  - rewrite incrementalSyncTry_run. cbv zeta.
    change (lastSeq (set_isRunning true st)) with (lastSeq st).
    rewrite Hfetch. cbn [result final world trace]. rewrite Hst. now repeat split.
  - rewrite fullSyncTry_run. cbv zeta.
    rewrite Hfetch. cbn [result final world trace]. rewrite Hst. now repeat split.
Qed.

Lemma replay_keeps_keys_unique (t : list SyncEvent) :
  forall notes, NoDup (Js.keys notes) -> NoDup (Js.keys (replay t notes)).
Proof.
  unfold replay. induction t as [|ev t IH]; intros notes Hnd; simpl; [exact Hnd|].
  apply IH. destruct ev as [s [A c r|]]; [|exact Hnd].
  destruct c; try exact Hnd; unfold replayEvent; simpl.
  - now apply set_keeps_keys_unique.
  - unfold MemoryNoteRepository.saveMany. revert notes Hnd.
    induction notes0 as [|note many IHm]; intros notes Hnd; simpl; [exact Hnd|].
    apply IHm. now apply set_keeps_keys_unique.
  - now apply delete_keeps_keys_unique.
  - unfold MemoryNoteRepository.deleteMany. revert notes Hnd.
    induction ids as [|k ids IHm]; intros notes Hnd; simpl; [exact Hnd|].
    apply IHm. now apply delete_keeps_keys_unique.
Qed.

(** X19. With a [MemoryNoteRepository], after a fulfilled incremental sync
    every id that the loop over [changes.results] put in [deletedIds] is
    absent from the repository, also when the same response carries a
    change that saved a note under that id: the deletions are applied
    after the saves. *)
Theorem incremental_sync_removes_the_deleted E (base : Env SyncCall E)
    (st : SyncStatus) (e : E) (notes : MemoryNoteRepository.This)
    (changes : ChangesResponse) :
  isRunning st = false ->
  Js.truthy_string (lastSeq st) = true ->
  NoDup (Js.keys notes) ->
  fst (handle base (ClientGetChanges (lastSeq st)) e) = Ok changes ->
  let o := run (withMemoryRepository base) sync st (e, notes) in
  result o = Ok tt ->
  forall noteId,
    In noteId (snd (classify (match results changes with
                              | Some listed => listed
                              | None => []
                              end) [] [])) ->
    MemoryNoteRepository.get noteId (snd (world o)) = None.
Proof.
  intros Hidle Hinc Hnd Hfetch o. subst o.
  rewrite (sync_outcome _ (withMemoryRepository base) st (e, notes) Hidle).
  rewrite Hinc, incrementalSyncTry_run. cbv zeta.
  change (lastSeq (set_isRunning true st)) with (lastSeq st).
  assert (Hforward :
            handle (withMemoryRepository base) (ClientGetChanges (lastSeq st)) (e, notes)
            = (Ok changes, (snd (handle base (ClientGetChanges (lastSeq st)) e), notes))).
  { simpl. destruct (handle base (ClientGetChanges (lastSeq st)) e) as [r e1].
    simpl in Hfetch. now subst r. }
  rewrite Hforward. cbn [fst snd].
  destruct (results changes) as [[|first more]|]; [intros _ noteId []| |intros _ noteId []].
  set (e1 := snd (handle base (ClientGetChanges (lastSeq st)) e)).
  destruct (classify (first :: more) [] []) as [changedDocs deletedIds].
  cbn [fst snd].
  pose proof (memory_repository_replay base (incrementalProcess changedDocs)
                (set_isRunning true st) e1 notes) as Hreplay.
  cbv zeta in Hreplay.
  destruct (run (withMemoryRepository base) (incrementalProcess changedDocs)
                (set_isRunning true st) (e1, notes))
    as [[processed|message] s1 [e2 notes1] t1]; cbn [result final world trace] in *;
    [|discriminate].
  assert (Hnd1 : NoDup (Js.keys notes1))
    by (simpl in Hreplay; rewrite Hreplay; now apply replay_keeps_keys_unique).
  rewrite incrementalDelete_run.
  destruct deletedIds as [|deleted others]; [intros _ noteId []|].
  cbv zeta. cbn [handle withMemoryRepository fst snd result final world trace].
  rewrite incrementalSyncTail_run. cbv zeta.
  cbn [handle withMemoryRepository fst snd clock].
  destruct (handle base (StateUpdateState _) e2) as [[[]|message] e3];
    cbn [fst snd result final world trace after]; [|discriminate].
  intros _ noteId Hin. rewrite get_deleteMany by exact Hnd1.
  replace (existsb (String.eqb noteId) (deleted :: others)) with true; [reflexivity|].
  symmetry. apply existsb_exists. exists noteId. split; [exact Hin|].
  apply String.eqb_refl.
Qed.

End PassFacts.

(* ================================================================== *)
(** * The assembler, fault by fault *)

Section AssemblerExtras.
Context `{Runtime}.
Import ChunkAssembler.

Lemma soundPrefix_splits (chunkDocs : Js.Map LiveSyncDocument) (ids : list string) :
  Forall (fun chunkId => chunkFault chunkDocs chunkId = None)
         (fst (soundPrefix chunkDocs ids))
  /\ match snd (soundPrefix chunkDocs ids) with
     | None => ids = fst (soundPrefix chunkDocs ids)
     | Some message =>
         exists bad rest,
           ids = (fst (soundPrefix chunkDocs ids) ++ bad :: rest)%list
           /\ chunkFault chunkDocs bad = Some message
     end.
Proof.
  induction ids as [|chunkId rest [IHs IHf]]; simpl; [now split|].
  destruct (chunkFault chunkDocs chunkId) as [message|] eqn:Hfault; simpl.
  - split; [constructor|]. now exists chunkId, rest.
  - destruct (soundPrefix chunkDocs rest) as [sound [message|]]; simpl in *.
    + split; [now constructor|].
      destruct IHf as (bad & rest' & -> & Hbad). now exists bad, rest'.
    + split; [now constructor | now f_equal].
Qed.

Lemma childrenLoop_faults (crypto : option string)
    (chunkDocs : Js.Map LiveSyncDocument) (ids : list string) :
  forall acc,
    childrenLoop crypto chunkDocs ids acc
    =~= (texts <- decodeAll crypto
                    (payloadsOf chunkDocs (fst (soundPrefix chunkDocs ids))) ;;
         match snd (soundPrefix chunkDocs ids) with
         | Some message => throw message
         | None => ret (Js.join (acc ++ texts))
         end).
Proof.
  induction ids as [|chunkId rest IH]; intros acc.
  - unfold tbind, ret. simpl. rewrite app_nil_r. apply equiv_refl.
  - simpl. unfold chunkFault.
    destruct (Js.get chunkId chunkDocs) as [chunk|] eqn:Hget; [|apply equiv_refl].
    destruct (data chunk) as [[|c d]|] eqn:Hdata; simpl; try apply equiv_refl.
    destruct (soundPrefix chunkDocs rest) as [sound fault] eqn:Hrest.
    simpl in *. unfold payloadsOf in *. simpl. rewrite Hget, Hdata.
    apply equiv_sym.
    eapply equiv_trans; [apply tbind_assoc|].
    apply tbind_equiv; [apply equiv_refl|]. intros text.
    eapply equiv_trans; [apply tbind_assoc|]. simpl.
    apply equiv_sym. eapply equiv_trans; [apply IH|].
    apply tbind_equiv; [apply equiv_refl|]. intros texts.
    rewrite <- app_assoc. apply equiv_refl.
Qed.

(** X20. The loop of [assembleFromChildren] stops at the first child, in
    the order of [children], that the bulk fetch did not return or whose
    [data] is falsy: the chunks before it are decoded, in order, and then the
    error naming that child is thrown; no partial content is returned.
    Without a passphrase nothing else can fail, so the result is that error
    or the whole content, after the one call of [getDocuments]. *)
Theorem children_assembly_stops_at_the_first_fault (crypto : option string)
    (ids : list string) (chunkDocs : Js.Map LiveSyncDocument)
    E (env : Env StorageCall E) s e e' :
  handle env (GetDocuments ids) e = (Ok chunkDocs, e') ->
  let sound := fst (soundPrefix chunkDocs ids) in
  let fault := snd (soundPrefix chunkDocs ids) in
  let fetched := mkEvent s (Called (GetDocuments ids) (Ok chunkDocs)) in
  run env (assembleFromChildren crypto ids) s e
  = after [fetched]
      (run env
         (texts <- decodeAll crypto (payloadsOf chunkDocs sound) ;;
          match fault with
          | Some message => throw message
          | None => ret (Js.join texts)
          end) s e')
  /\ (crypto = None ->
      run env (assembleFromChildren crypto ids) s e
      = mkOutcome
          match fault with
          | Some message => Throw message
          | None => Ok (Js.join (map base64_utf8 (payloadsOf chunkDocs ids)))
          end s e' [fetched])
  /\ Forall (fun chunkId => chunkFault chunkDocs chunkId = None) sound
  /\ match fault with
     | None => ids = sound
     | Some message =>
         exists bad rest,
           ids = (sound ++ bad :: rest)%list
           /\ chunkFault chunkDocs bad = Some message
     end.
Proof.
  intros Hfetch sound fault fetched.
  assert (Hrun : run env (assembleFromChildren crypto ids) s e
                 = after [fetched]
                     (run env
                        (texts <- decodeAll crypto (payloadsOf chunkDocs sound) ;;
                         match fault with
                         | Some message => throw message
                         | None => ret (Js.join texts)
                         end) s e')).
  { unfold assembleFromChildren. rewrite run_tbind.
    change (run env (call (GetDocuments ids)) s e)
      with (let (r, e1) := handle env (GetDocuments ids) e in
            after [mkEvent s (Called (GetDocuments ids) r)]
                  (@mkOutcome _ StorageCall E _ r s e1 [])).
    rewrite Hfetch. cbv zeta. cbn [result final world trace after].
    now rewrite (childrenLoop_faults crypto chunkDocs ids [] E env s e'). }
  destruct (soundPrefix_splits chunkDocs ids) as [Hsound Hfault].
  split; [exact Hrun|]. split; [|now split].
  intros ->. rewrite Hrun, decodeAll_plain. subst sound fault.
  destruct (snd (soundPrefix chunkDocs ids)) as [message|]; [reflexivity|].
  now rewrite <- Hfault.
Qed.

(** X21. When the bulk fetch of the chunks rejects, the assembly rejects
    with the same message after that one call: no chunk is decoded, the
    sync-parameters document is not fetched and the cached salt stays as it
    was. *)
Theorem rejected_bulk_fetch_rejects_the_assembly (crypto : option string)
    (doc : LiveSyncDocument) (ids : list string) (message : string)
    E (env : Env StorageCall E) s e e' :
  Js.truthy_string (data doc) = false ->
  eden doc = None \/ eden doc = Some [] ->
  children doc = Some ids ->
  ids <> [] ->
  handle env (GetDocuments ids) e = (Throw message, e') ->
  run env (assembleDocument crypto doc) s e
  = mkOutcome (Throw message) s e'
      [mkEvent s (Called (GetDocuments ids) (Throw message)); mkEvent s Ticked].
Proof.
  intros Hdata Heden Hchildren Hne Hfetch.
  rewrite (assembleDocument_children crypto doc ids Hdata Heden Hchildren Hne E env s e).
  rewrite run_tbind, run_await. unfold assembleFromChildren. rewrite run_tbind.
  change (run env (call (GetDocuments ids)) s e)
    with (let (r, e1) := handle env (GetDocuments ids) e in
          after [mkEvent s (Called (GetDocuments ids) r)]
                (@mkOutcome _ StorageCall E _ r s e1 [])).
  rewrite Hfetch. reflexivity.
Qed.

Lemma sort_insert_stable {A} (cmp : A -> A -> Z) (same : A -> bool) (x : A) :
  (forall y, same x = true -> same y = true -> cmp x y <= 0) ->
  forall l,
    filter same (Js.sort_insert cmp x l) = filter same (x :: l).
Proof.
  intros Hsame. induction l as [|y l IH]; [reflexivity|].
  cbn [Js.sort_insert]. destruct (cmp x y <=? 0) eqn:Hc; [reflexivity|].
  apply Z.leb_gt in Hc. cbn [filter] in *. rewrite IH.
  destruct (same x) eqn:Hx; [|reflexivity].
  destruct (same y) eqn:Hy; [|reflexivity].
  specialize (Hsame y eq_refl Hy). lia.
Qed.

(** X22. The sort of [assembleFromEden] is by epoch and stable: the entries
    are decoded in ascending order of epoch, and entries that share an epoch
    are decoded in the order of the eden map. *)
Theorem eden_ties_keep_the_order_of_the_map (crypto : option string)
    (entries : Js.Map EdenChunk) :
  let sorted := Js.sort byEpoch entries in
  assembleFromEden crypto entries
  =~= (texts <- decodeAll crypto (edenPayloads sorted) ;; ret (Js.join texts))
  /\ Permutation sorted entries
  /\ StronglySorted (fun a b => epochOf a <= epochOf b) sorted
  /\ (forall k,
        filter (fun entry => epochOf entry =? k) sorted
        = filter (fun entry => epochOf entry =? k) entries).
Proof.
  cbv zeta. split; [apply assembleFromEden_decodeAll|].
  split; [apply (sort_perm epochOf)|].
  split; [apply (sort_sorted epochOf)|].
  intros k. induction entries as [|entry entries IH]; [reflexivity|].
  cbn [Js.sort fold_right]. rewrite sort_insert_stable.
  - cbn [filter]. unfold Js.sort in IH. now rewrite IH.
  - intros other Hx Hy. apply Z.eqb_eq in Hx, Hy.
    unfold byEpoch, epochOf in *. lia.
Qed.

Lemma assembleFromChildren_plain (ids : list string)
    E (env : Env StorageCall E) s e :
  run env (assembleFromChildren None ids) s e
  = let fetched := handle env (GetDocuments ids) e in
    mkOutcome
      match fst fetched with
      | Throw message => Throw message
      | Ok chunkDocs =>
          match snd (soundPrefix chunkDocs ids) with
          | Some message => Throw message
          | None => Ok (Js.join (map base64_utf8 (payloadsOf chunkDocs ids)))
          end
      end s (snd fetched) [mkEvent s (Called (GetDocuments ids) (fst fetched))].
Proof.
  unfold assembleFromChildren. rewrite run_tbind.
  change (run env (call (GetDocuments ids)) s e)
    with (let (r, e1) := handle env (GetDocuments ids) e in
          after [mkEvent s (Called (GetDocuments ids) r)]
                (@mkOutcome _ StorageCall E _ r s e1 [])).
  destruct (handle env (GetDocuments ids) e) as [[chunkDocs|message] e1];
    cbv zeta; cbn [result final world trace after fst snd]; [|reflexivity].
  rewrite (childrenLoop_faults None chunkDocs ids [] E env s e1), decodeAll_plain.
  destruct (soundPrefix_splits chunkDocs ids) as [_ Hfault].
  destruct (snd (soundPrefix chunkDocs ids)) as [message|]; [reflexivity|].
  now rewrite <- Hfault.
Qed.

(** X23. Without a passphrase the assembler has no [LiveSyncCrypto]: for
    every record, [assembleDocument] leaves the salt cache as it is, never
    fetches the sync-parameters document, and calls the store at most once,
    for the chunks of the [children] list. *)
Theorem assembly_without_passphrase (doc : LiveSyncDocument)
    E (env : Env StorageCall E) s e :
  let o := run env (assembleDocument None doc) s e in
  final o = s
  /\ saltQueries (trace o) = 0%nat
  /\ (callsIn (trace o) <= 1)%nat
  /\ (forall ev, In ev (trace o) ->
        isCalled ev = true ->
        exists ids r, children doc = Some ids
                      /\ ev_susp ev = Called (GetDocuments ids) r).
Proof.
  cbv zeta. unfold assembleDocument.
  rewrite (try_catch_rethrow _ E env s e).
  assert (Heden : forall entries,
            run env (text <- await (assembleFromEden None entries) ;;
                     ret (Some text)) s e
            = mkOutcome
                (Ok (Some (Js.join (map base64_utf8
                                      (edenPayloads (Js.sort byEpoch entries))))))
                s e [mkEvent s Ticked]).
  { intros entries. rewrite run_tbind, run_await.
    rewrite (assembleFromEden_decodeAll None entries E env s e), decodeAll_plain.
    reflexivity. }
  assert (Hchildren : forall ids,
            children doc = Some ids ->
            let o := run env (text <- await (assembleFromChildren None ids) ;;
                              ret (Some text)) s e in
            final o = s /\ saltQueries (trace o) = 0%nat
            /\ (callsIn (trace o) <= 1)%nat
            /\ (forall ev, In ev (trace o) -> isCalled ev = true ->
                  exists ids' r, children doc = Some ids'
                                 /\ ev_susp ev = Called (GetDocuments ids') r)).
  { intros ids Hids. cbv zeta. rewrite run_tbind, run_await.
    rewrite assembleFromChildren_plain. cbv zeta.
    cbn [result final world trace].
    assert (Hev : forall ev,
              In ev [mkEvent s (Called (GetDocuments ids)
                                  (fst (handle env (GetDocuments ids) e)));
                     mkEvent s Ticked] ->
              isCalled ev = true ->
              exists ids' r, children doc = Some ids'
                             /\ ev_susp ev = Called (GetDocuments ids') r).
    { intros ev [<-|[<-|[]]] Hcalled; [|discriminate].
      exists ids, (fst (handle env (GetDocuments ids) e)). now split. }
    destruct (fst (handle env (GetDocuments ids) e)) as [chunkDocs|message];
      [destruct (snd (soundPrefix chunkDocs ids))|];
      cbn [result final world trace after app];
      (split; [reflexivity|]); (split; [reflexivity|]);
      (split; [unfold callsIn; simpl; lia|]); exact Hev. }
  assert (Hquiet : forall (r : Res (option string)) t,
            (t = [] \/ t = [mkEvent s Ticked]) ->
            let o := @mkOutcome _ StorageCall E _ r s e t in
            final o = s /\ saltQueries (trace o) = 0%nat
            /\ (callsIn (trace o) <= 1)%nat
            /\ (forall ev, In ev (trace o) -> isCalled ev = true ->
                  exists ids' r', children doc = Some ids'
                                  /\ ev_susp ev = Called (GetDocuments ids') r')).
  { intros r t [-> | ->]; cbv zeta; cbn [final trace];
      (split; [reflexivity|]); (split; [reflexivity|]);
      (split; [unfold callsIn; simpl; lia|]).
    - intros ev [].
    - intros ev [<-|[]]; discriminate. }
  destruct (data doc) as [[|c d]|] eqn:Hdata.
  2:{ apply (Hquiet (Ok (Some (base64_utf8 (String c d)))) []). now left. }
  all: destruct (eden doc) as [[|entry entries]|] eqn:He;
    try (rewrite Heden; apply Hquiet; now right);
    destruct (children doc) as [[|chunkId ids]|] eqn:Hc;
    try (apply (Hquiet (Ok None) []); now left);
    now apply Hchildren.
Qed.

End AssemblerExtras.

(* ================================================================== *)
(** * What [decrypt] settles with *)

Section CryptoExtras.
Context `{Runtime}.
Import LiveSyncCrypto.

(** X24. For a payload that carries the ['%='] marker, how [decrypt] settles
    is fixed by the salt that is cached when it ends: with a salt cached it
    is the settlement of [decryptHKDF] under that salt, a failure being
    rethrown as "Decryption failed: ..."; with none cached the salt could
    not be loaded and the rejection says so. *)
Theorem decrypt_settles_by_the_cached_salt (passphrase payload : string)
    E (env : Env StorageCall E) (s : This) (e : E) :
  isEncrypted payload = true ->
  let o := run env (decrypt passphrase payload) s e in
  match final o with
  | Some salt =>
      result o = match decryptHKDF payload passphrase salt with
                 | Ok text => Ok text
                 | Throw message => Throw ("Decryption failed: " ++ message)
                 end
  | None =>
      exists cause,
        result o
        = Throw ("Decryption failed: Failed to load encryption salt: " ++ cause)
  end.
Proof.
  intros Hmarked. unfold decrypt. rewrite Hmarked. cbn [negb].
  destruct s as [salt|].
  - simpl. destruct (decryptHKDF payload passphrase salt) eqn:Hd; simpl;
      now rewrite Hd.
  - simpl. destruct (handle env (GetDocument SYNC_PARAMS_DOCID) e)
      as [[[params|]|message] e1]; simpl.
    + destruct (pbkdf2salt params) as [[|c rest]|]; simpl; eauto.
      destruct (decryptHKDF payload passphrase (base64_bytes (String c rest)))
        eqn:Hd; simpl; now rewrite Hd.
    + eauto.
    + eauto.
Qed.

End CryptoExtras.

(* ================================================================== *)
(** * The store behind the assembler: [CouchDBClient] *)

Section ClientFacts.
Context `{Runtime}.
Import CouchDBClient.

Lemma get_collect (docId : string) (rows : list Row) :
  forall docs,
    Js.get docId (collect rows docs)
    = match lastRow docId rows with
      | Some doc => Some doc
      | None => Js.get docId docs
      end.
Proof.
  unfold collect, lastRow.
  induction rows as [|row rows IH]; intros docs; simpl; [reflexivity|].
  rewrite IH, find_app_first.
  destruct (find _ (rev rows)) as [found|] eqn:Hfound.
  - apply find_some in Hfound as [_ Hdoc].
    apply andb_prop in Hdoc as [_ Hdoc].
    destruct (row_doc found); [reflexivity | discriminate].
  - simpl. destruct (row_doc row) as [doc|] eqn:Hdoc.
    + destruct (String.eqb_spec (row_id row) docId) as [<-|Hne]; simpl.
      * rewrite Hdoc. apply get_set_same.
      * apply get_set_other. congruence.
    + now rewrite andb_false_r.
Qed.

Lemma collect_keeps_keys_unique (rows : list Row) :
  forall docs, NoDup (Js.keys docs) -> NoDup (Js.keys (collect rows docs)).
Proof.
  unfold collect. induction rows as [|row rows IH]; intros docs Hnd; simpl;
    [exact Hnd|].
  apply IH. destruct (row_doc row); [now apply set_keeps_keys_unique | exact Hnd].
Qed.

Lemma getDocuments_run (ids : list string) E (nano : Env NanoCall E) (e : E) :
  ids <> [] ->
  run nano (getDocuments ids) tt e
  = let fetched := handle nano (DbFetch ids) e in
    mkOutcome match fst fetched with
              | Ok rows => Ok (collect rows [])
              | Throw message => Throw message
              end
              tt (snd fetched)
              [mkEvent tt (Called (DbFetch ids) (fst fetched))].
Proof.
  intros Hne. destruct ids as [|docId ids]; [congruence|].
  unfold getDocuments. rewrite (try_catch_rethrow _ E nano tt e).
  rewrite run_tbind, run_call. cbv zeta. cbn [result final world trace].
  now destruct (fst (handle nano (DbFetch (docId :: ids)) e)).
Qed.

(** X25. [getDocuments] makes no request for an empty list of ids.
    Otherwise it makes the one bulk fetch, rejects with its error when it
    rejects, and else returns a map without repeated keys in which an id
    reads the document of the last row that carries one under that id: the
    rows without document, which is how a key that was not found comes
    back, leave no entry. *)
Theorem getDocuments_keeps_the_rows_with_a_doc (ids : list string)
    E (nano : Env NanoCall E) (e : E) :
  let o := run nano (getDocuments ids) tt e in
  match ids with
  | [] => o = mkOutcome (Ok []) tt e []
  | _ :: _ =>
      callsIn (trace o) = 1%nat
      /\ match fst (handle nano (DbFetch ids) e) with
         | Throw message => result o = Throw message
         | Ok rows =>
             exists docs,
               result o = Ok docs
               /\ NoDup (Js.keys docs)
               /\ forall docId, Js.get docId docs = lastRow docId rows
         end
  end.
Proof.
  cbv zeta. destruct ids as [|docId ids]; [reflexivity|].
  rewrite getDocuments_run by discriminate. cbv zeta.
  cbn [result final world trace]. split; [reflexivity|].
  destruct (fst (handle nano (DbFetch (docId :: ids)) e)) as [rows|message];
    [|reflexivity].
  exists (collect rows []). split; [reflexivity|].
  split; [apply collect_keeps_keys_unique; constructor|].
  intros k. rewrite get_collect. now destruct (lastRow k rows).
Qed.

(** X26. The assembler over a [CouchDBClient], without passphrase: for a
    non-empty [children] list it makes the one bulk fetch, and a child for
    which the response has no row with a document is a chunk not found; the
    assembly fails at the first child that is not found or whose document
    has falsy [data], and else returns the decoded chunks in the order of
    [children]. *)
Theorem missing_chunk_through_the_client (ids : list string) (rows : list Row)
    E (nano : Env NanoCall E) s e e' :
  ids <> [] ->
  handle nano (DbFetch ids) e = (Ok rows, e') ->
  let docs := collect rows [] in
  run (viaCouchDB nano) (ChunkAssembler.assembleFromChildren None ids) s e
  = mkOutcome
      match snd (soundPrefix docs ids) with
      | Some message => Throw message
      | None => Ok (Js.join (map base64_utf8 (payloadsOf docs ids)))
      end s e' [mkEvent s (Called (GetDocuments ids) (Ok docs))]
  /\ (forall chunkId,
        chunkFault docs chunkId
        = match lastRow chunkId rows with
          | None => Some ("Chunk not found: " ++ chunkId)
          | Some chunk =>
              if Js.truthy_string (data chunk) then None
              else Some ("Chunk has no data: " ++ chunkId)
          end).
Proof.
  intros Hne Hfetch docs. split.
  - rewrite assembleFromChildren_plain. cbv zeta.
    assert (Hstore : handle (viaCouchDB nano) (GetDocuments ids) e = (Ok docs, e')).
    { cbn [handle viaCouchDB]. rewrite (getDocuments_run ids E nano e Hne).
      cbv zeta. cbn [result world]. now rewrite Hfetch. }
    now rewrite Hstore.
  - intros chunkId. unfold chunkFault, docs. rewrite get_collect.
    now destruct (lastRow chunkId rows).
Qed.

(** X27. [LiveSyncCrypto] over a [CouchDBClient]: when the fetch of the
    sync-parameters document is rejected, a status 404 is read as a missing
    document and any other error is passed on; in both cases [decrypt] of a
    marked payload rejects, wrapped twice, and no salt is cached. *)
Theorem salt_lookup_through_the_client (passphrase payload : string)
    (error : JsError) E (nano : Env NanoCall E) e e' :
  LiveSyncCrypto.isEncrypted payload = true ->
  handle nano (DbGet LiveSyncCrypto.SYNC_PARAMS_DOCID) e = (Ok (Rejected error), e') ->
  let o := run (viaCouchDB nano) (LiveSyncCrypto.decrypt passphrase payload) None e in
  final o = None
  /\ world o = e'
  /\ result o
     = Throw ("Decryption failed: Failed to load encryption salt: "
              ++ if match err_statusCode error with
                    | Some statusCode => statusCode =? 404
                    | None => false
                    end
                 then "Sync parameters document not found. Make sure the database is a valid LiveSync database with encryption enabled."
                 else err_message error).
Proof.
  intros Hmarked Hfetch. cbv zeta.
  unfold LiveSyncCrypto.decrypt. rewrite Hmarked. cbn [negb].
  simpl. rewrite Hfetch. simpl.
  destruct (err_statusCode error) as [statusCode|]; [|now repeat split].
  destruct (statusCode =? 404); now repeat split.
Qed.

End ClientFacts.

(* ================================================================== *)
(** * The state file: [JsonFileStorage] *)

Section StorageFacts.
Context `{Node}.
Import JsonFileStorage.

Lemma getState_run (baseDir : string) E (fs : Env FsCall E) (e : E) :
  run fs (getState baseDir) tt e
  = let read := handle fs (ReadFile (getFilePath baseDir)) e in
    mkOutcome
      match fst read with
      | Ok (Fulfilled content) => JSON_parse content
      | Ok (Rejected error) =>
          match err_code error with
          | Some code =>
              if String.eqb code "ENOENT" then Ok (mkState None None)
              else Throw (err_message error)
          | None => Throw (err_message error)
          end
      | Throw message => Throw message
      end tt (snd read)
      [mkEvent tt (Called (ReadFile (getFilePath baseDir)) (fst read))].
Proof.
  unfold getState. cbv zeta. rewrite run_tbind, run_call. cbv zeta.
  cbn [result final world trace].
  destruct (fst (handle fs (ReadFile (getFilePath baseDir)) e))
    as [[content|error]|message]; [| |reflexivity].
  - now destruct (JSON_parse content).
  - destruct (err_code error) as [code|]; [|reflexivity].
    now destruct (String.eqb code "ENOENT").
Qed.

Lemma saveState_run (baseDir : string) (state : SyncState)
    E (fs : Env FsCall E) (e : E) :
  run fs (saveState baseDir state) tt e
  = let made := handle fs (Mkdir baseDir) e in
    let mkdir := mkEvent tt (Called (Mkdir baseDir) (fst made)) in
    match fst made with
    | Throw message => mkOutcome (Throw message) tt (snd made) [mkdir]
    | Ok _ =>
        let write := WriteFile (getFilePath baseDir) (JSON_stringify state) in
        let written := handle fs write (snd made) in
        mkOutcome (fst written) tt (snd written)
                  [mkdir; mkEvent tt (Called write (fst written))]
    end.
Proof.
  unfold saveState. cbv zeta. rewrite (try_catch_rethrow _ E fs tt e).
  rewrite run_tbind, run_call. cbv zeta. cbn [result final world trace].
  destruct (handle fs (Mkdir baseDir) e) as [[[]|message] e1]; cbn [fst snd];
    [|reflexivity].
  rewrite run_call. reflexivity.
Qed.

(** X28. [updateState] never overwrites a state that it could not read:
    when [getState] rejects (the read fails with another code than
    [ENOENT], or the file does not parse), [updateState] rejects with the
    same error and neither creates the directory nor writes the file. *)
Theorem updateState_keeps_a_state_it_cannot_read (baseDir : string)
    (partial : PartialState) (message : string) E (fs : Env FsCall E) (e : E) :
  result (run fs (getState baseDir) tt e) = Throw message ->
  let o := run fs (updateState baseDir partial) tt e in
  result o = Throw message
  /\ existsb isFileChange (trace o) = false
  /\ world o = world (run fs (getState baseDir) tt e).
Proof.
  intros Hread. cbv zeta. unfold updateState. rewrite run_tbind, run_await.
  cbv zeta. revert Hread. rewrite getState_run. cbv zeta.
  cbn [result final world trace]. intros ->. now repeat split.
Qed.

Lemma disk_read (file : string) (files : Js.Map string) :
  handle disk (ReadFile file) files
  = (Ok match Js.get file files with
        | Some content => Fulfilled content
        | None => Rejected (missing file)
        end, files).
Proof. cbn [handle disk]. now destruct (Js.get file files). Qed.

(** X29. On a file system in which only a missing file fails:
    [updateState] fulfils and stores the state read before with the keys
    of [partial] laid over it, so that [getState] then returns it, provided
    that this state survives [JSON.stringify] and [JSON.parse]; no other
    file is touched. *)
Theorem updateState_merges_into_the_stored_state (baseDir : string)
    (partial : PartialState) (current : SyncState) (files : Js.Map string) :
  result (run disk (getState baseDir) tt files) = Ok current ->
  JSON_parse (JSON_stringify (spread current partial))
  = Ok (spread current partial) ->
  let o := run disk (updateState baseDir partial) tt files in
  result o = Ok tt
  /\ result (run disk (getState baseDir) tt (world o))
     = Ok (spread current partial)
  /\ (forall file, file <> getFilePath baseDir ->
                   Js.get file (world o) = Js.get file files).
Proof.
  intros Hread Hcodec. cbv zeta. unfold updateState.
  rewrite run_tbind, run_await. cbv zeta. revert Hread.
  rewrite getState_run. cbv zeta. rewrite disk_read.
  cbn [fst snd result final world trace]. intros ->.
  rewrite run_await, saveState_run. cbv zeta.
  cbn [handle disk fst snd result final world trace after].
  split; [reflexivity|]. split.
  - rewrite getState_run. cbv zeta. rewrite disk_read.
    cbn [fst snd result]. now rewrite get_set_same.
  - intros file Hother. now apply get_set_other.
Qed.

Lemma resetState_disk (baseDir : string) (files : Js.Map string) :
  run disk (resetState baseDir) tt files
  = mkOutcome (Ok tt) tt (Js.delete (getFilePath baseDir) files)
      [mkEvent tt
         (Called (Unlink (getFilePath baseDir))
            (Ok match Js.get (getFilePath baseDir) files with
                | Some _ => Fulfilled tt
                | None => Rejected (missing (getFilePath baseDir))
                end))].
Proof.
  unfold resetState. cbv zeta. rewrite run_tbind, run_call. cbn [handle disk].
  destruct (Js.get (getFilePath baseDir) files) as [content|] eqn:Hget;
    cbn [fst snd result final world trace after]; [reflexivity|].
  now rewrite (delete_absent _ _ Hget).
Qed.

(** X30. On the same file system, with one entry per path: [resetState]
    always fulfils, whether or not the state file exists; [getState] then
    returns the empty state; no other file is touched; and a second
    [resetState] changes nothing. *)
Theorem resetState_forgets_the_state (baseDir : string) (files : Js.Map string) :
  NoDup (Js.keys files) ->
  let o := run disk (resetState baseDir) tt files in
  result o = Ok tt
  /\ result (run disk (getState baseDir) tt (world o)) = Ok (mkState None None)
  /\ (forall file, file <> getFilePath baseDir ->
                   Js.get file (world o) = Js.get file files)
  /\ run disk (resetState baseDir) tt (world o)
     = mkOutcome (Ok tt) tt (world o)
         [mkEvent tt (Called (Unlink (getFilePath baseDir))
                        (Ok (Rejected (missing (getFilePath baseDir)))))].
Proof.
  intros Hnd. cbv zeta. rewrite !resetState_disk. cbn [result world].
  assert (Hgone : Js.get (getFilePath baseDir)
                         (Js.delete (getFilePath baseDir) files) = None)
    by now apply get_delete_same.
  split; [reflexivity|]. split.
  - rewrite getState_run. cbv zeta. rewrite disk_read, Hgone. reflexivity.
  - split.
    + intros file Hother. now apply get_delete_other.
    + rewrite Hgone. now rewrite (delete_absent _ _ Hgone).
Qed.

End StorageFacts.

(* ================================================================== *)
(** * The repositories, the service and the assembler on concrete runs *)

Module MoreScenarios.
Import Example Fixtures SyncService.

Lemma distinct_ids : NoDup (Js.keys [("a.md", stored "a.md" "old"); ("b.md", stored "b.md" "kept")]).
Proof.
  repeat constructor; simpl; intuition discriminate.
Defined.

Lemma delete_then_get_witness :
  let notes := [("a.md", stored "a.md" "old"); ("b.md", stored "b.md" "kept")] in
  MemoryNoteRepository.get "a.md" (MemoryNoteRepository.delete "a.md" notes) = None
  /\ MemoryNoteRepository.get "b.md" (MemoryNoteRepository.delete "a.md" notes)
     = Some (stored "b.md" "kept")
  /\ MemoryNoteRepository.count (MemoryNoteRepository.delete "a.md" notes) = 1.
Proof.
  cbv zeta.
  destruct (delete_then_get "a.md" _ distinct_ids) as (Hgone & Hother & _ & Hcount).
  split; [exact Hgone|]. split; [|exact Hcount].
  rewrite Hother; [reflexivity | discriminate].
Defined.

Lemma bulk_writes_witness :
  let notes := [("a.md", stored "a.md" "old"); ("b.md", stored "b.md" "kept")] in
  MemoryNoteRepository.get "a.md"
    (MemoryNoteRepository.saveMany [stored "a.md" "first"; stored "a.md" "last"] notes)
  = Some (stored "a.md" "last")
  /\ MemoryNoteRepository.get "a.md"
       (MemoryNoteRepository.deleteMany ["a.md"; "missing"] notes) = None.
Proof.
  cbv zeta.
  destruct (bulk_writes _ "a.md" distinct_ids) as (Hsave & Hdelete).
  split.
  - exact (Hsave [stored "a.md" "first"; stored "a.md" "last"]).
  - exact (Hdelete ["a.md"; "missing"]).
Defined.



Lemma processDocuments_counts_witness :
  let documents := [aNote; aChunk; bare] in
  let env := withMemoryRepository (remote documents "7" (mkChanges (Some []) "9")) in
  let o := run env (processDocuments documents) new (mkState None None, []) in
  result o = Ok (mkProcessResult 1 2 0)
  /\ 1 + 2 + 0 = Z.of_nat (List.length documents)
  /\ List.length (saved (trace o)) = 1%nat.
Proof.
  cbv zeta.
  destruct (processDocuments_counts
              (withMemoryRepository
                 (remote [aNote; aChunk; bare] "7" (mkChanges (Some []) "9")))
              [aNote; aChunk; bare] new (mkState None None, [])
              (mkProcessResult 1 2 0) eq_refl)
    as (Hsum & _ & Hsaved & _).
  split; [reflexivity|]. split; [exact Hsum|].
  apply Nat2Z.inj. symmetry. exact Hsaved.
Defined.

Lemma full_sync_persists_the_sequence_it_read_witness :
  let env := withMemoryRepository (remote [aNote] "7" (mkChanges (Some []) "9")) in
  let o := run env sync new (mkState None None, []) in
  result o = Ok tt
  /\ cursorsWritten (trace o) = [mkState (Some "7") (Some 1700000000000)]
  /\ lastSeq (final o) = Some "7".
Proof.
  cbv zeta.
  destruct (full_sync_persists_the_sequence_it_read _
              (withMemoryRepository (remote [aNote] "7" (mkChanges (Some []) "9")))
              new (mkState None None, []) eq_refl eq_refl)
    as (Hiff & Hcursor).
  split; [apply Hiff; reflexivity|]. split; [reflexivity|].
  destruct (Hcursor (mkState (Some "7") (Some 1700000000000)) (or_introl eq_refl))
    as (seq & _ & Hseq & Hlast).
  simpl in Hseq. now rewrite Hlast, <- Hseq.
Defined.

Lemma full_sync_moves_the_cursor_before_persisting_it_witness :
  let env := unwritable [aNote] "7" (mkChanges (Some []) "9") in
  let o := run env sync new (mkState None None) in
  let next := run env sync (final o) (world o) in
  result o = Throw "EACCES: permission denied"
  /\ world o = mkState None None
  /\ lastSeq (final o) = Some "7"
  /\ existsb isFullFetch (trace next) = false.
Proof.
  cbv zeta.
  destruct (full_sync_moves_the_cursor_before_persisting_it _
              (unwritable [aNote] "7" (mkChanges (Some []) "9"))
              new (mkState None None) eq_refl eq_refl "7" (or_introl eq_refl))
    as (Hlast & Hnext).
  split; [reflexivity|]. split; [reflexivity|]. split; [exact Hlast|].
  destruct (Hnext ltac:(discriminate) _
              (unwritable [aNote] "7" (mkChanges (Some []) "9"))
              (world (run (unwritable [aNote] "7" (mkChanges (Some []) "9")) sync new
                          (mkState None None))))
    as (Hnofull & _).
  exact Hnofull.
Defined.

Lemma rejected_write_keeps_the_cursor_witness :
  let env := readOnly [aNote] "7" (mkChanges (Some []) "9") in
  let o := run env sync new (mkState None None) in
  result o = Throw "EROFS: read-only file system"
  /\ lastSeq (final o) = None
  /\ cursorsWritten (trace o) = [].
Proof.
  cbv zeta.
  destruct (rejected_write_keeps_the_cursor _
              (readOnly [aNote] "7" (mkChanges (Some []) "9"))
              new (mkState None None) eq_refl eq_refl)
    as (_ & Hlast & Hcursors).
  split; [reflexivity|]. split; [exact Hlast | exact Hcursors].
Defined.

Lemma status_mirrors_the_outcome_witness :
  let o := run unreachable sync new tt in
  isRunning (final o) = false
  /\ lastSyncSuccess (final o) = false
  /\ error (final o) = Some "Database connection failed".
Proof.
  cbv zeta.
  destruct (status_mirrors_the_outcome _ unreachable new tt eq_refl)
    as (Hidle & _ & Hfailed).
  split; [exact Hidle|]. exact (Hfailed "Database connection failed" eq_refl).
Defined.

Lemma documentsCount_counts_the_pass_witness :
  let env := withMemoryRepository
               (remote [aNote; aChunk; bare] "7" (mkChanges (Some []) "9")) in
  let o := run env sync new (mkState None None, [("old.md", stored "old.md" "kept")]) in
  documentsCount (final o) = 1
  /\ MemoryNoteRepository.count (snd (world o)) = 2.
Proof.
  cbv zeta. split; [|reflexivity].
  exact (documentsCount_counts_the_pass _
           (withMemoryRepository
              (remote [aNote; aChunk; bare] "7" (mkChanges (Some []) "9")))
           new (mkState None None, [("old.md", stored "old.md" "kept")])
           eq_refl eq_refl).
Defined.

Lemma incremental_sync_persists_the_feed_cursor_witness :
  let feed := mkChanges (Some [update aNote]) "9" in
  let env := withMemoryRepository (remote [] "7" feed) in
  let o := run env sync (set_lastSeq "5" new) (mkState (Some "5") None, []) in
  lastSeq (final o) = Some "9"
  /\ sequencesRead (trace o) = [].
Proof.
  cbv zeta.
  destruct (incremental_sync_persists_the_feed_cursor _
              (withMemoryRepository (remote [] "7" (mkChanges (Some [update aNote]) "9")))
              (set_lastSeq "5" new) (mkState (Some "5") None, [])
              (mkChanges (Some [update aNote]) "9") eq_refl eq_refl eq_refl)
    as (Hcursor & _ & Hnone).
  split; [|exact Hnone].
  exact (proj2 (Hcursor (mkState (Some "9") (Some 1700000000000))
                        (or_introl eq_refl))).
Defined.

Lemma incremental_sync_without_changes_witness :
  let feed := mkChanges (Some []) "9" in
  let env := withMemoryRepository (remote [] "7" feed) in
  let o := run env sync (set_lastSeq "5" new)
               (mkState (Some "5") None, [("old.md", stored "old.md" "kept")]) in
  result o = Ok tt
  /\ lastSeq (final o) = Some "5"
  /\ documentsCount (final o) = 0.
Proof.
  cbv zeta.
  destruct (incremental_sync_without_changes _
              (withMemoryRepository (remote [] "7" (mkChanges (Some []) "9")))
              (set_lastSeq "5" new)
              (mkState (Some "5") None, [("old.md", stored "old.md" "kept")])
              (mkChanges (Some []) "9") eq_refl eq_refl eq_refl
              (or_intror eq_refl))
    as (Hok & _ & _ & Hfinal).
  split; [exact Hok|]. now rewrite Hfinal.
Defined.

Lemma rejected_fetch_ends_the_pass_witness :
  let o := run unreachable sync (set_lastSeq "5" new) tt in
  result o = Throw "Database connection failed"
  /\ lastSeq (final o) = Some "5"
  /\ existsb isRepoCall (trace o) = false.
Proof.
  cbv zeta.
  destruct (rejected_fetch_ends_the_pass _ unreachable (set_lastSeq "5" new) tt
              "Database connection failed" eq_refl eq_refl)
    as (Hthrown & _ & Hquiet & _ & Hfinal).
  split; [exact Hthrown|]. split; [now rewrite Hfinal | exact Hquiet].
Defined.

Lemma incremental_sync_removes_the_deleted_witness :
  let feed := mkChanges (Some [update aNote; removal "a.md"; removal "b.md"]) "9" in
  let env := withMemoryRepository (remote [] "7" feed) in
  let o := run env sync (set_lastSeq "5" new)
               (mkState (Some "5") None,
                [("a.md", stored "a.md" "old"); ("b.md", stored "b.md" "kept")]) in
  result o = Ok tt
  /\ MemoryNoteRepository.get "a.md" (snd (world o)) = None
  /\ MemoryNoteRepository.get "b.md" (snd (world o)) = None.
Proof.
  cbv zeta.
  pose proof (incremental_sync_removes_the_deleted _
                (remote [] "7"
                   (mkChanges (Some [update aNote; removal "a.md"; removal "b.md"]) "9"))
                (set_lastSeq "5" new) (mkState (Some "5") None)
                [("a.md", stored "a.md" "old"); ("b.md", stored "b.md" "kept")]
                (mkChanges (Some [update aNote; removal "a.md"; removal "b.md"]) "9")
                eq_refl eq_refl distinct_ids eq_refl eq_refl) as Hgone.
  split; [reflexivity|]. split.
  - apply Hgone. simpl. auto.
  - apply Hgone. simpl. auto.
Defined.

Lemma children_assembly_stops_at_the_first_fault_witness :
  let first := with_data "aGVsbG8=" (doc "h:1") in
  let third := with_data "d29ybGQ=" (doc "h:3") in
  let o := run (store [first; doc "h:2"; third])
               (ChunkAssembler.assembleFromChildren None ["h:1"; "h:2"; "h:3"])
               None tt in
  result o = Throw "Chunk has no data: h:2"
  /\ callsIn (trace o) = 1%nat.
Proof.
  cbv zeta.
  destruct (children_assembly_stops_at_the_first_fault None ["h:1"; "h:2"; "h:3"]
              [("h:1", with_data "aGVsbG8=" (doc "h:1")); ("h:2", doc "h:2");
               ("h:3", with_data "d29ybGQ=" (doc "h:3"))]
              unit
              (store [with_data "aGVsbG8=" (doc "h:1"); doc "h:2";
                      with_data "d29ybGQ=" (doc "h:3")])
              None tt tt eq_refl)
    as (_ & Hplain & _).
  rewrite (Hplain eq_refl). split; reflexivity.
Defined.

Lemma rejected_bulk_fetch_rejects_the_assembly_witness :
  let record := with_children ["h:1"; "h:2"] (doc "a.md") in
  let o := run offline (ChunkAssembler.assembleDocument (Some "correct horse") record)
               None tt in
  result o = Throw "connect ECONNREFUSED" /\ final o = None.
Proof.
  cbv zeta.
  rewrite (rejected_bulk_fetch_rejects_the_assembly (Some "correct horse")
             (with_children ["h:1"; "h:2"] (doc "a.md")) ["h:1"; "h:2"]
             "connect ECONNREFUSED" unit offline None tt tt
             eq_refl (or_introl eq_refl) eq_refl ltac:(discriminate) eq_refl).
  split; reflexivity.
Defined.

Lemma decrypt_settles_by_the_cached_salt_witness :
  let params := with_salt "c2FsdA==" (doc LiveSyncCrypto.SYNC_PARAMS_DOCID) in
  let good := run (store [params]) (LiveSyncCrypto.decrypt "correct horse" "%=Hello")
                  None tt in
  let bad := run (store [params]) (LiveSyncCrypto.decrypt "wrong" "%=Hello") None tt in
  result good = Ok "Hello"
  /\ result bad = Throw "Decryption failed: OperationError"
  /\ final bad = Some (base64_bytes "c2FsdA==").
Proof.
  cbv zeta.
  pose proof (decrypt_settles_by_the_cached_salt "correct horse" "%=Hello" unit
                (store [with_salt "c2FsdA==" (doc LiveSyncCrypto.SYNC_PARAMS_DOCID)])
                None tt eq_refl) as Hgood.
  pose proof (decrypt_settles_by_the_cached_salt "wrong" "%=Hello" unit
                (store [with_salt "c2FsdA==" (doc LiveSyncCrypto.SYNC_PARAMS_DOCID)])
                None tt eq_refl) as Hbad.
  split; [exact Hgood|]. split; [exact Hbad | reflexivity].
Defined.

Lemma missing_chunk_through_the_client_witness :
  let first := with_data "aGVsbG8=" (doc "h:1") in
  let o := run (viaCouchDB (couch [first]))
               (ChunkAssembler.assembleFromChildren None ["h:1"; "h:2"]) None tt in
  result o = Throw "Chunk not found: h:2".
Proof.
  cbv zeta.
  destruct (missing_chunk_through_the_client ["h:1"; "h:2"]
              [mkRow "h:1" (Some (with_data "aGVsbG8=" (doc "h:1"))); mkRow "h:2" None]
              unit (couch [with_data "aGVsbG8=" (doc "h:1")]) None tt tt
              ltac:(discriminate) eq_refl)
    as (Hrun & _).
  now rewrite Hrun.
Defined.

Lemma salt_lookup_through_the_client_witness :
  let o := run (viaCouchDB (couch []))
               (LiveSyncCrypto.decrypt "correct horse" "%=Hello") None tt in
  result o
  = Throw ("Decryption failed: Failed to load encryption salt: "
           ++ "Sync parameters document not found. Make sure the database is a valid LiveSync database with encryption enabled.")
  /\ final o = None.
Proof.
  cbv zeta.
  destruct (salt_lookup_through_the_client "correct horse" "%=Hello"
              (mkJsError None (Some 404) "missing") unit (couch []) tt tt
              eq_refl eq_refl)
    as (Hfinal & _ & Hresult).
  split; [exact Hresult | exact Hfinal].
Defined.

Lemma updateState_keeps_a_state_it_cannot_read_witness :
  let files := [("data/.obs-ls-headless-state.json", "lastSeq=7")] in
  let o := run disk
               (JsonFileStorage.updateState "data" (mkPartial (Some (Some "42")) None))
               tt files in
  result o = Throw "Unexpected token in JSON" /\ world o = files.
Proof.
  cbv zeta.
  destruct (@updateState_keeps_a_state_it_cannot_read node "data"
              (mkPartial (Some (Some "42")) None) "Unexpected token in JSON"
              (Js.Map string) disk
              [("data/.obs-ls-headless-state.json", "lastSeq=7")] eq_refl)
    as (Hresult & _ & Hworld).
  split; [exact Hresult | exact Hworld].
Defined.

Lemma updateState_merges_into_the_stored_state_witness :
  let files := [("data/.obs-ls-headless-state.json", stringify (mkState (Some "7") None));
                ("data/a.md", "hello")] in
  let o := run disk
               (JsonFileStorage.updateState "data" (mkPartial (Some (Some "42")) None))
               tt files in
  result (run disk (JsonFileStorage.getState "data") tt files)
  = Ok (mkState (Some "7") None)
  /\ result (run disk (JsonFileStorage.getState "data") tt (world o))
     = Ok (mkState (Some "42") None)
  /\ Js.get "data/a.md" (world o) = Some "hello".
Proof.
  cbv zeta.
  destruct (@updateState_merges_into_the_stored_state node "data"
              (mkPartial (Some (Some "42")) None) (mkState (Some "7") None)
              [("data/.obs-ls-headless-state.json", stringify (mkState (Some "7") None));
               ("data/a.md", "hello")]
              eq_refl eq_refl)
    as (_ & Hstate & Hothers).
  split; [reflexivity|]. split; [exact Hstate|].
  rewrite (Hothers "data/a.md"); [reflexivity | discriminate].
Defined.

Lemma two_files : NoDup (Js.keys [("data/.obs-ls-headless-state.json", "{}");
                                  ("data/a.md", "hello")]).
Proof.
  repeat constructor; simpl; intuition discriminate.
Defined.

Lemma resetState_forgets_the_state_witness :
  let files := [("data/.obs-ls-headless-state.json", "{}"); ("data/a.md", "hello")] in
  let o := run disk (JsonFileStorage.resetState "data") tt files in
  result o = Ok tt /\ world o = [("data/a.md", "hello")].
Proof.
  cbv zeta.
  destruct (@resetState_forgets_the_state node "data" _ two_files) as (Hresult & _).
  split; [exact Hresult | reflexivity].
Defined.

End MoreScenarios.
